(** * dsub/lib/param_util.py: parameter normalisation

    A shallow embedding of the parameter utilities of dsub (environment
    variables, labels, input/output file references, task tables, age
    strings) together with the properties of its specification.

    Python [str] values are Rocq [string]s, "str or None" is
    [option string], exceptions are values of [exn] carried by [result],
    and the mutable pieces (the auto-name counters of the two
    [FileParamUtil] objects and the standard error stream) are threaded
    explicitly. *)

From Stdlib Require Import List String Ascii ZArith Lia Bool Arith.
From Stdlib Require Import Numbers.DecimalString.
Import ListNotations.
Open Scope string_scope.

(** ** Python exceptions *)

(** The [ValueError]s of the module, one constructor per message. *)
Inductive value_error : Type :=
  | InvalidParamName (param_type : string) (name : string)
  | LabelLength (param_type : string)
  | LabelInvalid (param_type : string)
  | LabelReserved (name : string)
  | FileProviderNotSupported
  | FilePrefixNotSupported (prefix : string)
  | SquareBracket
  | QuestionMark
  | PathWildcard
  | RecursiveWildcard
  | DotFileName
  | NonRecursiveDirectory
  | WildcardInLoggingURI
  | UnrecognizedColumnHeader (col : string)
  | NoTasksAdded
  | UnableToParseAge (age : string)
  | InvalidLiteralForInt
  | EmptySeparator.

Inductive exn : Type :=
  | ValueError (e : value_error)
  | IndexError
  | TypeError
  | AttributeError
  | StopIteration
  | OverflowError.

Inductive result (A : Type) : Type :=
  | Ok (a : A)
  | Raise (e : exn).
Arguments Ok {A} a.
Arguments Raise {A} e.

Definition bind {A B : Type} (r : result A) (k : A -> result B) : result B :=
  match r with
  | Ok a => k a
  | Raise e => Raise e
  end.

Notation "x <- c ;; k" := (bind c (fun x => k))
  (at level 61, c at next level, right associativity).
Notation "' p <- c ;; k" := (bind c (fun x => let p := x in k))
  (at level 61, p pattern, c at next level, right associativity).

(** ** Python string operations *)

Module Str.

(** [c in cs] for a one-character string [c]. *)
Fixpoint char_in (c : ascii) (cs : string) : bool :=
  match cs with
  | EmptyString => false
  | String x r => Ascii.eqb c x || char_in c r
  end.

Definition startswith (s p : string) : bool := String.prefix p s.

(** [s[n:]] *)
Fixpoint drop (n : nat) (s : string) : string :=
  match n, s with
  | O, _ => s
  | S _, EmptyString => EmptyString
  | S k, String _ r => drop k r
  end.

(** [sub in s] *)
Fixpoint contains (sub s : string) : bool :=
  String.prefix sub s ||
  match s with
  | EmptyString => false
  | String _ r => contains sub r
  end.

Fixpoint endswith (s suf : string) : bool :=
  String.eqb s suf ||
  match s with
  | EmptyString => false
  | String _ r => endswith r suf
  end.

(** [s.rstrip(cs)]: a character stays when something after it stays or
    when it is not in [cs]. *)
Fixpoint rstrip (cs : string) (s : string) : string :=
  match s with
  | EmptyString => EmptyString
  | String c r =>
      match rstrip cs r with
      | EmptyString => if char_in c cs then EmptyString else String c EmptyString
      | r' => String c r'
      end
  end.

Fixpoint lstrip (cs : string) (s : string) : string :=
  match s with
  | EmptyString => EmptyString
  | String c r => if char_in c cs then lstrip cs r else s
  end.

(** [s.split(sep)] for a one-character separator. *)
Fixpoint split (sep : ascii) (s : string) : list string :=
  match s with
  | EmptyString => [EmptyString]
  | String c r =>
      if Ascii.eqb c sep then EmptyString :: split sep r
      else match split sep r with
           | h :: t => String c h :: t
           | [] => [String c EmptyString]
           end
  end.

(** [s.split(sep, 1)] for a separator that is not empty: the part
    before the first occurrence of the separator and, when there is one,
    the part after it (a list of length one or two in the source). *)
Fixpoint split1 (sep : string) (s : string) : string * option string :=
  if String.prefix sep s then (EmptyString, Some (drop (String.length sep) s))
  else match s with
       | EmptyString => (EmptyString, None)
       | String c r => let '(h, t) := split1 sep r in (String c h, t)
       end.

(** [sep.join(l)] *)
Definition join (sep : string) (l : list string) : string := String.concat sep l.

(** [s.replace(old, new, 1)] *)
Fixpoint replace_first (old new : string) (s : string) : string :=
  if String.prefix old s then new ++ drop (String.length old) s
  else match s with
       | EmptyString => EmptyString
       | String c r => String c (replace_first old new r)
       end.

Definition is_upper (c : ascii) : bool :=
  let n := nat_of_ascii c in (65 <=? n)%nat && (n <=? 90)%nat.
Definition is_lower (c : ascii) : bool :=
  let n := nat_of_ascii c in (97 <=? n)%nat && (n <=? 122)%nat.
Definition is_digit (c : ascii) : bool :=
  let n := nat_of_ascii c in (48 <=? n)%nat && (n <=? 57)%nat.
Definition is_alpha (c : ascii) : bool := is_upper c || is_lower c.

Definition lower_char (c : ascii) : ascii :=
  if is_upper c then ascii_of_nat (nat_of_ascii c + 32) else c.

Fixpoint lower (s : string) : string :=
  match s with
  | EmptyString => EmptyString
  | String c r => String (lower_char c) (lower r)
  end.

Fixpoint forallb (p : ascii -> bool) (s : string) : bool :=
  match s with
  | EmptyString => true
  | String c r => p c && forallb p r
  end.

(** Truthiness of a string: [if s]. *)
Definition nonempty (s : string) : bool :=
  match s with EmptyString => false | _ => true end.

(** ['%s' % n] for a non-negative integer. *)
Definition of_nat (n : nat) : string := NilZero.string_of_uint (Nat.to_uint n).

End Str.

(** ** posixpath (Python 2.7) *)

Module posixpath.

Definition isabs (s : string) : bool := Str.startswith s "/".

(** [p[:i], p[i:]] with [i = p.rfind('/') + 1]. *)
Fixpoint cut (p : string) : string * string :=
  match p with
  | EmptyString => (EmptyString, EmptyString)
  | String c r =>
      if Str.char_in "/" r then
        let '(h, t) := cut r in (String c h, t)
      else if Ascii.eqb c "/" then ("/", r)
      else (EmptyString, p)
  end.

(** [head and head != '/'*len(head)] decides whether the slashes at the
    end of the head are removed. *)
Definition strip_head (head : string) : string :=
  if Str.nonempty head && negb (Str.forallb (Ascii.eqb "/") head)
  then Str.rstrip "/" head else head.

Definition split (p : string) : string * string :=
  let '(head, tail) := cut p in (strip_head head, tail).

Definition dirname (p : string) : string := fst (split p).
Definition basename (p : string) : string := snd (cut p).

(** [join(a, b)]; the first argument may be [None] (an unset
    environment variable), on which [endswith] is an attribute error. *)
Definition join_opt (a : option string) (b : string) : result string :=
  if Str.startswith b "/" then Ok b
  else match a with
       | None => Raise AttributeError
       | Some path =>
           if String.eqb path "" || Str.endswith path "/" then Ok (path ++ b)
           else Ok (path ++ "/" ++ b)
       end.

Definition join (a b : string) : string :=
  if Str.startswith b "/" then b
  else if String.eqb a "" || Str.endswith a "/" then a ++ b
  else a ++ "/" ++ b.

(** The loop of [normpath] over the components; [new_comps] is kept in
    reverse so that its last element is at the head. *)
Fixpoint norm_comps (initial_slashes : nat) (comps : list string)
         (rev_new : list string) : list string :=
  match comps with
  | [] => rev rev_new
  | comp :: rest =>
      if String.eqb comp "" || String.eqb comp "." then
        norm_comps initial_slashes rest rev_new
      else if negb (String.eqb comp "..")
              || (Nat.eqb initial_slashes 0 && match rev_new with [] => true | _ => false end)
              || match rev_new with last :: _ => String.eqb last ".." | [] => false end
      then norm_comps initial_slashes rest (comp :: rev_new)
      else match rev_new with
           | _ :: popped => norm_comps initial_slashes rest popped
           | [] => norm_comps initial_slashes rest rev_new
           end
  end.

Definition slashes (n : nat) : string :=
  match n with 0 => "" | 1 => "/" | _ => "//" end.

Definition normpath (path : string) : string :=
  if String.eqb path "" then "."
  else
    let initial_slashes :=
      if Str.startswith path "/" then
        if Str.startswith path "//" && negb (Str.startswith path "///")
        then 2%nat else 1%nat
      else 0%nat in
    let comps := norm_comps initial_slashes (Str.split "/" path) [] in
    let path' := slashes initial_slashes ++ Str.join "/" comps in
    if String.eqb path' "" then "." else path'.

(** [abspath] reads the current directory of the process. *)
Definition abspath (cwd : string) (path : string) : string :=
  if isabs path then normpath path else normpath (join cwd path).

End posixpath.

(** ** Regular expressions of the module

    Each pattern of the source is a function of its own.  [re.match]
    anchors at the start; a final [$] matches at the end of the string and
    also just before a newline that ends the string. *)

Module Re.

Definition newline : ascii := ascii_of_nat 10.

(** The part of the string a pattern ending in [$] has to cover. *)
Fixpoint chomp (s : string) : string :=
  match s with
  | EmptyString => EmptyString
  | String c r =>
      if Ascii.eqb c newline && String.eqb r "" then EmptyString
      else String c (chomp r)
  end.

Definition name_start (c : ascii) : bool := Str.is_alpha c || Ascii.eqb c "_".
Definition name_char (c : ascii) : bool :=
  Str.is_alpha c || Str.is_digit c || Ascii.eqb c "_".

(** [^[a-zA-Z_][a-zA-Z0-9_]*$] *)
Definition match_param_name (s : string) : bool :=
  match chomp s with
  | EmptyString => false
  | String c r => name_start c && Str.forallb name_char r
  end.

Definition label_char (c : ascii) : bool :=
  Ascii.eqb c "-" || Ascii.eqb c "_" || Str.is_lower c || Str.is_digit c.

(** The label pattern: [^], one of [a-z], an optional group repeating
    [-_a-z0-9], [$]. *)
Definition match_label (s : string) : bool :=
  match chomp s with
  | EmptyString => false
  | String c r => Str.is_lower c && Str.forallb label_char r
  end.

Definition scheme_char (c : ascii) : bool :=
  Str.is_alpha c || Str.is_digit c
  || Ascii.eqb c "+" || Ascii.eqb c "." || Ascii.eqb c "-".

(** The longest run of scheme characters at the start, and the rest. *)
Fixpoint span_scheme (s : string) : string * string :=
  match s with
  | EmptyString => (EmptyString, EmptyString)
  | String c r =>
      if scheme_char c then let '(tok, rest) := span_scheme r in (String c tok, rest)
      else (EmptyString, s)
  end.

(** [^([A-Za-z][A-Za-z0-9+.-]{0,29})://], returning group 1.  The
    character after the run is not a scheme character, so the only
    candidate for the group is the whole run. *)
Definition match_scheme (uri : string) : option string :=
  match uri with
  | EmptyString => None
  | String c r =>
      if Str.is_alpha c then
        let '(tok, rest) := span_scheme r in
        if (String.length tok <=? 29)%nat && Str.startswith rest "://"
        then Some (String c tok) else None
      else None
  end.

(** [re.sub(r'/\.\.', '/_dotdot_', s)]: every occurrence, left to right. *)
Fixpoint sub_slash_dotdot (s : string) : string :=
  match s with
  | EmptyString => EmptyString
  | String c r =>
      match r with
      | String c1 (String c2 r') =>
          if Ascii.eqb c "/" && Ascii.eqb c1 "." && Ascii.eqb c2 "."
          then "/_dotdot_" ++ sub_slash_dotdot r'
          else String c (sub_slash_dotdot r)
      | _ => String c (sub_slash_dotdot r)
      end
  end.

(** [re.sub(r'^\.\.', '_dotdot_', s)] *)
Definition sub_lead_dotdot (s : string) : string :=
  if Str.startswith s ".." then "_dotdot_" ++ Str.drop 2 s else s.

(** [re.sub(r'^~/', '_home_/', s)] *)
Definition sub_lead_home (s : string) : string :=
  if Str.startswith s "~/" then "_home_/" ++ Str.drop 2 s else s.

(** [re.sub(r'^file:/', '', s)] *)
Definition sub_lead_file (s : string) : string :=
  if Str.startswith s "file:/" then Str.drop 6 s else s.

End Re.

(** ** Providers and parameter values *)

Inductive provider : Type := P_LOCAL | P_GCS.

Definition provider_name (p : provider) : string :=
  match p with P_LOCAL => "local" | P_GCS => "google-cloud-storage" end.

Definition AUTO_PREFIX_INPUT : string := "INPUT_".
Definition AUTO_PREFIX_OUTPUT : string := "OUTPUT_".

Definition RESERVED_LABELS : list string :=
  ["job-name"; "job-id"; "user-id"; "task-id"; "dsub-version"].

Definition validate_param_name (name : option string) (param_type : string)
  : result unit :=
  match name with
  | None => Raise TypeError
  | Some n =>
      if Re.match_param_name n then Ok tt
      else Raise (ValueError (InvalidParamName param_type n))
  end.

Record UriParts : Type := mkUriParts { path : string; basename : string }.

(** [UriParts.__new__]: the string value is [path + basename]. *)
Definition UriParts_new (p : string) (b : option string) : UriParts :=
  mkUriParts p (match b with Some b' => b' | None => "" end).

Definition uri_str (u : UriParts) : string := path u ++ basename u.

Record EnvParam : Type := mkEnvParam { env_name : string; env_value : option string }.

Definition EnvParam_new (name : option string) (value : option string)
  : result EnvParam :=
  _ <- validate_param_name name "Environment variable" ;;
  match name with
  | Some n => Ok (mkEnvParam n value)
  | None => Raise TypeError
  end.

Record LoggingParam : Type :=
  mkLoggingParam { log_uri : option UriParts; log_file_provider : option provider }.

Record LabelParam : Type := mkLabelParam { label_name : string; label_value : option string }.

Definition _check_label_rule (param_value : option string) (param_type : string)
  : result unit :=
  match param_value with
  | None => Raise TypeError
  | Some v =>
      if (String.length v <? 1)%nat || (63 <? String.length v)%nat
      then Raise (ValueError (LabelLength param_type))
      else if negb (Re.match_label v)
      then Raise (ValueError (LabelInvalid param_type))
      else Ok tt
  end.

Definition truthy (v : option string) : bool :=
  match v with Some s => Str.nonempty s | None => false end.

Definition validate_label (_allow_reserved_keys : bool)
           (name value : option string) : result unit :=
  _ <- _check_label_rule name "name" ;;
  _ <- (if truthy value then _check_label_rule value "value" else Ok tt) ;;
  match name with
  | Some n =>
      if negb _allow_reserved_keys && existsb (String.eqb n) RESERVED_LABELS
      then Raise (ValueError (LabelReserved n))
      else Ok tt
  | None => Raise TypeError
  end.

Definition LabelParam_new (name value : option string) : result LabelParam :=
  _ <- validate_label false name value ;;
  match name with
  | Some n => Ok (mkLabelParam n value)
  | None => Raise TypeError
  end.

(** The three classes a file parameter can be an instance of. *)
Inductive file_param_class : Type :=
  | FileParamClass
  | InputFileParamClass
  | OutputFileParamClass.

Record FileParam : Type := mkFileParam {
  fp_class : file_param_class;
  fp_name : string;
  fp_value : option string;
  docker_path : option string;
  uri : option UriParts;
  recursive : bool;
  file_provider : option provider
}.

Definition FileParam_new (cls : file_param_class) (name : string)
           (value docker : option string) (u : option UriParts)
           (rec : bool) (prov : option provider) : result FileParam :=
  _ <- match cls with
       | FileParamClass => Ok tt
       | InputFileParamClass => validate_param_name (Some name) "Input parameter"
       | OutputFileParamClass => validate_param_name (Some name) "Output parameter"
       end ;;
  Ok (mkFileParam cls name value docker u rec prov).

(** ** FileParamUtil *)

(** What the rewriter reads from the process: the [HOME] variable, which
    may be unset, and the current directory. *)
Record os_env : Type := mkEnv { HOME : option string; cwd : string }.

Record FileParamUtil : Type := mkUtil {
  param_class : file_param_class;
  _auto_prefix : string;
  _auto_index : nat;
  _relative_path : string
}.

Definition InputFileParamUtil (docker_path : string) : FileParamUtil :=
  mkUtil InputFileParamClass AUTO_PREFIX_INPUT 0 docker_path.

Definition OutputFileParamUtil (docker_path : string) : FileParamUtil :=
  mkUtil OutputFileParamClass AUTO_PREFIX_OUTPUT 0 docker_path.

(** Returns the name and the util after the call. *)
Definition get_variable_name (self : FileParamUtil) (name : option string)
  : string * FileParamUtil :=
  match name with
  | Some (String c r) => (String c r, self)
  | _ =>
      (_auto_prefix self ++ Str.of_nat (_auto_index self),
       mkUtil (param_class self) (_auto_prefix self)
              (S (_auto_index self)) (_relative_path self))
  end.

Definition directory_fmt (directory : string) : string :=
  Str.rstrip "/" directory ++ "/".

Definition prefix_replacements (env : os_env) : list (string * option string) :=
  [("file:///", Some "/"); ("~/", HOME env); ("./", Some ""); ("file:/", Some "/")].

Fixpoint apply_prefix_replacements (l : list (string * option string))
         (normed_path : string) : result string :=
  match l with
  | [] => Ok normed_path
  | (prefix, replacement) :: rest =>
      if Str.startswith normed_path prefix then
        p <- posixpath.join_opt replacement
               (Str.drop (String.length prefix) normed_path) ;;
        apply_prefix_replacements rest p
      else apply_prefix_replacements rest normed_path
  end.

Definition docker_rewrites : list (string -> string) :=
  [Re.sub_slash_dotdot; Re.sub_lead_dotdot; Re.sub_lead_home; Re.sub_lead_file].

Definition apply_docker_rewrites (docker_path : string) : string :=
  fold_left (fun p rewrite => rewrite p) docker_rewrites docker_path.

(** The container path of a local reference, from the raw directory and
    the file name. *)
Definition local_docker_path (raw_path filename : string) : string :=
  let docker_path := posixpath.normpath raw_path in
  let docker_path := apply_docker_rewrites docker_path in
  let docker_path := Str.lstrip "./" docker_path in
  directory_fmt ("file/" ++ docker_path) ++ filename.

Definition _local_uri_rewriter (env : os_env) (raw_uri : string)
  : result (string * string) :=
  let '(raw_path, filename) := posixpath.split raw_uri in
  normed_path <- apply_prefix_replacements (prefix_replacements env) raw_path ;;
  let normed_uri := directory_fmt (posixpath.abspath (cwd env) normed_path) in
  let normed_uri := posixpath.join normed_uri filename in
  Ok (normed_uri, local_docker_path raw_path filename).

Definition _gcs_uri_rewriter (raw_uri : string) : string * string :=
  (raw_uri, Str.replace_first "gs://" "gs/" raw_uri).

(** [file_provider] is always one of the two members of [FILE_PROVIDERS]
    here, so the final [else] of the source has no counterpart. *)
Definition rewrite_uris (self : FileParamUtil) (env : os_env)
           (raw_uri : string) (file_provider : provider)
  : result (string * string) :=
  '(normalized, docker_path) <-
     match file_provider with
     | P_GCS => Ok (_gcs_uri_rewriter raw_uri)
     | P_LOCAL => _local_uri_rewriter env raw_uri
     end ;;
  Ok (normalized, posixpath.join (_relative_path self) docker_path).

Definition parse_file_provider (uri : string) : result provider :=
  let prefix :=
    match Re.match_scheme uri with
    | Some group1 => Str.lower group1
    | None => "file"
    end in
  if String.eqb prefix "gs" then Ok P_GCS
  else if String.eqb prefix "file" then Ok P_LOCAL
  else Raise (ValueError (FilePrefixNotSupported prefix)).

Definition _validate_paths_or_fail (uri : string) (recursive : bool)
  : result unit :=
  let '(path, filename) := posixpath.split uri in
  if Str.contains "[" uri || Str.contains "]" uri
  then Raise (ValueError SquareBracket)
  else if Str.contains "?" uri then Raise (ValueError QuestionMark)
  else if Str.contains "*" path then Raise (ValueError PathWildcard)
  else if Str.contains "**" filename then Raise (ValueError RecursiveWildcard)
  else if String.eqb filename ".." || String.eqb filename "."
  then Raise (ValueError DotFileName)
  else if negb recursive && negb (Str.nonempty filename)
  then Raise (ValueError NonRecursiveDirectory)
  else Ok tt.

Definition parse_uri (self : FileParamUtil) (env : os_env)
           (raw_uri : string) (recursive : bool)
  : result (string * UriParts * provider) :=
  let raw_uri := if recursive then directory_fmt raw_uri else raw_uri in
  file_provider <- parse_file_provider raw_uri ;;
  _ <- _validate_paths_or_fail raw_uri recursive ;;
  '(uri, docker_uri) <- rewrite_uris self env raw_uri file_provider ;;
  let uri_parts :=
    UriParts_new (directory_fmt (posixpath.dirname uri))
                 (Some (posixpath.basename uri)) in
  Ok (docker_uri, uri_parts, file_provider).

Definition make_param (self : FileParamUtil) (env : os_env)
           (name : string) (raw_uri : string) (recursive : bool)
  : result FileParam :=
  '(docker_path, uri_parts, provider) <- parse_uri self env raw_uri recursive ;;
  FileParam_new (param_class self) name (Some raw_uri) (Some docker_path)
                (Some uri_parts) recursive (Some provider).

Definition build_logging_param (env : os_env) (logging_uri : option string)
           (util_class : string -> FileParamUtil) : result LoggingParam :=
  match logging_uri with
  | Some (String _ _ as logging_uri) =>
      let recursive := negb (Str.endswith logging_uri ".log") in
      let oututil := util_class "" in
      '(_, uri, provider) <- parse_uri oututil env logging_uri recursive ;;
      if Str.contains "*" (basename uri)
      then Raise (ValueError WildcardInLoggingURI)
      else Ok (mkLoggingParam (Some uri) (Some provider))
  | _ => Ok (mkLoggingParam None None)
  end.

(** [split_pair] returns the two-element list as a pair; [str.split]
    raises a [ValueError] for an empty separator. *)
Definition split_pair (pair_string : string) (separator : string)
           (nullable_idx : Z) : result (option string * option string) :=
  match separator with
  | EmptyString => Raise (ValueError EmptySeparator)
  | _ =>
      match Str.split1 separator pair_string with
      | (whole, None) =>
          if (nullable_idx =? 0)%Z then Ok (None, Some whole)
          else if (nullable_idx =? 1)%Z then Ok (Some whole, None)
          else Raise IndexError
      | (a, Some b) => Ok (Some a, Some b)
      end
  end.

(** ** The mutable state of a compilation

    The two [FileParamUtil] objects (their auto-name counters change) and
    what [dsub_util.print_error] has written.  A raised exception leaves
    the state as it was when it was raised. *)

Record state : Type := mkState {
  input_file_param_util : FileParamUtil;
  output_file_param_util : FileParamUtil;
  stderr : list string
}.

Definition M (A : Type) : Type := state -> result A * state.

Definition ret {A : Type} (a : A) : M A := fun st => (Ok a, st).
Definition raise {A : Type} (e : exn) : M A := fun st => (Raise e, st).
Definition lift {A : Type} (r : result A) : M A := fun st => (r, st).

Definition bindM {A B : Type} (m : M A) (k : A -> M B) : M B :=
  fun st =>
    match m st with
    | (Ok a, st') => k a st'
    | (Raise e, st') => (Raise e, st')
    end.

Notation "x <~ c ;; k" := (bindM c (fun x => k))
  (at level 61, c at next level, right associativity).
Notation "' p <~ c ;; k" := (bindM c (fun x => let p := x in k))
  (at level 61, p pattern, c at next level, right associativity).

Definition print_error (msg : string) : M unit :=
  fun st => (Ok tt, mkState (input_file_param_util st)
                            (output_file_param_util st)
                            (stderr st ++ [msg])).

Definition input_get_variable_name (name : option string) : M string :=
  fun st =>
    let '(n, u) := get_variable_name (input_file_param_util st) name in
    (Ok n, mkState u (output_file_param_util st) (stderr st)).

Definition output_get_variable_name (name : option string) : M string :=
  fun st =>
    let '(n, u) := get_variable_name (output_file_param_util st) name in
    (Ok n, mkState (input_file_param_util st) u (stderr st)).

Definition input_make_param (env : os_env) (name raw_uri : string) (rec : bool)
  : M FileParam :=
  fun st => (make_param (input_file_param_util st) env name raw_uri rec, st).

Definition output_make_param (env : os_env) (name raw_uri : string) (rec : bool)
  : M FileParam :=
  fun st => (make_param (output_file_param_util st) env name raw_uri rec, st).

(** ** Task table compiler *)

(** A job parameter of the header: an [EnvParam], a [LabelParam] or a
    file parameter, whose class says input or output. *)
Inductive Param : Type :=
  | PEnv (p : EnvParam)
  | PLabel (p : LabelParam)
  | PFile (p : FileParam).

Definition param_name (p : Param) : string :=
  match p with
  | PEnv e => env_name e
  | PLabel l => label_name l
  | PFile f => fp_name f
  end.

Definition opt_eqb (o : option string) (s : string) : bool :=
  match o with Some t => String.eqb t s | None => false end.

Definition opt_endswith (o : option string) (suf : string) : bool :=
  match o with Some t => Str.endswith t suf | None => false end.

(** The body of the loop of [parse_tasks_file_header]. *)
Definition parse_column (col : string) : M Param :=
  '(col_type, col_value) <~
     lift (if Str.startswith col "-" then split_pair col " " 1
           else Ok (Some "--env", Some col)) ;;
  if opt_eqb col_type "--env" then
    p <~ lift (EnvParam_new col_value None) ;; ret (PEnv p)
  else if opt_eqb col_type "--label" then
    p <~ lift (LabelParam_new col_value None) ;; ret (PLabel p)
  else if opt_eqb col_type "--input" || opt_eqb col_type "--input-recursive" then
    name <~ input_get_variable_name col_value ;;
    p <~ lift (FileParam_new InputFileParamClass name None None None
                 (opt_endswith col_type "recursive") (Some P_GCS)) ;;
    ret (PFile p)
  else if opt_eqb col_type "--output" || opt_eqb col_type "--output-recursive" then
    name <~ output_get_variable_name col_value ;;
    p <~ lift (FileParam_new OutputFileParamClass name None None None
                 (opt_endswith col_type "recursive") (Some P_GCS)) ;;
    ret (PFile p)
  else raise (ValueError (UnrecognizedColumnHeader col)).

Fixpoint parse_tasks_file_header (header : list string) : M (list Param) :=
  match header with
  | [] => ret []
  | col :: rest =>
      p <~ parse_column col ;;
      ps <~ parse_tasks_file_header rest ;;
      ret (p :: ps)
  end.

(** One element of [job_data]; [args_to_job_data] sets no ['task-id']. *)
Record task : Type := mkTask {
  task_id : option Z;
  labels : list LabelParam;
  envs : list EnvParam;
  inputs : list FileParam;
  outputs : list FileParam
}.

(** [row[i]] *)
Definition row_get (row : list string) (i : nat) : result string :=
  match nth_error row i with
  | Some cell => Ok cell
  | None => Raise IndexError
  end.

(** The loop [for i in range(0, len(job_params))] over one row; [t]
    holds the four lists built so far. *)
Fixpoint row_params (env : os_env) (job_params : list Param)
         (row : list string) (i : nat) (t : task) : M task :=
  match job_params with
  | [] => ret t
  | param :: rest =>
      let name := param_name param in
      t' <~
        match param with
        | PEnv _ =>
            cell <~ lift (row_get row i) ;;
            p <~ lift (EnvParam_new (Some name) (Some cell)) ;;
            ret (mkTask (task_id t) (labels t) (envs t ++ [p]) (inputs t) (outputs t))
        | PLabel _ =>
            cell <~ lift (row_get row i) ;;
            p <~ lift (LabelParam_new (Some name) (Some cell)) ;;
            ret (mkTask (task_id t) (labels t ++ [p]) (envs t) (inputs t) (outputs t))
        | PFile f =>
            match fp_class f with
            | InputFileParamClass =>
                cell <~ lift (row_get row i) ;;
                p <~ input_make_param env name cell (recursive f) ;;
                ret (mkTask (task_id t) (labels t) (envs t) (inputs t ++ [p]) (outputs t))
            | OutputFileParamClass =>
                cell <~ lift (row_get row i) ;;
                p <~ output_make_param env name cell (recursive f) ;;
                ret (mkTask (task_id t) (labels t) (envs t) (inputs t) (outputs t ++ [p]))
            | FileParamClass => ret t
            end
        end ;;
      row_params env rest row (S i) t'
  end.

(** A record of the tab-separated file as [csv.reader] yields it: its
    fields, and how many lines beyond the first it occupies (a quoted
    field may contain line breaks). *)
Record csv_record : Type := mkRecord { fields : list string; extra_lines : nat }.

(** The records paired with [reader.line_num] as it stands when each is
    yielded; [line_num] is the number of lines read before. *)
Fixpoint read_records (line_num : Z) (records : list csv_record)
  : list (Z * list string) :=
  match records with
  | [] => []
  | r :: rest =>
      let n := (line_num + 1 + Z.of_nat (extra_lines r))%Z in
      (n, fields r) :: read_records n rest
  end.

(** [bound and task_id < bound], [bound and task_id > bound] *)
Definition below_min (task_min : option Z) (task_id : Z) : bool :=
  match task_min with
  | Some m => negb (m =? 0)%Z && (task_id <? m)%Z
  | None => false
  end.

Definition above_max (task_max : option Z) (task_id : Z) : bool :=
  match task_max with
  | Some m => negb (m =? 0)%Z && (task_id >? m)%Z
  | None => false
  end.

Definition field_count_message (row_len params_len : nat) (line_num : Z) : string :=
  "Unexpected number of fields " ++ Str.of_nat row_len ++ " vs "
    ++ Str.of_nat params_len ++ ": line " ++ Str.of_nat (Z.to_nat line_num).

(** The body of the row loop for a row that is not skipped. *)
Definition compile_row (env : os_env) (job_params : list Param)
           (line_num : Z) (row : list string) : M task :=
  let task_id := (line_num - 1)%Z in
  _ <~ (if negb (List.length row =? List.length job_params)%nat
        then print_error (field_count_message (List.length row)
                            (List.length job_params) line_num)
        else ret tt) ;;
  row_params env job_params row 0 (mkTask (Some task_id) [] [] [] []).

Fixpoint compile_rows (env : os_env) (job_params : list Param)
         (task_min task_max : option Z) (rows : list (Z * list string))
         (job_data : list task) : M (list task) :=
  match rows with
  | [] => ret job_data
  | (line_num, row) :: rest =>
      let task_id := (line_num - 1)%Z in
      if below_min task_min task_id then
        compile_rows env job_params task_min task_max rest job_data
      else if above_max task_max task_id then
        compile_rows env job_params task_min task_max rest job_data
      else
        t <~ compile_row env job_params line_num row ;;
        compile_rows env job_params task_min task_max rest (job_data ++ [t])
  end.

(** The [tasks] dictionary. *)
Record tasks_arg : Type := mkTasks {
  tasks_path : string;
  tasks_min : option Z;
  tasks_max : option Z
}.

(** [records] is what the reader yields for the file at [tasks_path]. *)
Definition tasks_file_to_job_data (env : os_env) (tasks : tasks_arg)
           (records : list csv_record) : M (list task) :=
  match records with
  | [] => raise StopIteration
  | header :: data =>
      job_params <~ parse_tasks_file_header (fields header) ;;
      job_data <~ compile_rows env job_params (tasks_min tasks) (tasks_max tasks)
                    (read_records (1 + Z.of_nat (extra_lines header)) data) [] ;;
      match job_data with
      | [] => raise (ValueError NoTasksAdded)
      | _ => ret job_data
      end
  end.

(** ** Command-line argument compiler *)

Fixpoint parse_pair_args {A : Type} (labels : list string)
         (argclass : option string -> option string -> result A)
  : result (list A) :=
  match labels with
  | [] => Ok []
  | arg :: rest =>
      '(name, value) <- split_pair arg "=" 1 ;;
      a <- argclass name value ;;
      others <- parse_pair_args rest argclass ;;
      Ok (a :: others)
  end.

(** The inner loop [for arg in args] for the inputs and for the outputs. *)
Fixpoint file_args (get_name : option string -> M string)
         (make : string -> string -> bool -> M FileParam)
         (recursive : bool) (args : list string) (data : list FileParam)
  : M (list FileParam) :=
  match args with
  | [] => ret data
  | arg :: rest =>
      '(name, value) <~ lift (split_pair arg "=" 0) ;;
      name <~ get_name name ;;
      match value with
      | Some value =>
          p <~ make name value recursive ;;
          file_args get_name make recursive rest (data ++ [p])
      | None => raise TypeError
      end
  end.

Definition args_to_job_data (env : os_env)
           (envs labels inputs inputs_recursive outputs outputs_recursive
            : list string) : M (list task) :=
  env_data <~ lift (parse_pair_args envs EnvParam_new) ;;
  label_data <~ lift (parse_pair_args labels LabelParam_new) ;;
  input_data <~ file_args input_get_variable_name (input_make_param env)
                  false inputs [] ;;
  input_data <~ file_args input_get_variable_name (input_make_param env)
                  true inputs_recursive input_data ;;
  output_data <~ file_args output_get_variable_name (output_make_param env)
                   false outputs [] ;;
  output_data <~ file_args output_get_variable_name (output_make_param env)
                   true outputs_recursive output_data ;;
  ret [mkTask None label_data env_data input_data output_data].

(** ** Age strings *)

Module Age.

Local Open Scope Z_scope.

Definition is_space (c : ascii) : bool :=
  let n := nat_of_ascii c in (n =? 32)%nat || ((9 <=? n)%nat && (n <=? 13)%nat).

Fixpoint lstrip_space (s : string) : string :=
  match s with
  | String c r => if is_space c then lstrip_space r else s
  | EmptyString => EmptyString
  end.

Definition digit_value (c : ascii) : Z := Z.of_nat (nat_of_ascii c) - 48.

(** The decimal digits at the start of [s], read into [acc]; the number
    of digits read; and what follows them. *)
Fixpoint read_digits (acc : Z) (count : nat) (s : string) : Z * nat * string :=
  match s with
  | String c r =>
      if Str.is_digit c then read_digits (10 * acc + digit_value c) (S count) r
      else (acc, count, s)
  | EmptyString => (acc, count, s)
  end.

(** [int(s)] of Python 2 on a [str]: white space, an optional sign,
    white space, at least one decimal digit, white space. *)
Definition int (s : string) : result Z :=
  let s := lstrip_space s in
  let '(sign, s) :=
    if Str.startswith s "+" then (1, Str.drop 1 s)
    else if Str.startswith s "-" then (-1, Str.drop 1 s)
    else (1, s) in
  let '(n, count, rest) := read_digits 0 0 (lstrip_space s) in
  match count, lstrip_space rest with
  | S _, EmptyString => Ok (sign * n)
  | _, _ => Raise (ValueError InvalidLiteralForInt)
  end.

(** [(age[:-1], age[-1])] of a non-empty string. *)
Fixpoint split_last (s : string) : option (string * ascii) :=
  match s with
  | EmptyString => None
  | String c EmptyString => Some (EmptyString, c)
  | String c r =>
      match split_last r with
      | Some (init, last) => Some (String c init, last)
      | None => None
      end
  end.

(** A [datetime] is the number of microseconds since 0001-01-01T00:00:00,
    the first representable instant; a [timedelta] is a number of
    microseconds. *)
Definition datetime : Type := Z.
Definition timedelta : Type := Z.

Definition us_per_second : Z := 1000000.
Definition us_per_day : Z := 86400 * us_per_second.

(** 1970-01-01 is day 719162 after 0001-01-01, and 9999-12-31, the last
    representable day, is day 3652058. *)
Definition epoch : datetime := 719162 * us_per_day.
Definition datetime_max : datetime := 3652059 * us_per_day - 1.

(** The constructor refuses more than 999999999 days either way. *)
Definition timedelta_new (us : Z) : result timedelta :=
  let days := us / us_per_day in
  if (days <? -999999999) || (999999999 <? days) then Raise OverflowError
  else Ok us.

Definition unit_us (last_char : ascii) : option Z :=
  if Ascii.eqb last_char "s" then Some us_per_second
  else if Ascii.eqb last_char "m" then Some (60 * us_per_second)
  else if Ascii.eqb last_char "h" then Some (3600 * us_per_second)
  else if Ascii.eqb last_char "d" then Some us_per_day
  else if Ascii.eqb last_char "w" then Some (7 * us_per_day)
  else None.

(** [from_time - interval] refuses a result outside years 1 to 9999. *)
Definition datetime_sub (t : datetime) (interval : timedelta) : result datetime :=
  let r := t - interval in
  if (r <? 0) || (datetime_max <? r) then Raise OverflowError else Ok r.

(** The integer nearest to [p / q], the even one of two that are equally
    near, for [0 <= p] and [0 < q]. *)
Definition round_half_even (p q : Z) : Z :=
  let f := p / q in
  let r := p mod q in
  if 2 * r <? q then f
  else if q <? 2 * r then f + 1
  else if Z.even f then f else f + 1.

(** The binary exponent of [a / d] for [0 < a] and [0 < d]: the [e] with
    [2 ^ e <= a / d < 2 ^ (e + 1)]. *)
Definition binary_exponent (a d : Z) : Z :=
  if d <=? a then Z.log2 (a / d) else - Z.log2_up ((d + a - 1) / a).

(** [int(a / d)] under true division, for [0 <= a] and [0 < d]: the
    quotient of two integers is the double nearest to it, a significand
    of 53 bits (ties to even) at the exponent of the quotient, and [int]
    cuts the fraction of the double.  The exponents that a double lacks
    are out of reach of the quotient of a [timedelta] by a million. *)
Definition true_divide_int (a d : Z) : Z :=
  let shift := 52 - binary_exponent a d in
  if 0 <=? shift then round_half_even (a * 2 ^ shift) d / 2 ^ shift
  else round_half_even a (d * 2 ^ (- shift)) * 2 ^ (- shift).

(** [int(td.total_seconds())]: [total_seconds] is the true division of
    the microseconds by [10**6], and [int] rounds toward zero. *)
Definition total_seconds_int (td : timedelta) : Z :=
  Z.sgn td * true_divide_int (Z.abs td) us_per_second.

(** [int((start - epoch).total_seconds())] *)
Definition epoch_seconds (start : datetime) : Z :=
  total_seconds_int (start - epoch).

(** The body of the [try] statement. *)
Definition age_body (age : string) (from_time : datetime) : result Z :=
  match split_last age with
  | None => Raise IndexError
  | Some (init, last_char) =>
      match unit_us last_char with
      | Some u =>
          n <- int init ;;
          interval <- timedelta_new (n * u) ;;
          start <- datetime_sub from_time interval ;;
          Ok (epoch_seconds start)
      | None => int age
      end
  end.

Definition age_to_create_time (age : option string) (from_time : datetime)
  : result (option Z) :=
  match age with
  | Some (String _ _ as age) =>
      match age_body age from_time with
      | Ok v => Ok (Some v)
      | Raise (ValueError _) | Raise OverflowError =>
          Raise (ValueError (UnableToParseAge age))
      | Raise e => Raise e
      end
  | _ => Ok None
  end.

End Age.

(** ** What the specification calls things *)

(** [sub] occurs somewhere in [s]. *)
Definition occurs (sub s : string) : Prop := exists a b, s = a ++ sub ++ b.

(** The failure conditions of the path policy check, as the specification
    lists them, on the (directory, filename) split of the URI. *)
Definition violates_path_policy (uri : string) (recursive : bool) : Prop :=
  let directory := fst (posixpath.split uri) in
  let filename := snd (posixpath.split uri) in
  (occurs "[" uri \/ occurs "]" uri)
  \/ occurs "?" uri
  \/ occurs "*" directory
  \/ occurs "**" filename
  \/ (filename = "." \/ filename = "..")
  \/ (recursive = false /\ filename = "").

(** Provider detection in the words of the specification: the scheme is a
    leading token of 1 to 30 characters among letters, digits, [+], [.]
    and [-] that is followed by [://]. *)
Definition spec_scheme (uri : string) : option string :=
  let '(tok, rest) := Re.span_scheme uri in
  if (1 <=? String.length tok)%nat && (String.length tok <=? 30)%nat
     && Str.startswith rest "://"
  then Some tok else None.

Definition spec_detect_provider (uri : string) : result provider :=
  match spec_scheme uri with
  | Some scheme =>
      if String.eqb scheme "gs" then Ok P_GCS
      else if String.eqb scheme "file" then Ok P_LOCAL
      else Raise (ValueError (FilePrefixNotSupported scheme))
  | None => Ok P_LOCAL
  end.

(** A scheme as the code recognises it: a letter, then at most 29
    characters among letters, digits, [+], [.] and [-]. *)
Definition is_scheme (t : string) : Prop :=
  match t with
  | EmptyString => False
  | String c tok =>
      Str.is_alpha c = true
      /\ Str.forallb Re.scheme_char tok = true
      /\ (String.length tok <= 29)%nat
  end.

(** The provider a scheme stands for, compared in lower case. *)
Definition provider_of_scheme (scheme : string) : result provider :=
  if String.eqb (Str.lower scheme) "gs" then Ok P_GCS
  else if String.eqb (Str.lower scheme) "file" then Ok P_LOCAL
  else Raise (ValueError (FilePrefixNotSupported (Str.lower scheme))).

(** The name the factory generates next, and the factory after it has
    generated one. *)
Definition auto_name (u : FileParamUtil) : string :=
  _auto_prefix u ++ Str.of_nat (_auto_index u).

Definition bump (u : FileParamUtil) : FileParamUtil :=
  mkUtil (param_class u) (_auto_prefix u) (S (_auto_index u)) (_relative_path u).

Definition bump_input (st : state) : state :=
  mkState (bump (input_file_param_util st)) (output_file_param_util st) (stderr st).

Definition bump_output (st : state) : state :=
  mkState (input_file_param_util st) (bump (output_file_param_util st)) (stderr st).

(** The single task of a command line that has just one file token, which
    became the parameter [p]. *)
Definition one_input (p : FileParam) : list task := [mkTask None [] [] [p] []].
Definition one_output (p : FileParam) : list task := [mkTask None [] [] [] [p]].

(** The key and the value of a token in the words of the specification:
    the token is cut at its first [=], and there is no value when it has
    no [=]. *)
Fixpoint token_key (token : string) : string :=
  match token with
  | EmptyString => EmptyString
  | String c r => if Ascii.eqb c "=" then EmptyString else String c (token_key r)
  end.

Fixpoint token_rest (token : string) : option string :=
  match token with
  | EmptyString => None
  | String c r => if Ascii.eqb c "=" then Some r else token_rest r
  end.

(** An env or label token always has its key; a file token always has
    its value, and a bare one has no key. *)
Definition key_first (token : string) : option string * option string :=
  (Some (token_key token), token_rest token).

Definition value_first (token : string) : option string * string :=
  match token_rest token with
  | Some value => (Some (token_key token), value)
  | None => (None, token)
  end.

(** The parameters of pairs that are already split. *)
Fixpoint params_of_pairs {A : Type}
         (argclass : option string -> option string -> result A)
         (pairs : list (option string * option string)) : result (list A) :=
  match pairs with
  | [] => Ok []
  | (name, value) :: rest =>
      a <- argclass name value ;;
      others <- params_of_pairs argclass rest ;;
      Ok (a :: others)
  end.

(** The file parameters of pairs that are already split, added to
    [data]: a pair without key is named by the factory. *)
Fixpoint files_of_pairs (get_name : option string -> M string)
         (make : string -> string -> bool -> M FileParam)
         (recursive : bool) (pairs : list (option string * string))
         (data : list FileParam) : M (list FileParam) :=
  match pairs with
  | [] => ret data
  | (name, value) :: rest =>
      name <~ get_name name ;;
      p <~ make name value recursive ;;
      files_of_pairs get_name make recursive rest (data ++ [p])
  end.

(** The single task of a command line whose tokens are already split. *)
Definition job_data_of_pairs (env : os_env)
           (envs labels : list (option string * option string))
           (inputs inputs_recursive outputs outputs_recursive
            : list (option string * string)) : M (list task) :=
  env_data <~ lift (params_of_pairs EnvParam_new envs) ;;
  label_data <~ lift (params_of_pairs LabelParam_new labels) ;;
  input_data <~ files_of_pairs input_get_variable_name (input_make_param env)
                  false inputs [] ;;
  input_data <~ files_of_pairs input_get_variable_name (input_make_param env)
                  true inputs_recursive input_data ;;
  output_data <~ files_of_pairs output_get_variable_name (output_make_param env)
                   false outputs [] ;;
  output_data <~ files_of_pairs output_get_variable_name (output_make_param env)
                   true outputs_recursive output_data ;;
  ret [mkTask None label_data env_data input_data output_data].

(** A process environment and the state before a compilation, for the
    worked examples. *)
Definition example_env : os_env := mkEnv (Some "/home/u") "/work".

Definition initial_state : state :=
  mkState (InputFileParamUtil "input") (OutputFileParamUtil "output") [].

(** The task number of a row as the reader yields it. *)
Definition task_number (numbered_row : Z * list string) : Z :=
  (fst numbered_row - 1)%Z.

(** The inclusive task filter of the specification. *)
Definition selected (task_min task_max : Z) (numbered_row : Z * list string) : bool :=
  (task_min <=? task_number numbered_row)%Z
  && (task_number numbered_row <=? task_max)%Z.

(** The table compiler run without a filter on the given numbered rows:
    each of them is compiled. *)
Definition tasks_of_rows (env : os_env) (header : csv_record)
           (rows : list (Z * list string)) : M (list task) :=
  job_params <~ parse_tasks_file_header (fields header) ;;
  job_data <~ compile_rows env job_params None None rows [] ;;
  match job_data with
  | [] => raise (ValueError NoTasksAdded)
  | _ => ret job_data
  end.

(** The task numbers from [task_min] upward, and those up to [task_max]. *)
Definition at_least (task_min : Z) (numbered_row : Z * list string) : bool :=
  (task_min <=? task_number numbered_row)%Z.

Definition at_most (task_max : Z) (numbered_row : Z * list string) : bool :=
  (task_number numbered_row <=? task_max)%Z.

(** Every one of the rows compiled, one after the other; a row that
    fails ends the run. *)
Fixpoint each_row (env : os_env) (job_params : list Param)
         (rows : list (Z * list string)) : M (list task) :=
  match rows with
  | [] => ret []
  | (line_num, row) :: rest =>
      t <~ compile_row env job_params line_num row ;;
      ts <~ each_row env job_params rest ;;
      ret (t :: ts)
  end.

(** The table made of the header and just these rows, each of which is
    compiled; a table without rows is refused. *)
Definition table_of_rows (env : os_env) (header : csv_record)
           (rows : list (Z * list string)) : M (list task) :=
  job_params <~ parse_tasks_file_header (fields header) ;;
  job_data <~ each_row env job_params rows ;;
  match job_data with
  | [] => raise (ValueError NoTasksAdded)
  | _ => ret job_data
  end.

(** The run ends with the error that no tasks were added. *)
Definition no_tasks_error {A : Type} (r : result A * state) : Prop :=
  exists st', r = (Raise (ValueError NoTasksAdded), st').

(** The result is not the error that no tasks were added. *)
Definition other_error {A : Type} (r : result A) : Prop :=
  match r with
  | Raise (ValueError NoTasksAdded) => False
  | _ => True
  end.

Definition other_errorM {A : Type} (m : M A) : Prop :=
  forall st, other_error (fst (m st)).

(** A job parameter whose column is read in every row: the header parser
    produces no other. *)
Definition reads_cell (p : Param) : Prop :=
  match p with
  | PFile f => fp_class f <> FileParamClass
  | _ => True
  end.

(** The run ends with an exception. *)
Definition raises {A : Type} (r : result A * state) : Prop :=
  exists e st', r = (Raise e, st').

(** A cell that a quoted field spreads over two lines. *)
Definition two_line_cell : string := "x" ++ String Re.newline "y".

(** The length in seconds of one unit of an age, for the units the
    specification names. *)
Definition unit_seconds (unit : ascii) : option Z :=
  if Ascii.eqb unit "s" then Some 1%Z
  else if Ascii.eqb unit "m" then Some 60%Z
  else if Ascii.eqb unit "h" then Some 3600%Z
  else if Ascii.eqb unit "d" then Some 86400%Z
  else if Ascii.eqb unit "w" then Some 604800%Z
  else None.

(** A time between the first instant of year 1 and the last of year 9999. *)
Definition valid_datetime (t : Age.datetime) : Prop :=
  (0 <= t <= Age.datetime_max)%Z.

(** The reference time moved back by [n] units of [secs] seconds. *)
Definition time_before (from_time : Age.datetime) (n secs : Z) : Age.datetime :=
  (from_time - n * secs * Age.us_per_second)%Z.

(** The whole seconds from the epoch to [t], counted toward zero. *)
Definition whole_seconds (t : Age.datetime) : Z :=
  Z.quot (t - Age.epoch) Age.us_per_second.

(** The value of a run of decimal digits. *)
Definition decimal_value (digits : string) : Z :=
  fold_left (fun acc c => (10 * acc + Age.digit_value c)%Z)
            (list_ascii_of_string digits) 0%Z.

(** The last slash of [u] is not directly preceded by another one: [u] is
    a directory that does not end in a slash, a slash, and a name without
    slashes. *)
Definition last_slash_single (u : string) : Prop :=
  exists d f, u = d ++ "/" ++ f
              /\ ~ occurs "/" f
              /\ ~ (exists p, d = p ++ "/").

From Stdlib Require Numbers.DecimalNat.

(** ** Submission validator *)

(** The error of [validate_submit_args_or_fail]: the kind of argument,
    the URI of the offending parameter and the name of the provider that
    are put into its message. *)
Record submit_error : Type := mkSubmitError {
  argname : string;
  error_path : option UriParts;
  provider_named : string
}.

Inductive submit_check : Type :=
  | Accepted
  | Refused (e : submit_error).

(** [p not in whitelist]; a parameter without provider is in no list. *)
Definition provider_in (p : option provider) (whitelist : list provider) : bool :=
  match p with
  | Some P_LOCAL => existsb (fun q => match q with P_LOCAL => true | _ => false end) whitelist
  | Some P_GCS => existsb (fun q => match q with P_GCS => true | _ => false end) whitelist
  | None => false
  end.

(** The loop [for fileparam in task.get(argtype, [])]. *)
Fixpoint check_file_params (argtype : string) (whitelist : list provider)
         (provider_name : string) (params : list FileParam) : submit_check :=
  match params with
  | [] => Accepted
  | fileparam :: rest =>
      if negb (provider_in (file_provider fileparam) whitelist)
      then Refused (mkSubmitError (Str.rstrip "s" argtype) (uri fileparam) provider_name)
      else check_file_params argtype whitelist provider_name rest
  end.

(** The loop over the tasks; a task is the record of the compilers, in
    which a key that a dictionary lacks is an empty list. *)
Fixpoint check_tasks (all_task_data : list task) (provider_name : string)
         (input_providers output_providers : list provider) : submit_check :=
  match all_task_data with
  | [] => Accepted
  | t :: rest =>
      match check_file_params "inputs" input_providers provider_name (inputs t) with
      | Refused e => Refused e
      | Accepted =>
          match check_file_params "outputs" output_providers provider_name (outputs t) with
          | Refused e => Refused e
          | Accepted => check_tasks rest provider_name input_providers output_providers
          end
      end
  end.

(** [job_resources] is read for its [logging] attribute only. *)
Definition validate_submit_args_or_fail (logging : LoggingParam)
           (all_task_data : list task) (provider_name : string)
           (input_providers output_providers logging_providers : list provider)
  : submit_check :=
  if negb (provider_in (log_file_provider logging) logging_providers)
  then Refused (mkSubmitError "logging" (log_uri logging) provider_name)
  else check_tasks all_task_data provider_name input_providers output_providers.

(** ** What the further properties speak of *)

(** The name is made of a letter or underscore and then letters, digits
    and underscores. *)
Definition posix_name (n : string) : Prop :=
  match n with
  | EmptyString => False
  | String c r => Re.name_start c = true /\ Str.forallb Re.name_char r = true
  end.

(** The text is a lowercase letter and then lowercase letters, digits,
    dashes and underscores. *)
Definition label_text (v : string) : Prop :=
  match v with
  | EmptyString => False
  | String c r => Str.is_lower c = true /\ Str.forallb Re.label_char r = true
  end.

(** The text with at most one line break added at its end. *)
Definition with_optional_newline (body s : string) : Prop :=
  s = body \/ s = body ++ String Re.newline "".

(** [k] calls of [get_variable_name] without a name, one after the other:
    the names they return and the factory after them. *)
Fixpoint anonymous_names (k : nat) (u : FileParamUtil) : list string * FileParamUtil :=
  match k with
  | O => ([], u)
  | S k' =>
      let '(n, u') := get_variable_name u None in
      let '(ns, u'') := anonymous_names k' u' in
      (n :: ns, u'')
  end.

(** The provider is set and is one of the whitelist. *)
Definition whitelisted (whitelist : list provider) (p : option provider) : Prop :=
  exists q, p = Some q /\ In q whitelist.

(** Every input and every output of the task has a whitelisted provider. *)
Definition task_whitelisted (input_providers output_providers : list provider)
           (t : task) : Prop :=
  Forall (fun p => whitelisted input_providers (file_provider p)) (inputs t)
  /\ Forall (fun p => whitelisted output_providers (file_provider p)) (outputs t).

(** The state with one more line on the error stream. *)
Definition with_message (st : state) (msg : string) : state :=
  mkState (input_file_param_util st) (output_file_param_util st) (stderr st ++ [msg]).

(** The records of a table in which each takes one line, from its rows. *)
Definition one_line_records (rows : list (list string)) : list csv_record :=
  map (fun row => mkRecord row 0) rows.

(** The task of a row of environment values under the given names. *)
Definition env_task (names : list string) (number : Z) (row : list string) : task :=
  mkTask (Some number) []
         (map (fun nv => mkEnvParam (fst nv) (Some (snd nv))) (combine names row))
         [] [].

(** The tasks of rows numbered from [first] upward. *)
Fixpoint env_tasks (names : list string) (first : Z) (rows : list (list string))
  : list task :=
  match rows with
  | [] => []
  | row :: rest => env_task names first row :: env_tasks names (first + 1)%Z rest
  end.

(** A component that [normpath] keeps: not empty, not a dot, not two. *)
Definition plain_component (c : string) : Prop := c <> "" /\ c <> "." /\ c <> "..".

(** The value half of a command-line token: the text after its first
    [=], or the whole token when it has none. *)
Definition token_value (token : string) : string :=
  match Str.split1 "=" token with
  | (_, Some value) => value
  | (whole, None) => whole
  end.

(** The job parameter of an environment column. *)
Definition env_column (name : string) : Param := PEnv (mkEnvParam name None).

(** The kinds of column the header knows. *)
Definition column_types : list string :=
  ["--env"; "--label"; "--input"; "--input-recursive"; "--output"; "--output-recursive"].

(** The directory of a local URI is under the home directory and what
    follows [~/] is relative: the one case in which the rewriter needs the
    [HOME] variable. *)
Definition needs_home (raw_uri : string) : bool :=
  let raw_path := fst (posixpath.split raw_uri) in
  Str.startswith raw_path "~/" && negb (Str.startswith (Str.drop 2 raw_path) "/").

(** * Properties *)

(** ** Facts about strings *)

Section StringFacts.

Lemma append_nil_r (s : string) : s ++ "" = s.
Proof. induction s as [|c s IH]; simpl; [reflexivity | now rewrite IH]. Qed.

Lemma append_assoc (a b c : string) : (a ++ b) ++ c = a ++ b ++ c.
Proof. induction a as [|x a IH]; simpl; [reflexivity | now rewrite IH]. Qed.

Lemma prefix_iff (p s : string) :
  String.prefix p s = true <-> exists b, s = p ++ b.
Proof.
  revert s; induction p as [|x p IH]; intros s.
  - destruct s; simpl; split; intros; eauto.
  - destruct s as [|y s]; simpl.
    + split; [discriminate | intros [b Hb]; discriminate].
    + destruct (ascii_dec x y) as [->|Hne].
      * rewrite IH. split; intros [b Hb]; exists b; congruence.
      * split; [discriminate | intros [b Hb]; congruence].
Qed.

Lemma prefix_app (p b : string) : String.prefix p (p ++ b) = true.
Proof. apply prefix_iff; eauto. Qed.

Lemma contains_unfold (sub s : string) :
  Str.contains sub s =
  String.prefix sub s
  || match s with EmptyString => false | String _ r => Str.contains sub r end.
Proof. destruct s; reflexivity. Qed.

Lemma contains_occurs (sub s : string) :
  Str.contains sub s = true <-> occurs sub s.
Proof.
  split.
  - induction s as [|c s IH]; rewrite contains_unfold; intros H.
    + rewrite orb_false_r in H. apply prefix_iff in H as [b ->].
      exists "", b. reflexivity.
    + apply orb_true_iff in H as [H|H].
      * apply prefix_iff in H as [b ->]. exists "", b. reflexivity.
      * destruct (IH H) as (a & b & ->). exists (String c a), b. reflexivity.
  - intros (a & b & ->). induction a as [|c a IH].
    + rewrite contains_unfold. simpl append. now rewrite prefix_app.
    + rewrite contains_unfold. simpl. rewrite IH. apply orb_true_r.
Qed.

Lemma contains_false_iff (sub s : string) :
  Str.contains sub s = false <-> ~ occurs sub s.
Proof.
  rewrite <- contains_occurs. destruct (Str.contains sub s); split; intros; easy.
Qed.

End StringFacts.

(** ** Path policy *)

(** C5. The path policy check fails if and only if the URI shows one of
    the patterns the specification lists (a square bracket or a question
    mark anywhere, an asterisk in the directory, two asterisks in the file
    name, a file name that is a dot or two dots, or an empty file name on
    a reference that is not recursive); a URI showing none of them passes. *)
Theorem validate_paths_fails_iff (uri : string) (recursive : bool) :
  ((exists e, _validate_paths_or_fail uri recursive = Raise (ValueError e))
   <-> violates_path_policy uri recursive)
  /\ (~ violates_path_policy uri recursive ->
      _validate_paths_or_fail uri recursive = Ok tt).
Proof.
  unfold violates_path_policy, _validate_paths_or_fail.
  destruct (posixpath.split uri) as [directory filename]; cbn [fst snd].
  rewrite <- !contains_occurs.
  destruct (Str.contains "[" uri) eqn:E1; cbn [orb].
  { split; [split; eauto | intros H; exfalso; apply H; auto]. }
  destruct (Str.contains "]" uri) eqn:E2.
  { split; [split; eauto | intros H; exfalso; apply H; auto]. }
  destruct (Str.contains "?" uri) eqn:E3.
  { split; [split; eauto | intros H; exfalso; apply H; auto]. }
  destruct (Str.contains "*" directory) eqn:E4.
  { split; [split; eauto | intros H; exfalso; apply H; auto]. }
  destruct (Str.contains "**" filename) eqn:E5.
  { split; [split; eauto 6 | intros H; exfalso; apply H; auto 6]. }
  destruct (String.eqb_spec filename "..") as [->|N1]; cbn [orb].
  { split; [split; eauto 8 | intros H; exfalso; apply H; auto 8]. }
  destruct (String.eqb_spec filename ".") as [->|N2].
  { split; [split; eauto 8 | intros H; exfalso; apply H; auto 8]. }
  destruct recursive; cbn [negb andb].
  - split; [split | reflexivity].
    + intros [e He]; discriminate.
    + intros H. repeat (destruct H as [H|H]); try discriminate; try contradiction.
      destruct H; discriminate.
  - destruct filename as [|c f]; cbn [Str.nonempty negb].
    + split; [split; eauto 8 | intros H; exfalso; apply H; auto 8].
    + split; [split | reflexivity].
      * intros [e He]; discriminate.
      * intros H. repeat (destruct H as [H|H]); try discriminate; try contradiction.
        destruct H; discriminate.
Qed.

(** ** Provider detection *)

Lemma span_scheme_app (tok rest : string) :
  Str.forallb Re.scheme_char tok = true ->
  Re.span_scheme (tok ++ "://" ++ rest) = (tok, "://" ++ rest).
Proof.
  induction tok as [|c tok IH]; intros H.
  - reflexivity.
  - cbn [Str.forallb] in H. apply andb_true_iff in H as [Hc Ht].
    change (String c tok ++ "://" ++ rest) with (String c (tok ++ "://" ++ rest)).
    cbn [Re.span_scheme]. rewrite Hc, (IH Ht). reflexivity.
Qed.

Lemma span_scheme_decomp (s tok rest : string) :
  Re.span_scheme s = (tok, rest) ->
  s = tok ++ rest /\ Str.forallb Re.scheme_char tok = true.
Proof.
  revert tok rest; induction s as [|c s IH]; intros tok rest H.
  - injection H as <- <-. split; reflexivity.
  - cbn [Re.span_scheme] in H. destruct (Re.scheme_char c) eqn:Hc.
    + destruct (Re.span_scheme s) as [tok' rest'] eqn:E.
      injection H as <- <-. destruct (IH _ _ eq_refl) as [-> Hall].
      split; [reflexivity | cbn [Str.forallb]; now rewrite Hc, Hall].
    + injection H as <- <-. split; reflexivity.
Qed.

Lemma match_scheme_of_scheme (sch rest : string) :
  is_scheme sch -> Re.match_scheme (sch ++ "://" ++ rest) = Some sch.
Proof.
  destruct sch as [|c tok]; [contradiction|].
  intros (Hc & Htok & Hlen).
  change (String c tok ++ "://" ++ rest) with (String c (tok ++ "://" ++ rest)).
  cbn [Re.match_scheme]. rewrite Hc, (span_scheme_app _ _ Htok).
  apply Nat.leb_le in Hlen. rewrite Hlen. cbn [andb].
  unfold Str.startswith. now rewrite prefix_app.
Qed.

Lemma match_scheme_some (uri g : string) :
  Re.match_scheme uri = Some g ->
  is_scheme g /\ exists rest, uri = g ++ "://" ++ rest.
Proof.
  destruct uri as [|c r]; [discriminate|].
  cbn [Re.match_scheme]. destruct (Str.is_alpha c) eqn:Hc; [|discriminate].
  destruct (Re.span_scheme r) as [tok rest] eqn:E.
  destruct (String.length tok <=? 29)%nat eqn:Hlen; [|discriminate].
  cbn [andb]. destruct (Str.startswith rest "://") eqn:Hp; [|discriminate].
  intros H; injection H as <-.
  apply span_scheme_decomp in E as [-> Hall].
  apply Nat.leb_le in Hlen. apply prefix_iff in Hp as [b ->].
  split; [cbn; auto | exists b; reflexivity].
Qed.

(** C6, as amended.  When the URI begins with a scheme (a letter followed
    by at most 29 letters, digits, plus, dot or minus signs) and [://],
    the scheme in lower case decides: [gs] is cloud object storage, [file]
    is local, any other scheme is refused as an unsupported prefix; a URI
    that does not begin so is local. *)
Theorem parse_file_provider_by_scheme :
  (forall scheme rest,
      is_scheme scheme ->
      parse_file_provider (scheme ++ "://" ++ rest) = provider_of_scheme scheme)
  /\ (forall uri,
         (forall scheme rest, is_scheme scheme -> uri <> scheme ++ "://" ++ rest) ->
         parse_file_provider uri = Ok P_LOCAL).
Proof.
  split.
  - intros scheme rest H. unfold parse_file_provider, provider_of_scheme.
    now rewrite (match_scheme_of_scheme _ rest H).
  - intros uri H. unfold parse_file_provider.
    destruct (Re.match_scheme uri) as [g|] eqn:E; [|reflexivity].
    apply match_scheme_some in E as [Hg [rest ->]].
    exfalso; exact (H g rest Hg eq_refl).
Qed.

Lemma parse_file_provider_by_scheme_witness :
  parse_file_provider "GS://bucket/x" = Ok P_GCS
  /\ parse_file_provider "/tmp/x" = Ok P_LOCAL.
Proof.
  split.
  - apply (proj1 parse_file_provider_by_scheme "GS" "bucket/x").
    cbn. repeat split. lia.
  - apply (proj2 parse_file_provider_by_scheme "/tmp/x").
    intros scheme rest H E. destruct scheme as [|c tok]; [exact H|].
    injection E as <- _. destruct H as [H _]. discriminate H.
Defined.

(** C6 as stated fails: a token that starts with a digit is a scheme for
    the specification, which refuses it, and no scheme for the code, which
    takes the URI for a local path. *)
Lemma parse_file_provider_digit_scheme :
  spec_detect_provider "1a://x" = Raise (ValueError (FilePrefixNotSupported "1a"))
  /\ parse_file_provider "1a://x" = Ok P_LOCAL.
Proof. split; reflexivity. Qed.

(** ** Logging parameter *)

Lemma endswith_unfold (s suf : string) :
  Str.endswith s suf =
  String.eqb s suf
  || match s with EmptyString => false | String _ r => Str.endswith r suf end.
Proof. destruct s; reflexivity. Qed.

Lemma endswith_iff (s suf : string) :
  Str.endswith s suf = true <-> exists p, s = p ++ suf.
Proof.
  split.
  - induction s as [|c s IH]; rewrite endswith_unfold; intros H.
    + rewrite orb_false_r in H. apply String.eqb_eq in H as <-. now exists "".
    + apply orb_true_iff in H as [H|H].
      * apply String.eqb_eq in H as <-. now exists "".
      * destruct (IH H) as [p ->]. now exists (String c p).
  - intros [p ->]. induction p as [|c p IH]; rewrite endswith_unfold.
    + cbn [append]. now rewrite String.eqb_refl.
    + cbn [append]. rewrite IH. apply orb_true_r.
Qed.

(** C7. Without a logging URI ([None] or the empty string) the logging
    parameter has neither URI nor provider.  Otherwise the URI is resolved
    as not recursive exactly when it ends in [.log], a failure of the
    resolution is the failure of the call, a resolved base name with an
    asterisk is refused, and any other resolution is returned with its
    provider. *)
Theorem build_logging_param_cases (env : os_env)
        (util_class : string -> FileParamUtil) :
  build_logging_param env None util_class = Ok (mkLoggingParam None None)
  /\ build_logging_param env (Some "") util_class = Ok (mkLoggingParam None None)
  /\ forall logging_uri rec,
      logging_uri <> "" ->
      (rec = false <-> exists p, logging_uri = p ++ ".log") ->
      match parse_uri (util_class "") env logging_uri rec with
      | Raise e => build_logging_param env (Some logging_uri) util_class = Raise e
      | Ok (_, parts, prov) =>
          (occurs "*" (basename parts) ->
           build_logging_param env (Some logging_uri) util_class
           = Raise (ValueError WildcardInLoggingURI))
          /\ (~ occurs "*" (basename parts) ->
              build_logging_param env (Some logging_uri) util_class
              = Ok (mkLoggingParam (Some parts) (Some prov)))
      end.
Proof.
  split; [reflexivity | split; [reflexivity |]].
  intros logging_uri rec Hne Hrec.
  assert (rec = negb (Str.endswith logging_uri ".log")) as ->.
  { rewrite <- endswith_iff in Hrec.
    destruct rec, (Str.endswith logging_uri ".log"); try reflexivity.
    - destruct Hrec as [_ H]. now specialize (H eq_refl).
    - destruct Hrec as [H _]. now specialize (H eq_refl). }
  destruct logging_uri as [|c r]; [contradiction|].
  unfold build_logging_param.
  destruct (parse_uri (util_class "") env (String c r)
              (negb (Str.endswith (String c r) ".log"))) as [[[d parts] prov]|e];
    cbn [bind]; [|reflexivity].
  rewrite <- contains_occurs.
  destruct (Str.contains "*" (basename parts)); split; intros H;
    try reflexivity; try discriminate; now exfalso.
Qed.

Lemma build_logging_param_cases_witness :
  build_logging_param (mkEnv (Some "/home/u") "/work") (Some "gs://b/logs/*.log")
                      OutputFileParamUtil
  = Raise (ValueError WildcardInLoggingURI).
Proof.
  pose proof (proj2 (proj2 (build_logging_param_cases
                              (mkEnv (Some "/home/u") "/work") OutputFileParamUtil))
                "gs://b/logs/*.log" false) as H.
  assert ("gs://b/logs/*.log" <> "") as Hne by discriminate.
  assert (false = false <-> exists p, "gs://b/logs/*.log" = p ++ ".log") as Hrec.
  { split; [intros _; now exists "gs://b/logs/*" | reflexivity]. }
  specialize (H Hne Hrec). vm_compute in H.
  apply (proj1 H). now exists "", ".log".
Defined.

(** ** Command-line tokens *)

Lemma char_in_occurs (c : ascii) (s : string) :
  Str.char_in c s = true <-> occurs (String c "") s.
Proof.
  split.
  - induction s as [|x s IH]; cbn [Str.char_in]; [discriminate|].
    intros H. apply orb_true_iff in H as [H|H].
    + apply Ascii.eqb_eq in H as ->. now exists "", s.
    + destruct (IH H) as (a & b & ->). now exists (String x a), b.
  - intros (a & b & ->). induction a as [|x a IH]; simpl in *.
    + now rewrite Ascii.eqb_refl.
    + rewrite IH. apply orb_true_r.
Qed.

Lemma not_occurs_char (c : ascii) (s : string) :
  ~ occurs (String c "") s -> Str.char_in c s = false.
Proof.
  intros H. destruct (Str.char_in c s) eqn:E; [|reflexivity].
  exfalso. apply H. now apply char_in_occurs.
Qed.

(** [split1] at a separator of one character. *)
Lemma split1_char_cons (sep c : ascii) (r : string) :
  Str.split1 (String sep "") (String c r)
  = if Ascii.eqb c sep then ("", Some r)
    else let '(h, t) := Str.split1 (String sep "") r in (String c h, t).
Proof.
  cbn [Str.split1 String.prefix String.length Str.drop].
  destruct (ascii_dec sep c) as [<-|N].
  - rewrite Ascii.eqb_refl. destruct r; reflexivity.
  - replace (Ascii.eqb c sep) with false; [reflexivity|].
    symmetry. apply Ascii.eqb_neq. congruence.
Qed.

Lemma split1_first (sep : ascii) (key value : string) :
  Str.char_in sep key = false ->
  Str.split1 (String sep "") (key ++ String sep value) = (key, Some value).
Proof.
  induction key as [|c key IH]; cbn [append Str.char_in]; intros H.
  - rewrite split1_char_cons. now rewrite Ascii.eqb_refl.
  - apply orb_false_iff in H as [Hc Hk]. rewrite split1_char_cons.
    rewrite Ascii.eqb_sym in Hc. now rewrite Hc, (IH Hk).
Qed.

Lemma split1_absent (sep : ascii) (s : string) :
  Str.char_in sep s = false -> Str.split1 (String sep "") s = (s, None).
Proof.
  induction s as [|c s IH]; cbn [Str.char_in]; [reflexivity|].
  intros H. apply orb_false_iff in H as [Hc Hk]. rewrite split1_char_cons.
  rewrite Ascii.eqb_sym in Hc. now rewrite Hc, (IH Hk).
Qed.

Lemma split_pair_first (key value : string) (idx : Z) :
  ~ occurs "=" key ->
  split_pair (key ++ "=" ++ value) "=" idx = Ok (Some key, Some value).
Proof.
  intros H. unfold split_pair.
  change (key ++ "=" ++ value) with (key ++ String "=" value).
  now rewrite (split1_first _ _ _ (not_occurs_char _ _ H)).
Qed.

Lemma split_pair_absent (token : string) :
  ~ occurs "=" token ->
  split_pair token "=" 1 = Ok (Some token, None)
  /\ split_pair token "=" 0 = Ok (None, Some token).
Proof.
  intros H. unfold split_pair.
  now rewrite (split1_absent _ _ (not_occurs_char _ _ H)).
Qed.

Lemma file_args_bare (get_name : option string -> M string)
      (make : string -> string -> bool -> M FileParam)
      (rec : bool) (token : string) (rest : list string)
      (data : list FileParam) (st : state) :
  ~ occurs "=" token ->
  file_args get_name make rec (token :: rest) data st
  = (name <~ get_name None ;;
     p <~ make name token rec ;;
     file_args get_name make rec rest (data ++ [p])) st.
Proof.
  intros H. cbn [file_args]. unfold bindM at 1, lift.
  now rewrite (proj2 (split_pair_absent _ H)).
Qed.

Lemma input_args_bare (env : os_env) (rec : bool) (token : string)
      (data : list FileParam) (st : state) :
  ~ occurs "=" token ->
  file_args input_get_variable_name (input_make_param env) rec [token] data st
  = (p <- make_param (bump (input_file_param_util st)) env
            (auto_name (input_file_param_util st)) token rec ;;
     Ok (data ++ [p])%list, bump_input st).
Proof.
  intros H. rewrite (file_args_bare _ _ _ _ _ _ _ H).
  unfold bindM, input_get_variable_name, input_make_param, get_variable_name.
  cbn [fst snd input_file_param_util output_file_param_util stderr].
  fold (bump (input_file_param_util st)). fold (auto_name (input_file_param_util st)).
  fold (bump_input st).
  destruct (make_param _ env _ token rec); reflexivity.
Qed.


Lemma file_args_nil (get_name : option string -> M string)
      (make : string -> string -> bool -> M FileParam)
      (rec : bool) (data : list FileParam) (st : state) :
  file_args get_name make rec [] data st = (Ok data, st).
Proof. reflexivity. Qed.

Lemma output_args_bare (env : os_env) (rec : bool) (token : string)
      (data : list FileParam) (st : state) :
  ~ occurs "=" token ->
  file_args output_get_variable_name (output_make_param env) rec [token] data st
  = (p <- make_param (bump (output_file_param_util st)) env
            (auto_name (output_file_param_util st)) token rec ;;
     Ok (data ++ [p])%list, bump_output st).
Proof.
  intros H. rewrite (file_args_bare _ _ _ _ _ _ _ H).
  unfold bindM, output_get_variable_name, output_make_param, get_variable_name.
  cbn [fst snd input_file_param_util output_file_param_util stderr].
  fold (bump (output_file_param_util st)). fold (auto_name (output_file_param_util st)).
  fold (bump_output st).
  destruct (make_param _ env _ token rec); reflexivity.
Qed.

(** The cut of the specification is the split of the code. *)
Lemma split1_token (token : string) :
  Str.split1 "=" token = (token_key token, token_rest token).
Proof.
  induction token as [|c token IH]; [reflexivity|].
  rewrite split1_char_cons. cbn [token_key token_rest].
  destruct (Ascii.eqb c "="); [reflexivity | now rewrite IH].
Qed.

Lemma token_key_whole (token : string) :
  token_rest token = None -> token_key token = token.
Proof.
  induction token as [|c token IH]; [reflexivity|]. cbn [token_key token_rest].
  destruct (Ascii.eqb c "="); [discriminate|]. intros H. now rewrite (IH H).
Qed.

Lemma split_pair_key_first (token : string) :
  split_pair token "=" 1 = Ok (key_first token).
Proof.
  unfold split_pair, key_first. rewrite split1_token.
  destruct (token_rest token); reflexivity.
Qed.

Lemma split_pair_value_first (token : string) :
  split_pair token "=" 0
  = Ok (fst (value_first token), Some (snd (value_first token))).
Proof.
  unfold split_pair, value_first. rewrite split1_token.
  destruct (token_rest token) eqn:E; cbn [fst snd Z.eqb]; [reflexivity|].
  now rewrite (token_key_whole _ E).
Qed.

Lemma parse_pair_args_pairs {A : Type}
      (argclass : option string -> option string -> result A)
      (tokens : list string) :
  parse_pair_args tokens argclass = params_of_pairs argclass (map key_first tokens).
Proof.
  induction tokens as [|token tokens IH]; [reflexivity|].
  cbn [parse_pair_args map params_of_pairs]. rewrite split_pair_key_first, IH.
  cbn [bind]. destruct (key_first token). reflexivity.
Qed.

Lemma file_args_pairs (get_name : option string -> M string)
      (make : string -> string -> bool -> M FileParam)
      (rec : bool) (tokens : list string) :
  forall data st,
    file_args get_name make rec tokens data st
    = files_of_pairs get_name make rec (map value_first tokens) data st.
Proof.
  induction tokens as [|token tokens IH]; intros data st; [reflexivity|].
  cbn [file_args map files_of_pairs]. rewrite split_pair_value_first.
  destruct (value_first token) as [name value]. cbn [fst snd].
  unfold bindM, lift.
  destruct (get_name name st) as [[n|e] st1]; [|reflexivity].
  destruct (make n value rec st1) as [[p|e] st2]; [|reflexivity].
  apply IH.
Qed.

Lemma args_to_job_data_pairs (env : os_env)
      (envs labels inputs inputs_recursive outputs outputs_recursive : list string)
      (st : state) :
  args_to_job_data env envs labels inputs inputs_recursive outputs
    outputs_recursive st
  = job_data_of_pairs env (map key_first envs) (map key_first labels)
      (map value_first inputs) (map value_first inputs_recursive)
      (map value_first outputs) (map value_first outputs_recursive) st.
Proof.
  unfold args_to_job_data, job_data_of_pairs.
  rewrite !parse_pair_args_pairs. unfold bindM, lift.
  destruct (params_of_pairs EnvParam_new _) as [env_data|e]; [|reflexivity].
  destruct (params_of_pairs LabelParam_new _) as [label_data|e]; [|reflexivity].
  rewrite file_args_pairs.
  destruct (files_of_pairs _ _ false (map value_first inputs) [] st)
    as [[d1|e] st1]; [|reflexivity].
  rewrite file_args_pairs.
  destruct (files_of_pairs _ _ true (map value_first inputs_recursive) d1 st1)
    as [[d2|e] st2]; [|reflexivity].
  rewrite file_args_pairs.
  destruct (files_of_pairs _ _ false (map value_first outputs) [] st2)
    as [[d3|e] st3]; [|reflexivity].
  rewrite file_args_pairs.
  destruct (files_of_pairs _ _ true (map value_first outputs_recursive) d3 st3)
    as [[d4|e] st4]; reflexivity.
Qed.

Lemma token_with_value (key value : string) :
  ~ occurs "=" key ->
  token_key (key ++ "=" ++ value) = key
  /\ token_rest (key ++ "=" ++ value) = Some value.
Proof.
  intros H. change (key ++ "=" ++ value) with (key ++ String "=" value).
  pose proof (split1_token (key ++ String "=" value)) as E.
  rewrite (split1_first _ _ _ (not_occurs_char _ _ H)) in E.
  now injection E as <- <-.
Qed.

Lemma token_without_value (token : string) :
  ~ occurs "=" token -> token_key token = token /\ token_rest token = None.
Proof.
  intros H. pose proof (split1_token token) as E.
  rewrite (split1_absent _ _ (not_occurs_char _ _ H)) in E.
  now injection E as <- <-.
Qed.

Lemma state_eta (st : state) :
  mkState (input_file_param_util st) (output_file_param_util st) (stderr st) = st.
Proof. now destruct st. Qed.

Lemma file_args_named (env : os_env) (rec : bool) (c : ascii) (key value : string)
      (data : list FileParam) (st : state) :
  ~ occurs "=" (String c key) ->
  file_args input_get_variable_name (input_make_param env) rec
    [String c key ++ "=" ++ value] data st
  = (p <- make_param (input_file_param_util st) env (String c key) value rec ;;
     Ok (data ++ [p])%list, st)
  /\ file_args output_get_variable_name (output_make_param env) rec
       [String c key ++ "=" ++ value] data st
     = (p <- make_param (output_file_param_util st) env (String c key) value rec ;;
        Ok (data ++ [p])%list, st).
Proof.
  intros H. rewrite !file_args_pairs. cbn [map files_of_pairs]. unfold value_first.
  destruct (token_with_value _ value H) as [-> ->].
  unfold bindM, input_get_variable_name, output_get_variable_name,
    input_make_param, output_make_param, ret.
  cbn [get_variable_name]. rewrite state_eta.
  split; destruct (make_param _ env (String c key) value rec); reflexivity.
Qed.

(** C8. A token is split at its first [=] only, whatever its place in
    its list: the command line compiles as its tokens cut at their first
    [=] do, an env or label token giving its key and the value when there
    is one, a file token giving its value and the key when there is one.
    Without [=], an env or label token is the name and has no value, and
    a file token (input, recursive input, output, recursive output) is
    the value and has no name, so that the factory of its role names it
    and advances its counter; with [=], the text before the first [=] is
    the name and all that follows it the value, and a file token with a
    name leaves the counter alone. *)
Theorem args_tokens_split_once (env : os_env) (st : state) :
  (forall key value idx,
      ~ occurs "=" key ->
      split_pair (key ++ "=" ++ value) "=" idx = Ok (Some key, Some value))
  /\ (forall token,
         ~ occurs "=" token ->
         args_to_job_data env [token] [] [] [] [] [] st
         = (p <- EnvParam_new (Some token) None ;;
            Ok [mkTask None [] [p] [] []], st)
         /\ args_to_job_data env [] [token] [] [] [] [] st
            = (p <- LabelParam_new (Some token) None ;;
               Ok [mkTask None [p] [] [] []], st))
  /\ (forall (token : string) (rec : bool),
         ~ occurs "=" token ->
         args_to_job_data env [] []
           (if rec then [] else [token]) (if rec then [token] else []) [] [] st
         = (p <- make_param (bump (input_file_param_util st)) env
                   (auto_name (input_file_param_util st)) token rec ;;
            Ok (one_input p), bump_input st)
         /\ args_to_job_data env [] [] [] []
              (if rec then [] else [token]) (if rec then [token] else []) st
            = (p <- make_param (bump (output_file_param_util st)) env
                      (auto_name (output_file_param_util st)) token rec ;;
               Ok (one_output p), bump_output st))
  /\ (forall key value,
         ~ occurs "=" key ->
         args_to_job_data env [key ++ "=" ++ value] [] [] [] [] [] st
         = (p <- EnvParam_new (Some key) (Some value) ;;
            Ok [mkTask None [] [p] [] []], st)
         /\ args_to_job_data env [] [key ++ "=" ++ value] [] [] [] [] st
            = (p <- LabelParam_new (Some key) (Some value) ;;
               Ok [mkTask None [p] [] [] []], st))
  /\ (forall (key value : string) (rec : bool),
         ~ occurs "=" key ->
         key <> "" ->
         args_to_job_data env [] []
           (if rec then [] else [key ++ "=" ++ value])
           (if rec then [key ++ "=" ++ value] else []) [] [] st
         = (p <- make_param (input_file_param_util st) env key value rec ;;
            Ok (one_input p), st)
         /\ args_to_job_data env [] [] [] []
              (if rec then [] else [key ++ "=" ++ value])
              (if rec then [key ++ "=" ++ value] else []) st
            = (p <- make_param (output_file_param_util st) env key value rec ;;
               Ok (one_output p), st))
  /\ (forall envs labels inputs inputs_recursive outputs outputs_recursive,
         args_to_job_data env envs labels inputs inputs_recursive outputs
           outputs_recursive st
         = job_data_of_pairs env (map key_first envs) (map key_first labels)
             (map value_first inputs) (map value_first inputs_recursive)
             (map value_first outputs) (map value_first outputs_recursive) st)
  /\ (forall key value,
         ~ occurs "=" key ->
         key_first (key ++ "=" ++ value) = (Some key, Some value)
         /\ value_first (key ++ "=" ++ value) = (Some key, value))
  /\ (forall token,
         ~ occurs "=" token ->
         key_first token = (Some token, None)
         /\ value_first token = (None, token)).
Proof.
  split; [intros; now apply split_pair_first|].
  split.
  { intros token H. destruct (split_pair_absent _ H) as [H1 _].
    unfold args_to_job_data, parse_pair_args. rewrite H1. cbn [bind].
    split.
    + unfold bindM at 1, lift.
      destruct (EnvParam_new (Some token) None); reflexivity.
    + unfold bindM at 1, lift. cbn [bind]. unfold bindM at 1.
      destruct (LabelParam_new (Some token) None); reflexivity. }
  split.
  { intros token rec H. unfold args_to_job_data.
    cbn [parse_pair_args]. unfold lift. split.
    + unfold bindM at 1 2. destruct rec; cbv iota.
      * unfold bindM at 1. rewrite file_args_nil. unfold bindM at 1.
        rewrite (input_args_bare env true token [] st H).
        destruct (make_param _ env _ token true); reflexivity.
      * unfold bindM at 1. rewrite (input_args_bare env false token [] st H).
        destruct (make_param _ env _ token false); reflexivity.
    + unfold bindM at 1 2. unfold bindM at 1. rewrite file_args_nil.
      unfold bindM at 1. rewrite file_args_nil. destruct rec; cbv iota.
      * unfold bindM at 1. rewrite file_args_nil. unfold bindM at 1.
        rewrite (output_args_bare env true token [] st H).
        destruct (make_param _ env _ token true); reflexivity.
      * unfold bindM at 1. rewrite (output_args_bare env false token [] st H).
        destruct (make_param _ env _ token false); reflexivity. }
  split.
  { intros key value H. pose proof (split_pair_first key value 1 H) as H1.
    unfold args_to_job_data, parse_pair_args. rewrite H1. cbn [bind].
    split.
    + unfold bindM at 1, lift.
      destruct (EnvParam_new (Some key) (Some value)); reflexivity.
    + unfold bindM at 1, lift. cbn [bind]. unfold bindM at 1.
      destruct (LabelParam_new (Some key) (Some value)); reflexivity. }
  split.
  { intros key value rec H Hkey. destruct key as [|c key]; [contradiction|].
    unfold args_to_job_data. cbn [parse_pair_args]. unfold lift.
    destruct (file_args_named env rec c key value [] st H) as [Hin Hout].
    split.
    + clear Hout. unfold bindM at 1 2. destruct rec; cbv iota.
      * unfold bindM at 1. rewrite file_args_nil. unfold bindM at 1.
        rewrite Hin. clear Hin.
        destruct (make_param _ env _ value true); reflexivity.
      * unfold bindM at 1. rewrite Hin. clear Hin.
        destruct (make_param _ env _ value false); reflexivity.
    + clear Hin. unfold bindM at 1 2. unfold bindM at 1. rewrite file_args_nil.
      unfold bindM at 1. rewrite file_args_nil. destruct rec; cbv iota.
      * unfold bindM at 1. rewrite file_args_nil. unfold bindM at 1.
        rewrite Hout. clear Hout.
        destruct (make_param _ env _ value true); reflexivity.
      * unfold bindM at 1. rewrite Hout. clear Hout.
        destruct (make_param _ env _ value false); reflexivity. }
  split; [intros; apply args_to_job_data_pairs|].
  split.
  - intros key value H. unfold key_first, value_first.
    now destruct (token_with_value key value H) as [-> ->].
  - intros token H. unfold key_first, value_first.
    now destruct (token_without_value token H) as [-> ->].
Qed.

Lemma args_tokens_split_once_witness :
  split_pair "A=b=c" "=" 1 = Ok (Some "A", Some "b=c")
  /\ args_to_job_data example_env ["A"] [] [] [] [] [] initial_state
     = (Ok [mkTask None [] [mkEnvParam "A" None] [] []], initial_state)
  /\ args_to_job_data example_env [] [] ["gs://b/x"] [] [] [] initial_state
     = (Ok (one_input
              (mkFileParam InputFileParamClass "INPUT_0" (Some "gs://b/x")
                 (Some "input/gs/b/x") (Some (mkUriParts "gs://b/" "x"))
                 false (Some P_GCS))),
        bump_input initial_state)
  /\ args_to_job_data example_env ["A=b=c"] [] [] [] [] [] initial_state
     = (Ok [mkTask None [] [mkEnvParam "A" (Some "b=c")] [] []], initial_state)
  /\ args_to_job_data example_env [] [] [] [] ["OUT=gs://b/x=y"] [] initial_state
     = (Ok (one_output
              (mkFileParam OutputFileParamClass "OUT" (Some "gs://b/x=y")
                 (Some "output/gs/b/x=y") (Some (mkUriParts "gs://b/" "x=y"))
                 false (Some P_GCS))),
        initial_state).
Proof.
  pose proof (args_tokens_split_once example_env initial_state)
    as (H1 & H2 & H3 & H4 & H5 & _).
  split; [|split; [|split; [|split]]].
  - apply (H1 "A" "b=c" 1%Z). apply contains_false_iff. reflexivity.
  - apply (H2 "A"). apply contains_false_iff. reflexivity.
  - apply (H3 "gs://b/x" false). apply contains_false_iff. reflexivity.
  - apply (H4 "A" "b=c"). apply contains_false_iff. reflexivity.
  - apply (H5 "OUT" "gs://b/x=y" false);
      [apply contains_false_iff; reflexivity | discriminate].
Defined.

(** ** Task table: numbering and the task filter *)

Lemma read_records_gt (line_num : Z) (records : list csv_record)
      (numbered_row : Z * list string) :
  In numbered_row (read_records line_num records) ->
  (line_num < fst numbered_row)%Z.
Proof.
  revert line_num; induction records as [|r records IH]; intros line_num H.
  - destruct H.
  - cbn [read_records] in H. destruct H as [<-|H].
    + cbn [fst]. lia.
    + apply IH in H. lia.
Qed.

(** Two filters that agree on every row of the table compile it alike. *)
Lemma compile_rows_ext (env : os_env) (job_params : list Param)
      (min1 max1 min2 max2 : option Z) (rows : list (Z * list string)) :
  (forall r, In r rows ->
             below_min min1 (task_number r) = below_min min2 (task_number r)
             /\ above_max max1 (task_number r) = above_max max2 (task_number r)) ->
  forall job_data st,
    compile_rows env job_params min1 max1 rows job_data st
    = compile_rows env job_params min2 max2 rows job_data st.
Proof.
  induction rows as [|[line_num row] rows IH]; intros H job_data st.
  - reflexivity.
  - cbn [compile_rows].
    destruct (H (line_num, row) (or_introl eq_refl)) as [Hmin Hmax].
    unfold task_number in Hmin, Hmax; cbn [fst] in Hmin, Hmax.
    rewrite Hmin, Hmax.
    assert (IH' := IH (fun r Hr => H r (or_intror Hr))).
    destruct (below_min min2 (line_num - 1)); [apply IH'|].
    destruct (above_max max2 (line_num - 1)); [apply IH'|].
    unfold bindM. destruct (compile_row env job_params line_num row st) as [[t|e] st'].
    + apply IH'.
    + reflexivity.
Qed.

Lemma tasks_file_filter_ext (env : os_env) (p1 p2 : string)
      (min1 max1 min2 max2 : option Z) (records : list csv_record) (st : state) :
  (forall n, (1 <= n)%Z ->
             below_min min1 n = below_min min2 n
             /\ above_max max1 n = above_max max2 n) ->
  tasks_file_to_job_data env (mkTasks p1 min1 max1) records st
  = tasks_file_to_job_data env (mkTasks p2 min2 max2) records st.
Proof.
  intros H. destruct records as [|header data]; [reflexivity|].
  unfold tasks_file_to_job_data; cbn [tasks_min tasks_max].
  unfold bindM at 1 3.
  destruct (parse_tasks_file_header (fields header) st) as [[job_params|e] st'];
    [|reflexivity].
  unfold bindM.
  rewrite (compile_rows_ext env job_params min1 max1 min2 max2); [reflexivity|].
  intros r Hr. apply H. apply read_records_gt in Hr. unfold task_number. lia.
Qed.

Lemma row_params_task_id (env : os_env) (job_params : list Param)
      (row : list string) :
  forall i t st t' st',
    row_params env job_params row i t st = (Ok t', st') ->
    task_id t' = task_id t.
Proof.
  induction job_params as [|param rest IH]; intros i t st t' st' H.
  - injection H as <- _. reflexivity.
  - cbn [row_params] in H. unfold bindM at 1 in H.
    match type of H with
    | (let (_, _) := ?m st in _) = _ => destruct (m st) as [[t1|e] st1] eqn:E
    end; [|discriminate].
    apply IH in H. rewrite H. clear H IH.
    destruct param as [p|p|f]; [| |destruct (fp_class f)];
      unfold bindM, lift, ret, input_make_param, output_make_param in E;
      repeat match type of E with
      | context [match ?x with _ => _ end] => destruct x; try discriminate
      end; injection E as <- _; reflexivity.
Qed.

Lemma compile_row_task_id (env : os_env) (job_params : list Param)
      (line_num : Z) (row : list string) (st : state) t st' :
  compile_row env job_params line_num row st = (Ok t, st') ->
  task_id t = Some (line_num - 1)%Z.
Proof.
  unfold compile_row, bindM. intros H.
  match type of H with
  | (let (_, _) := ?m in _) = _ => destruct m as [[u|e] st1]
  end; [|discriminate].
  now apply row_params_task_id in H.
Qed.

Lemma compile_rows_task_ids (env : os_env) (job_params : list Param)
      (rows : list (Z * list string)) :
  forall job_data st tasks st',
    compile_rows env job_params None None rows job_data st = (Ok tasks, st') ->
    map task_id tasks
    = (map task_id job_data ++ map (fun r => Some (task_number r)) rows)%list.
Proof.
  induction rows as [|[line_num row] rows IH]; intros job_data st tasks st' H.
  - injection H as <- _. cbn [map]. now rewrite app_nil_r.
  - cbn [compile_rows below_min above_max] in H. unfold bindM in H.
    destruct (compile_row env job_params line_num row st) as [[t|e] st1] eqn:E;
      [|discriminate].
    apply IH in H. rewrite H, map_app, <- app_assoc. cbn [map app].
    now rewrite (compile_row_task_id _ _ _ _ _ _ _ E).
Qed.

Lemma compile_rows_filter (env : os_env) (job_params : list Param)
      (a b : Z) (rows : list (Z * list string)) :
  b <> 0%Z ->
  (forall r, In r rows -> (1 <= task_number r)%Z) ->
  forall job_data st,
    compile_rows env job_params (Some a) (Some b) rows job_data st
    = compile_rows env job_params None None (filter (selected a b) rows) job_data st.
Proof.
  intros Hb. induction rows as [|[line_num row] rows IH]; intros H job_data st.
  - reflexivity.
  - assert (IH' := IH (fun r Hr => H r (or_intror Hr))).
    specialize (H (line_num, row) (or_introl eq_refl)).
    unfold task_number in H; cbn [fst] in H.
    cbn [compile_rows filter]. unfold selected, task_number; cbn [fst].
    unfold below_min, above_max.
    destruct (Z.eqb_spec a 0) as [->|Ha], (Z.eqb_spec b 0) as [->|_];
      try contradiction; cbn [negb andb].
    + replace (0 <=? line_num - 1)%Z with true by (symmetry; apply Z.leb_le; lia).
      cbn [andb]. rewrite Z.gtb_ltb.
      destruct (Z.ltb_spec b (line_num - 1)), (Z.leb_spec (line_num - 1) b);
        try lia; [apply IH'|].
      cbn [compile_rows below_min above_max]. unfold bindM.
      destruct (compile_row env job_params line_num row st) as [[t|e] st1];
        [apply IH' | reflexivity].
    + rewrite Z.gtb_ltb.
      destruct (Z.ltb_spec (line_num - 1) a), (Z.leb_spec a (line_num - 1));
        try lia; cbn [andb]; [apply IH'|].
      destruct (Z.ltb_spec b (line_num - 1)), (Z.leb_spec (line_num - 1) b);
        try lia; [apply IH'|].
      cbn [compile_rows below_min above_max]. unfold bindM.
      destruct (compile_row env job_params line_num row st) as [[t|e] st1];
        [apply IH' | reflexivity].
Qed.

Lemma read_records_single_line (records : list csv_record) :
  Forall (fun r => extra_lines r = 0%nat) records ->
  forall line_num,
    map task_number (read_records line_num records)
    = map (fun k => (line_num + Z.of_nat k)%Z) (seq 0 (List.length records)).
Proof.
  induction 1 as [|r records Hr _ IH]; intros line_num.
  - reflexivity.
  - cbn [read_records map List.length seq]. rewrite Hr, IH.
    unfold task_number at 1; cbn [fst]. f_equal; [cbn; lia|].
    rewrite <- seq_shift, map_map. apply map_ext. intros k. cbn. lia.
Qed.

(** C4, as amended.  When every record, the header included, takes one
    line, the data rows are numbered 1, 2, 3 and so on.  With a filter
    [min,max] whose [max] is not 0, the result and the state are those of
    compiling just the rows numbered within [min] and [max], both
    included, so that nothing is checked or built for a row outside; and
    compiling rows yields one task per row, in order, with the row's
    number. *)
Theorem tasks_numbered_and_filtered (env : os_env) (tasks_path : string)
        (header : csv_record) (data : list csv_record) (st : state) :
  (extra_lines header = 0%nat ->
   Forall (fun r => extra_lines r = 0%nat) data ->
   map task_number (read_records (1 + Z.of_nat (extra_lines header)) data)
   = map Z.of_nat (seq 1 (List.length data)))
  /\ (forall task_min task_max : Z,
         task_max <> 0%Z ->
         tasks_file_to_job_data env
           (mkTasks tasks_path (Some task_min) (Some task_max)) (header :: data) st
         = tasks_of_rows env header
             (filter (selected task_min task_max)
                (read_records (1 + Z.of_nat (extra_lines header)) data)) st)
  /\ (forall rows tasks st',
         tasks_of_rows env header rows st = (Ok tasks, st') ->
         map task_id tasks = map (fun r => Some (task_number r)) rows).
Proof.
  split; [|split].
  - intros Hh Hd. rewrite Hh, (read_records_single_line _ Hd).
    rewrite <- seq_shift, map_map. apply map_ext. intros k. cbn [Z.of_nat]. lia.
  - intros task_min task_max Hmax.
    unfold tasks_file_to_job_data, tasks_of_rows; cbn [tasks_min tasks_max].
    unfold bindM at 1 3.
    destruct (parse_tasks_file_header (fields header) st) as [[job_params|e] st1];
      [|reflexivity].
    unfold bindM. rewrite compile_rows_filter; [reflexivity | assumption |].
    intros r Hr. apply read_records_gt in Hr. unfold task_number. lia.
  - intros rows tasks st' H. unfold tasks_of_rows, bindM in H.
    destruct (parse_tasks_file_header (fields header) st) as [[job_params|e] st1];
      [|discriminate].
    destruct (compile_rows env job_params None None rows [] st1)
      as [[job_data|e] st2] eqn:E; [|discriminate].
    apply compile_rows_task_ids in E. cbn [map app] in E.
    destruct job_data; [discriminate|]. injection H as <- _. exact E.
Qed.

Lemma tasks_numbered_and_filtered_witness :
  map task_number
      (read_records 1 [mkRecord ["not?valid"] 0; mkRecord ["gs://b/x"] 0;
                       mkRecord ["also[bad]"] 0])
  = [1; 2; 3]%Z
  /\ fst (tasks_file_to_job_data example_env
            (mkTasks "tasks.tsv" (Some 2%Z) (Some 2%Z))
            [mkRecord ["--input IN"] 0; mkRecord ["not?valid"] 0;
             mkRecord ["gs://b/x"] 0; mkRecord ["also[bad]"] 0]
            initial_state)
     = Ok [mkTask (Some 2%Z) [] []
             [mkFileParam InputFileParamClass "IN" (Some "gs://b/x")
                (Some "input/gs/b/x") (Some (mkUriParts "gs://b/" "x"))
                false (Some P_GCS)] []].
Proof.
  split.
  - apply (proj1 (tasks_numbered_and_filtered example_env "tasks.tsv"
                    (mkRecord ["--input IN"] 0)
                    [mkRecord ["not?valid"] 0; mkRecord ["gs://b/x"] 0;
                     mkRecord ["also[bad]"] 0] initial_state)).
    + reflexivity.
    + repeat constructor.
  - rewrite (proj1 (proj2 (tasks_numbered_and_filtered example_env "tasks.tsv"
                             (mkRecord ["--input IN"] 0)
                             [mkRecord ["not?valid"] 0; mkRecord ["gs://b/x"] 0;
                              mkRecord ["also[bad]"] 0] initial_state)) 2%Z 2%Z).
    + reflexivity.
    + discriminate.
Defined.

(** C4 as stated fails twice.  With the filter [1,0] no task number lies
    within the bounds, yet row 1 is compiled; and a first data row whose
    record takes two lines is task 2, not task 1. *)
Lemma task_filter_zero_max_and_two_line_row :
  (selected 1 0 (2%Z, ["x"]) = false
   /\ fst (tasks_file_to_job_data example_env
             (mkTasks "tasks.tsv" (Some 1%Z) (Some 0%Z))
             [mkRecord ["A"] 0; mkRecord ["x"] 0] initial_state)
      = Ok [mkTask (Some 1%Z) [] [mkEnvParam "A" (Some "x")] [] []])
  /\ fst (tasks_file_to_job_data example_env
            (mkTasks "tasks.tsv" None None)
            [mkRecord ["A"] 0; mkRecord [two_line_cell] 1] initial_state)
     = Ok [mkTask (Some 2%Z) [] [mkEnvParam "A" (Some two_line_cell)] [] []].
Proof. repeat split. Qed.

(** ** Task table: a bound of 0 *)

(** *** Only the check at the end says that no tasks were added *)

Lemma other_error_bind {A B : Type} (r : result A) (k : A -> result B) :
  other_error r -> (forall a, other_error (k a)) -> other_error (bind r k).
Proof. destruct r; cbn [bind]; [auto | intros H _; exact H]. Qed.

Lemma other_error_bindM {A B : Type} (m : M A) (k : A -> M B) :
  other_errorM m -> (forall a, other_errorM (k a)) -> other_errorM (bindM m k).
Proof.
  intros Hm Hk st. unfold bindM. specialize (Hm st).
  destruct (m st) as [[a|e] st1]; cbn [fst] in *; [apply Hk | exact Hm].
Qed.

Lemma other_error_lift {A : Type} (r : result A) :
  other_error r -> other_errorM (lift r).
Proof. intros H st. exact H. Qed.

Lemma other_error_ret {A : Type} (a : A) : other_errorM (ret a).
Proof. intros st. exact I. Qed.

Ltac other_cases :=
  repeat match goal with
         | |- other_error (if ?b then _ else _) => destruct b
         | |- other_error (match ?x with _ => _ end) => destruct x
         | |- other_error (bind _ _) => apply other_error_bind; [|intros]
         end;
  try exact I.

Lemma validate_param_name_other (name : option string) (param_type : string) :
  other_error (validate_param_name name param_type).
Proof. unfold validate_param_name. other_cases. Qed.

Lemma EnvParam_new_other (name value : option string) :
  other_error (EnvParam_new name value).
Proof.
  unfold EnvParam_new. apply other_error_bind; [apply validate_param_name_other|].
  intros _. other_cases.
Qed.

Lemma check_label_rule_other (v : option string) (param_type : string) :
  other_error (_check_label_rule v param_type).
Proof. unfold _check_label_rule. other_cases. Qed.

Lemma LabelParam_new_other (name value : option string) :
  other_error (LabelParam_new name value).
Proof.
  unfold LabelParam_new, validate_label.
  repeat (apply other_error_bind; [|intros]);
    try apply check_label_rule_other; other_cases.
  apply check_label_rule_other.
Qed.

Lemma FileParam_new_other cls name value docker u rec prov :
  other_error (FileParam_new cls name value docker u rec prov).
Proof.
  unfold FileParam_new. apply other_error_bind; [|intros; exact I].
  destruct cls; [exact I | apply validate_param_name_other ..].
Qed.

Lemma apply_prefix_replacements_other l p :
  other_error (apply_prefix_replacements l p).
Proof.
  revert p; induction l as [|[prefix replacement] l IH]; intros p; [exact I|].
  cbn [apply_prefix_replacements]. destruct (Str.startswith p prefix); [|apply IH].
  apply other_error_bind; [|intros; apply IH].
  unfold posixpath.join_opt. other_cases.
Qed.

Lemma parse_uri_other self env raw_uri rec :
  other_error (parse_uri self env raw_uri rec).
Proof.
  unfold parse_uri. apply other_error_bind; [|intros file_provider].
  { unfold parse_file_provider. other_cases. }
  apply other_error_bind; [|intros _].
  { unfold _validate_paths_or_fail. other_cases. }
  apply other_error_bind; [|intros [u d]; exact I].
  unfold rewrite_uris. apply other_error_bind; [|intros [u d]; exact I].
  destruct file_provider; [|exact I].
  unfold _local_uri_rewriter. destruct (posixpath.split _) as [raw_path filename].
  apply other_error_bind; [apply apply_prefix_replacements_other | intros; exact I].
Qed.

Lemma make_param_other self env name raw_uri rec :
  other_error (make_param self env name raw_uri rec).
Proof.
  unfold make_param. apply other_error_bind; [apply parse_uri_other|].
  intros [[d u] p]. apply FileParam_new_other.
Qed.

Lemma row_params_other env job_params row :
  forall i t, other_errorM (row_params env job_params row i t).
Proof.
  induction job_params as [|param rest IH]; intros i t; [apply other_error_ret|].
  cbn [row_params]. apply other_error_bindM; [|intros; apply IH].
  assert (other_errorM (lift (row_get row i))) as Hget.
  { apply other_error_lift. unfold row_get. other_cases. }
  destruct param as [p|p|f]; [| |destruct (fp_class f)];
    try apply other_error_ret;
    (apply other_error_bindM; [exact Hget | intros cell]);
    (apply other_error_bindM; [|intros; apply other_error_ret]).
  - apply other_error_lift, EnvParam_new_other.
  - apply other_error_lift, LabelParam_new_other.
  - intros st. apply make_param_other.
  - intros st. apply make_param_other.
Qed.

Lemma compile_row_other env job_params line_num row :
  other_errorM (compile_row env job_params line_num row).
Proof.
  unfold compile_row. apply other_error_bindM; [|intros; apply row_params_other].
  destruct (negb _); [|apply other_error_ret]. intros st. exact I.
Qed.

Lemma get_variable_name_other (name : option string) :
  other_errorM (input_get_variable_name name)
  /\ other_errorM (output_get_variable_name name).
Proof.
  split; intros st; unfold input_get_variable_name, output_get_variable_name;
    destruct (get_variable_name _ name); exact I.
Qed.

Lemma parse_column_other col : other_errorM (parse_column col).
Proof.
  unfold parse_column. apply other_error_bindM.
  { apply other_error_lift. destruct (Str.startswith col "-"); [|exact I].
    unfold split_pair. other_cases. }
  intros [col_type col_value].
  destruct (opt_eqb col_type "--env").
  { apply other_error_bindM; [|intros; apply other_error_ret].
    apply other_error_lift, EnvParam_new_other. }
  destruct (opt_eqb col_type "--label").
  { apply other_error_bindM; [|intros; apply other_error_ret].
    apply other_error_lift, LabelParam_new_other. }
  destruct (_ || _).
  { apply other_error_bindM; [apply get_variable_name_other|intros name].
    apply other_error_bindM; [|intros; apply other_error_ret].
    apply other_error_lift, FileParam_new_other. }
  destruct (_ || _).
  { apply other_error_bindM; [apply get_variable_name_other|intros name].
    apply other_error_bindM; [|intros; apply other_error_ret].
    apply other_error_lift, FileParam_new_other. }
  intros st. exact I.
Qed.

Lemma parse_tasks_file_header_other header :
  other_errorM (parse_tasks_file_header header).
Proof.
  induction header as [|col rest IH]; [apply other_error_ret|].
  cbn [parse_tasks_file_header].
  apply other_error_bindM; [apply parse_column_other|intros].
  apply other_error_bindM; [apply IH | intros; apply other_error_ret].
Qed.

Lemma each_row_other env job_params rows :
  other_errorM (each_row env job_params rows).
Proof.
  induction rows as [|[line_num row] rows IH]; [apply other_error_ret|].
  cbn [each_row].
  apply other_error_bindM; [apply compile_row_other | intros].
  apply other_error_bindM; [apply IH | intros; apply other_error_ret].
Qed.

Lemma each_row_length env job_params rows :
  forall st tasks st',
    each_row env job_params rows st = (Ok tasks, st') ->
    List.length tasks = List.length rows.
Proof.
  induction rows as [|[line_num row] rows IH]; intros st tasks st' H.
  - now injection H as <- _.
  - cbn [each_row] in H. unfold bindM, ret in H.
    destruct (compile_row env job_params line_num row st) as [[t|e] st1];
      [|discriminate].
    destruct (each_row env job_params rows st1) as [[ts|e] st2] eqn:E2;
      [|discriminate].
    injection H as <- _. cbn [List.length]. f_equal. now apply IH in E2.
Qed.

(** A table with a row to compile does not end with the error that no
    tasks were added. *)
Lemma table_of_rows_tasks env header rows st :
  rows <> [] -> ~ no_tasks_error (table_of_rows env header rows st).
Proof.
  intros Hrows [st' H]. unfold table_of_rows, bindM in H.
  pose proof (parse_tasks_file_header_other (fields header) st) as Hh.
  destruct (parse_tasks_file_header (fields header) st) as [[job_params|e] st1];
    cbn [fst] in Hh; [|injection H as -> _; exact Hh].
  pose proof (each_row_other env job_params rows st1) as Hr.
  destruct (each_row env job_params rows st1) as [[job_data|e] st2] eqn:E;
    cbn [fst] in Hr; [|injection H as -> _; exact Hr].
  apply each_row_length in E.
  destruct job_data; [|discriminate].
  destruct rows; [contradiction | discriminate].
Qed.

(** What the row loop does under a filter: each row that the filter
    keeps is compiled. *)
Lemma compile_rows_each (env : os_env) (job_params : list Param)
      (task_min task_max : option Z) (rows : list (Z * list string)) :
  forall job_data st,
    compile_rows env job_params task_min task_max rows job_data st
    = (ts <~ each_row env job_params
               (filter (fun r => negb (below_min task_min (task_number r))
                                 && negb (above_max task_max (task_number r))) rows) ;;
       ret (job_data ++ ts)%list) st.
Proof.
  induction rows as [|[line_num row] rows IH]; intros job_data st.
  - unfold bindM, ret. cbn. now rewrite app_nil_r.
  - cbn [compile_rows filter]. unfold task_number at 1 2; cbn [fst].
    destruct (below_min task_min (line_num - 1)); cbn [negb andb]; [apply IH|].
    destruct (above_max task_max (line_num - 1)); cbn [negb andb]; [apply IH|].
    cbn [each_row]. unfold bindM, ret.
    destruct (compile_row env job_params line_num row st) as [[t|e] st1]; [|reflexivity].
    rewrite IH. unfold bindM, ret.
    destruct (each_row env job_params _ st1) as [[ts|e] st2]; [|reflexivity].
    now rewrite <- app_assoc.
Qed.

Lemma tasks_file_each (env : os_env) (tasks : tasks_arg)
      (header : csv_record) (data : list csv_record) (st : state)
      (keep : Z * list string -> bool) :
  (forall r, In r (read_records (1 + Z.of_nat (extra_lines header)) data) ->
             negb (below_min (tasks_min tasks) (task_number r))
             && negb (above_max (tasks_max tasks) (task_number r)) = keep r) ->
  tasks_file_to_job_data env tasks (header :: data) st
  = table_of_rows env header
      (filter keep (read_records (1 + Z.of_nat (extra_lines header)) data)) st.
Proof.
  intros H. unfold tasks_file_to_job_data, table_of_rows.
  unfold bindM at 1 3.
  destruct (parse_tasks_file_header (fields header) st) as [[job_params|e] st1];
    [|reflexivity].
  unfold bindM at 1 2. rewrite compile_rows_each.
  rewrite (filter_ext_in _ keep _ H). unfold bindM, ret.
  destruct (each_row env job_params _ st1) as [[ts|e] st2]; reflexivity.
Qed.

Lemma filter_all {A : Type} (keep : A -> bool) (l : list A) :
  (forall r, In r l -> keep r = true) -> filter keep l = l.
Proof.
  induction l as [|x l IH]; intros H; [reflexivity|].
  cbn [filter]. rewrite (H x (or_introl eq_refl)). f_equal.
  apply IH. intros r Hr. apply H. now right.
Qed.

Lemma each_row_task_ids (env : os_env) (job_params : list Param)
      (rows : list (Z * list string)) :
  forall st tasks st',
    each_row env job_params rows st = (Ok tasks, st') ->
    map task_id tasks = map (fun r => Some (task_number r)) rows.
Proof.
  induction rows as [|[line_num row] rows IH]; intros st tasks st' H.
  - now injection H as <- _.
  - cbn [each_row] in H. unfold bindM, ret in H.
    destruct (compile_row env job_params line_num row st) as [[t|e] st1] eqn:E;
      [|discriminate].
    destruct (each_row env job_params rows st1) as [[ts|e] st2] eqn:E2;
      [|discriminate].
    injection H as <- _. cbn [map]. f_equal.
    + now apply compile_row_task_id in E.
    + now apply IH in E2.
Qed.

(** C10. A bound of 0 is as good as no bound: a minimum of 0 skips
    nothing below, a maximum of 0 skips nothing above, and the filter
    [1,0] compiles every row, as no filter does.  With a minimum of 0
    each row numbered up to the maximum is compiled, with a maximum of 0
    each row numbered from the minimum upward, and with [1,0] each row
    of the table: on success there is one task per row, and a table with a
    data row never ends with the error that no tasks were added. *)
Theorem zero_bound_disables_filter (env : os_env) (tasks_path : string)
        (task_min task_max : option Z) (records : list csv_record) (st : state) :
  tasks_file_to_job_data env (mkTasks tasks_path (Some 0%Z) task_max) records st
  = tasks_file_to_job_data env (mkTasks tasks_path None task_max) records st
  /\ tasks_file_to_job_data env (mkTasks tasks_path task_min (Some 0%Z)) records st
     = tasks_file_to_job_data env (mkTasks tasks_path task_min None) records st
  /\ tasks_file_to_job_data env (mkTasks tasks_path (Some 1%Z) (Some 0%Z)) records st
     = tasks_file_to_job_data env (mkTasks tasks_path None None) records st
  /\ (forall header data,
         let rows := read_records (1 + Z.of_nat (extra_lines header)) data in
         (forall m : Z,
             m <> 0%Z ->
             tasks_file_to_job_data env (mkTasks tasks_path (Some 0%Z) (Some m))
               (header :: data) st
             = table_of_rows env header (filter (at_most m) rows) st)
         /\ (forall m : Z,
                tasks_file_to_job_data env (mkTasks tasks_path (Some m) (Some 0%Z))
                  (header :: data) st
                = table_of_rows env header (filter (at_least m) rows) st)
         /\ tasks_file_to_job_data env (mkTasks tasks_path (Some 1%Z) (Some 0%Z))
              (header :: data) st
            = table_of_rows env header rows st
         /\ (forall tasks st',
                table_of_rows env header rows st = (Ok tasks, st') ->
                map task_id tasks = map (fun r => Some (task_number r)) rows)
         /\ (data <> [] ->
             ~ no_tasks_error
                 (tasks_file_to_job_data env
                    (mkTasks tasks_path (Some 1%Z) (Some 0%Z)) (header :: data) st))).
Proof.
  split; [|split; [|split]];
    try (apply tasks_file_filter_ext; intros n Hn; cbn; try (split; reflexivity)).
  { split; [|reflexivity]. apply Z.ltb_ge. lia. }
  intros header data rows.
  assert (forall r, In r rows -> (1 <= task_number r)%Z) as Hrows.
  { intros r Hr. apply read_records_gt in Hr. unfold task_number. lia. }
  assert (tasks_file_to_job_data env (mkTasks tasks_path (Some 1%Z) (Some 0%Z))
            (header :: data) st
          = table_of_rows env header rows st) as Hall.
  { rewrite <- (filter_all (at_least 1) rows).
    + apply tasks_file_each. intros r Hr. cbn [tasks_min tasks_max].
      unfold below_min, above_max, at_least. cbn [Z.eqb Pos.eqb negb andb].
      rewrite andb_true_r. apply eq_sym, Z.leb_antisym.
    + intros r Hr. apply Z.leb_le. now apply Hrows. }
  split; [|split; [|split; [|split]]].
  - intros m Hm. apply tasks_file_each. intros r Hr. cbn [tasks_min tasks_max].
    unfold below_min, above_max, at_most. cbn [Z.eqb negb andb].
    apply Z.eqb_neq in Hm. rewrite Hm. cbn [negb andb].
    rewrite Z.gtb_ltb. apply eq_sym, Z.leb_antisym.
  - intros m. apply tasks_file_each. intros r Hr. cbn [tasks_min tasks_max].
    unfold below_min, above_max, at_least. cbn [Z.eqb negb andb].
    rewrite andb_true_r. specialize (Hrows r Hr).
    destruct (Z.eqb_spec m 0) as [->|_]; cbn [negb andb].
    + symmetry. apply Z.leb_le. lia.
    + apply eq_sym, Z.leb_antisym.
  - exact Hall.
  - intros tasks st' H. unfold table_of_rows, bindM in H.
    destruct (parse_tasks_file_header (fields header) st) as [[job_params|e] st1];
      [|discriminate].
    destruct (each_row env job_params rows st1) as [[job_data|e] st2] eqn:E;
      [|discriminate].
    apply each_row_task_ids in E. destruct job_data; [discriminate|].
    now injection H as <- _.
  - intros Hdata. rewrite Hall. apply table_of_rows_tasks.
    subst rows. destruct data; [contradiction | discriminate].
Qed.

Lemma zero_bound_disables_filter_witness :
  tasks_file_to_job_data example_env (mkTasks "tasks.tsv" (Some 0%Z) (Some 1%Z))
    [mkRecord ["A"] 0; mkRecord ["x"] 0; mkRecord ["y"] 0] initial_state
  = table_of_rows example_env (mkRecord ["A"] 0) [(2%Z, ["x"])] initial_state
  /\ ~ no_tasks_error
        (tasks_file_to_job_data example_env
           (mkTasks "tasks.tsv" (Some 1%Z) (Some 0%Z))
           [mkRecord ["A"] 0; mkRecord ["x"] 0; mkRecord ["y"] 0] initial_state).
Proof.
  pose proof (proj2 (proj2 (proj2
                (zero_bound_disables_filter example_env "tasks.tsv" None None []
                   initial_state)))
                (mkRecord ["A"] 0) [mkRecord ["x"] 0; mkRecord ["y"] 0]) as H.
  split.
  - apply (proj1 H 1%Z). discriminate.
  - apply (proj2 (proj2 (proj2 (proj2 H)))). discriminate.
Defined.


(** ** Task table: rows of the wrong width *)

Lemma parse_column_reads_cell (col : string) (st : state) p st' :
  parse_column col st = (Ok p, st') -> reads_cell p.
Proof.
  unfold parse_column, bindM, lift, ret, raise.
  destruct (if Str.startswith col "-" then split_pair col " " 1
            else Ok (Some "--env", Some col)) as [[col_type col_value]|e];
    [|discriminate].
  destruct (opt_eqb col_type "--env").
  { destruct (EnvParam_new col_value None); [|discriminate].
    intros H; injection H as <- _; exact I. }
  destruct (opt_eqb col_type "--label").
  { destruct (LabelParam_new col_value None); [|discriminate].
    intros H; injection H as <- _; exact I. }
  destruct (opt_eqb col_type "--input" || opt_eqb col_type "--input-recursive").
  { destruct (input_get_variable_name col_value st) as [[name|e] st1]; [|discriminate].
    unfold FileParam_new. cbn [bind].
    destruct (validate_param_name (Some name) "Input parameter"); [|discriminate].
    cbn [bind]. intros H; injection H as <- _. cbn. discriminate. }
  destruct (opt_eqb col_type "--output" || opt_eqb col_type "--output-recursive").
  { destruct (output_get_variable_name col_value st) as [[name|e] st1]; [|discriminate].
    unfold FileParam_new. cbn [bind].
    destruct (validate_param_name (Some name) "Output parameter"); [|discriminate].
    cbn [bind]. intros H; injection H as <- _. cbn. discriminate. }
  discriminate.
Qed.

Lemma parse_header_shape (header : list string) :
  forall st job_params st',
    parse_tasks_file_header header st = (Ok job_params, st') ->
    List.length job_params = List.length header /\ Forall reads_cell job_params.
Proof.
  induction header as [|col rest IH]; intros st job_params st' H.
  - injection H as <- _. split; [reflexivity | constructor].
  - cbn [parse_tasks_file_header] in H. unfold bindM at 1 in H.
    destruct (parse_column col st) as [[p|e] st1] eqn:E; [|discriminate].
    unfold bindM at 1 in H.
    destruct (parse_tasks_file_header rest st1) as [[ps|e] st2] eqn:E2; [|discriminate].
    injection H as <- _. destruct (IH _ _ _ E2) as [Hl Hf].
    split; [cbn; now rewrite Hl | constructor; [now apply parse_column_reads_cell in E | exact Hf]].
Qed.

Lemma row_params_short (env : os_env) (job_params : list Param) (row : list string) :
  Forall reads_cell job_params ->
  forall i t st,
    (i <= List.length row)%nat ->
    (List.length row < i + List.length job_params)%nat ->
    raises (row_params env job_params row i t st).
Proof.
  induction 1 as [|param rest Hp _ IH]; intros i t st Hle Hlen.
  - cbn in Hlen. lia.
  - cbn [row_params]. unfold bindM at 1.
    match goal with
    | |- raises (let (_, _) := ?m st in _) => destruct (m st) as [[t1|e] st1] eqn:E
    end; [|now exists e, st1].
    destruct (Nat.lt_ge_cases i (List.length row)) as [Hi|Hi].
    + apply IH; cbn [List.length] in Hlen; lia.
    + exfalso. apply nth_error_None in Hi.
      destruct param as [p|p|f]; [| |destruct (fp_class f) eqn:Ec];
        unfold bindM, lift, row_get in E; try rewrite Hi in E; try discriminate.
      now apply Hp.
Qed.

Lemma compile_row_short (env : os_env) (job_params : list Param)
      (line_num : Z) (row : list string) (st : state) :
  Forall reads_cell job_params ->
  (List.length row < List.length job_params)%nat ->
  raises (compile_row env job_params line_num row st).
Proof.
  intros Hf Hlen. unfold compile_row, bindM.
  match goal with
  | |- raises (let (_, _) := ?m in _) => destruct m as [[u|e] st1]
  end; [|now exists e, st1].
  apply row_params_short; [assumption | lia | lia].
Qed.

Lemma compile_rows_short (env : os_env) (job_params : list Param)
      (task_min task_max : option Z) (rows : list (Z * list string))
      (line_num : Z) (row : list string) :
  Forall reads_cell job_params ->
  In (line_num, row) rows ->
  below_min task_min (line_num - 1) = false ->
  above_max task_max (line_num - 1) = false ->
  (List.length row < List.length job_params)%nat ->
  forall job_data st,
    raises (compile_rows env job_params task_min task_max rows job_data st).
Proof.
  intros Hf Hin Hmin Hmax Hlen.
  induction rows as [|[n r] rows IH]; intros job_data st; [destruct Hin|].
  cbn [compile_rows].
  destruct Hin as [Heq|Hin].
  - injection Heq as -> ->. rewrite Hmin, Hmax. unfold bindM.
    destruct (compile_row_short env job_params line_num row st Hf Hlen)
      as (e & st1 & ->).
    now exists e, st1.
  - destruct (below_min task_min (n - 1)); [now apply IH|].
    destruct (above_max task_max (n - 1)); [now apply IH|].
    unfold bindM. destruct (compile_row env job_params n r st) as [[t|e] st1].
    + now apply IH.
    + now exists e, st1.
Qed.

(** Whatever else the table holds, a row within the task range that has
    fewer cells than the header has columns ends the run with an
    exception. *)
Lemma short_row_aborts (env : os_env) (tasks : tasks_arg)
        (header : csv_record) (data : list csv_record) (st : state)
        (line_num : Z) (row : list string) :
  In (line_num, row) (read_records (1 + Z.of_nat (extra_lines header)) data) ->
  below_min (tasks_min tasks) (line_num - 1) = false ->
  above_max (tasks_max tasks) (line_num - 1) = false ->
  (List.length row < List.length (fields header))%nat ->
  raises (tasks_file_to_job_data env tasks (header :: data) st).
Proof.
  intros Hin Hmin Hmax Hlen. unfold tasks_file_to_job_data, bindM.
  destruct (parse_tasks_file_header (fields header) st) as [[job_params|e] st1] eqn:E;
    [|now exists e, st1].
  destruct (parse_header_shape _ _ _ _ E) as [Hl Hf].
  rewrite <- Hl in Hlen.
  destruct (compile_rows_short env job_params _ _ _ _ _ Hf Hin Hmin Hmax Hlen [] st1)
    as (e & st2 & ->).
  now exists e, st2.
Qed.

(** C1 fails on the code.  The header has two columns and the only data
    row has one cell: the mismatch is written to the error stream, and
    then reading the second cell raises [IndexError], which ends the run
    without a task. *)
Theorem short_row_index_error :
  tasks_file_to_job_data example_env (mkTasks "tasks.tsv" None None)
    [mkRecord ["A"; "B"] 0; mkRecord ["x"] 0] initial_state
  = (Raise IndexError,
     mkState (InputFileParamUtil "input") (OutputFileParamUtil "output")
       ["Unexpected number of fields 1 vs 2: line 2"]).
Proof. reflexivity. Qed.

(** A row with more cells than the header has columns is reported and
    compiled from its leading cells. *)
Example long_row_continues :
  tasks_file_to_job_data example_env (mkTasks "tasks.tsv" None None)
    [mkRecord ["A"; "B"] 0; mkRecord ["x"; "y"; "z"] 0] initial_state
  = (Ok [mkTask (Some 1%Z) []
           [mkEnvParam "A" (Some "x"); mkEnvParam "B" (Some "y")] [] []],
     mkState (InputFileParamUtil "input") (OutputFileParamUtil "output")
       ["Unexpected number of fields 3 vs 2: line 2"]).
Proof. reflexivity. Qed.

(** ** Age strings *)

Lemma split_last_snoc (init : string) (c : ascii) :
  Age.split_last (init ++ String c "") = Some (init, c).
Proof.
  induction init as [|x init IH]; [reflexivity|].
  cbn [append Age.split_last]. rewrite IH.
  destruct (init ++ String c "") eqn:E; [|reflexivity].
  destruct init; discriminate.
Qed.

Lemma unit_us_seconds (c : ascii) :
  Age.unit_us c = option_map (fun secs => (secs * Age.us_per_second)%Z) (unit_seconds c).
Proof.
  unfold Age.unit_us, unit_seconds.
  repeat match goal with
         | |- context [Ascii.eqb c ?x] => destruct (Ascii.eqb c x); [reflexivity|]
         end.
  reflexivity.
Qed.

Lemma int_raises_value_error (s : string) (e : exn) :
  Age.int s = Raise e -> e = ValueError InvalidLiteralForInt.
Proof.
  unfold Age.int.
  destruct (if Str.startswith (Age.lstrip_space s) "+" then _ else _) as [sign s'].
  destruct (Age.read_digits 0 0 (Age.lstrip_space s')) as [[n count] rest].
  destruct count; [congruence|].
  destruct (Age.lstrip_space rest); congruence.
Qed.

Lemma age_nonempty (init : string) (c : ascii) :
  exists x r, init ++ String c "" = String x r.
Proof. destruct init; cbn; eauto. Qed.

Lemma age_to_create_time_snoc (init : string) (c : ascii) (from_time : Age.datetime) :
  Age.age_to_create_time (Some (init ++ String c "")) from_time
  = match Age.age_body (init ++ String c "") from_time with
    | Ok v => Ok (Some v)
    | Raise (ValueError _) | Raise OverflowError =>
        Raise (ValueError (UnableToParseAge (init ++ String c "")))
    | Raise e => Raise e
    end.
Proof.
  destruct (age_nonempty init c) as (x & r & ->). reflexivity.
Qed.

Lemma in_range_interval (from_time : Age.datetime) (interval : Z) :
  valid_datetime from_time ->
  valid_datetime (from_time - interval)%Z ->
  Age.timedelta_new interval = Ok interval
  /\ Age.datetime_sub from_time interval = Ok (from_time - interval)%Z.
Proof.
  unfold valid_datetime, Age.timedelta_new, Age.datetime_sub.
  intros Hf Hs. split.
  - assert (- Age.datetime_max <= interval <= Age.datetime_max)%Z as Hi by lia.
    assert (-999999999 <= interval / Age.us_per_day <= 999999999)%Z as Hd.
    { unfold Age.datetime_max, Age.us_per_day, Age.us_per_second in *.
      split.
      - apply Z.div_le_lower_bound; lia.
      - apply Z.div_le_upper_bound; lia. }
    destruct (Z.ltb_spec (interval / Age.us_per_day) (-999999999)); [lia|].
    destruct (Z.ltb_spec 999999999 (interval / Age.us_per_day)); [lia|].
    reflexivity.
  - destruct (Z.ltb_spec (from_time - interval) 0); [lia|].
    destruct (Z.ltb_spec Age.datetime_max (from_time - interval)); [lia|].
    reflexivity.
Qed.

Lemma out_of_range_interval (from_time : Age.datetime) (interval : Z) :
  ~ valid_datetime (from_time - interval)%Z ->
  (interval' <- Age.timedelta_new interval ;;
   start <- Age.datetime_sub from_time interval' ;;
   Ok (Age.epoch_seconds start)) = Raise OverflowError.
Proof.
  unfold valid_datetime, Age.timedelta_new, Age.datetime_sub. intros H.
  destruct ((interval / Age.us_per_day <? -999999999)%Z
            || (999999999 <? interval / Age.us_per_day)%Z); [reflexivity|].
  cbn [bind].
  destruct (Z.ltb_spec (from_time - interval) 0); [reflexivity|].
  destruct (Z.ltb_spec Age.datetime_max (from_time - interval)); [reflexivity|].
  lia.
Qed.

Lemma digit_not_unit (c : ascii) :
  Str.is_digit c = true -> unit_seconds c = None.
Proof.
  intros H. unfold unit_seconds.
  repeat match goal with
         | |- context [Ascii.eqb c ?x] =>
             destruct (Ascii.eqb_spec c x) as [->|_]; [discriminate H|]
         end.
  reflexivity.
Qed.

Lemma digit_not_space (c : ascii) :
  Str.is_digit c = true -> Age.is_space c = false.
Proof.
  unfold Str.is_digit, Age.is_space. intros H.
  apply andb_true_iff in H as [H1 H2].
  apply Nat.leb_le in H1. apply Nat.leb_le in H2.
  apply orb_false_iff; split.
  - apply Nat.eqb_neq. lia.
  - apply andb_false_iff. right. apply Nat.leb_gt. lia.
Qed.

Lemma read_digits_all (digits : string) :
  Str.forallb Str.is_digit digits = true ->
  forall acc count,
    Age.read_digits acc count digits
    = (fold_left (fun a c => (10 * a + Age.digit_value c)%Z)
                 (list_ascii_of_string digits) acc,
       (count + String.length digits)%nat, "").
Proof.
  induction digits as [|c digits IH]; intros H acc count.
  - cbn. now rewrite Nat.add_0_r.
  - cbn [Str.forallb] in H. apply andb_true_iff in H as [Hc Hd].
    cbn [Age.read_digits list_ascii_of_string fold_left String.length].
    rewrite Hc, (IH Hd). now rewrite Nat.add_succ_r.
Qed.

(** A run of decimal digits is an integer literal. *)
Lemma int_digits (c : ascii) (digits : string) :
  Str.forallb Str.is_digit (String c digits) = true ->
  Age.int (String c digits) = Ok (decimal_value (String c digits)).
Proof.
  intros H. pose proof H as H'. cbn [Str.forallb] in H'.
  apply andb_true_iff in H' as [Hc _].
  unfold Age.int. cbn [Age.lstrip_space]. rewrite (digit_not_space _ Hc).
  unfold Str.startswith. cbn [String.prefix].
  destruct (ascii_dec "+" c) as [<-|_]; [discriminate Hc|].
  destruct (ascii_dec "-" c) as [<-|_]; [discriminate Hc|].
  cbn [Age.lstrip_space]. rewrite (digit_not_space _ Hc).
  rewrite (read_digits_all _ H). cbn [Nat.add String.length Age.lstrip_space].
  unfold decimal_value. f_equal. lia.
Qed.

Lemma snoc_decomp (c : ascii) (s : string) :
  exists init last, String c s = init ++ String last "".
Proof.
  revert c; induction s as [|x s IH]; intros c.
  - now exists "", c.
  - destruct (IH x) as (init & last & ->). now exists (String c init), last.
Qed.

Lemma forallb_snoc (p : ascii -> bool) (init : string) (last : ascii) :
  Str.forallb p (init ++ String last "") = true -> p last = true.
Proof.
  induction init as [|x init IH]; cbn [append Str.forallb]; intros H;
    apply andb_true_iff in H as [H1 H2]; auto.
Qed.

(** *** The seconds that [int(total_seconds())] gives *)

Section SecondsFacts.
Local Open Scope Z_scope.

Lemma round_half_even_bounds (p q : Z) :
  0 < q -> p / q <= Age.round_half_even p q <= p / q + 1.
Proof.
  intros Hq. unfold Age.round_half_even.
  destruct (2 * (p mod q) <? q); [lia|].
  destruct (q <? 2 * (p mod q)); [lia|].
  destruct (Z.even (p / q)); lia.
Qed.

Lemma round_half_even_mono (p1 p2 q : Z) :
  0 < q -> p1 <= p2 -> Age.round_half_even p1 q <= Age.round_half_even p2 q.
Proof.
  intros Hq Hp.
  assert (p1 / q <= p2 / q) as Hf by (apply Z.div_le_mono; lia).
  destruct (Z.eq_dec (p1 / q) (p2 / q)) as [E|N].
  - assert (p1 mod q <= p2 mod q) as Hr.
    { pose proof (Z.div_mod p1 q ltac:(lia)). pose proof (Z.div_mod p2 q ltac:(lia)).
      rewrite E in *. nia. }
    unfold Age.round_half_even. rewrite E.
    destruct (Z.ltb_spec (2 * (p1 mod q)) q); destruct (Z.ltb_spec (2 * (p2 mod q)) q);
      destruct (Z.ltb_spec q (2 * (p1 mod q))); destruct (Z.ltb_spec q (2 * (p2 mod q)));
      destruct (Z.even (p2 / q)); lia.
  - pose proof (round_half_even_bounds p1 q Hq). pose proof (round_half_even_bounds p2 q Hq).
    lia.
Qed.

Lemma round_half_even_add (k p q : Z) :
  0 < q -> Z.even k = true ->
  Age.round_half_even (k * q + p) q = k + Age.round_half_even p q.
Proof.
  intros Hq Hk. unfold Age.round_half_even.
  rewrite Z.add_comm, Z.div_add, Z.mod_add by lia.
  rewrite (Z.add_comm (p / q) k), Z.even_add, Hk.
  destruct (2 * (p mod q) <? q); [lia|].
  destruct (q <? 2 * (p mod q)); [lia|].
  destruct (Z.even (p / q)); cbn; lia.
Qed.

Lemma round_half_even_half (p q : Z) :
  0 < q -> 2 * (Age.round_half_even p q * q) <= 2 * p + q.
Proof.
  intros Hq. pose proof (Z.div_mod p q ltac:(lia)) as E.
  pose proof (Z.mod_pos_bound p q Hq) as Hr.
  unfold Age.round_half_even.
  destruct (Z.ltb_spec (2 * (p mod q)) q); [nia|].
  destruct (Z.ltb_spec q (2 * (p mod q))); [nia|].
  destruct (Z.even (p / q)); nia.
Qed.

Lemma round_half_even_whole (k q : Z) :
  0 < q -> Age.round_half_even (k * q) q = k.
Proof.
  intros Hq. unfold Age.round_half_even.
  rewrite Z.div_mul, Z.mod_mul by lia.
  destruct (Z.ltb_spec (2 * 0) q); lia.
Qed.

(** The significand and the integer part, for a quotient below [2 ^ 52]. *)
Lemma true_divide_int_parts (a d : Z) :
  0 < d -> 0 <= a -> 1 <= 52 - Age.binary_exponent a d ->
  Age.true_divide_int a d
  = a / d + Age.round_half_even (a mod d * 2 ^ (52 - Age.binary_exponent a d)) d
            / 2 ^ (52 - Age.binary_exponent a d).
Proof.
  intros Hd Ha Hs. unfold Age.true_divide_int.
  set (s := 52 - Age.binary_exponent a d) in *.
  destruct (Z.leb_spec 0 s); [|lia].
  assert (0 < 2 ^ s) as Hp by (apply Z.pow_pos_nonneg; lia).
  rewrite (Z.div_mod a d) at 1 by lia.
  replace ((d * (a / d) + a mod d) * 2 ^ s)
    with ((a / d * 2 ^ s) * d + a mod d * 2 ^ s) by ring.
  rewrite round_half_even_add; [|lia|].
  - rewrite Z.add_comm, Z.div_add by lia. lia.
  - replace s with (Z.succ (s - 1)) by lia. rewrite Z.pow_succ_r by lia.
    rewrite Z.mul_assoc, Z.mul_comm, Z.mul_assoc. rewrite Z.even_mul.
    rewrite Z.even_mul. cbn. now rewrite orb_true_r.
Qed.

Lemma significand_fraction (a d s : Z) :
  0 < d -> 0 <= s ->
  0 <= Age.round_half_even (a mod d * 2 ^ s) d / 2 ^ s <= 1.
Proof.
  intros Hd Hs.
  assert (0 < 2 ^ s) as Hp by (apply Z.pow_pos_nonneg; lia).
  pose proof (Z.mod_pos_bound a d Hd) as Hr.
  pose proof (round_half_even_bounds (a mod d * 2 ^ s) d Hd) as [Hl Hu].
  assert (0 <= a mod d * 2 ^ s / d) by (apply Z.div_pos; nia).
  assert (a mod d * 2 ^ s / d < 2 ^ s) by (apply Z.div_lt_upper_bound; nia).
  split.
  - apply Z.div_pos; lia.
  - apply Z.div_le_upper_bound; lia.
Qed.

(** Within one second of the whole seconds, and never below them. *)
Lemma true_divide_int_near (a d : Z) :
  0 < d -> 0 <= a -> 1 <= 52 - Age.binary_exponent a d ->
  a / d <= Age.true_divide_int a d <= a / d + 1.
Proof.
  intros Hd Ha Hs. rewrite (true_divide_int_parts a d Hd Ha Hs).
  pose proof (significand_fraction a d (52 - Age.binary_exponent a d) Hd ltac:(lia)).
  lia.
Qed.

(** Exact when the spacing of the doubles is below two units of [1/d]. *)
Lemma true_divide_int_fine (a d : Z) :
  0 < d -> 0 <= a -> 1 <= 52 - Age.binary_exponent a d ->
  d < 2 * 2 ^ (52 - Age.binary_exponent a d) ->
  Age.true_divide_int a d = a / d.
Proof.
  intros Hd Ha Hs Hfine. rewrite (true_divide_int_parts a d Hd Ha Hs).
  set (s := 52 - Age.binary_exponent a d) in *.
  assert (0 < 2 ^ s) as Hp by (apply Z.pow_pos_nonneg; lia).
  pose proof (Z.mod_pos_bound a d Hd) as Hr.
  pose proof (round_half_even_half (a mod d * 2 ^ s) d Hd) as Hh.
  pose proof (round_half_even_bounds (a mod d * 2 ^ s) d Hd) as [Hl _].
  assert (0 <= a mod d * 2 ^ s / d) by (apply Z.div_pos; nia).
  rewrite (Z.div_small (Age.round_half_even (a mod d * 2 ^ s) d) (2 ^ s));
    [apply Z.add_0_r|].
  split; [now apply Z.le_trans with (a mod d * 2 ^ s / d)|].
  destruct (Z.lt_ge_cases (Age.round_half_even (a mod d * 2 ^ s) d) (2 ^ s)) as [|Hge];
    [assumption|].
  set (m := Age.round_half_even (a mod d * 2 ^ s) d) in *.
  set (r := a mod d) in *. set (P := 2 ^ s) in *.
  clearbody m r P. clear -Hd Hr Hh Hge Hfine Hp. nia.
Qed.

(** Exact for a whole number of seconds. *)
Lemma true_divide_int_whole (a d : Z) :
  0 < d -> 0 <= a -> 1 <= 52 - Age.binary_exponent a d ->
  a mod d = 0 ->
  Age.true_divide_int a d = a / d.
Proof.
  intros Hd Ha Hs Hr. rewrite (true_divide_int_parts a d Hd Ha Hs), Hr.
  rewrite Z.mul_0_l. replace 0 with (0 * d) at 1 by ring.
  rewrite round_half_even_whole by lia. rewrite Z.div_0_l; [lia|].
  apply Z.pow_nonzero; lia.
Qed.

Lemma binary_exponent_below (a d k : Z) :
  0 < d -> 0 <= a -> 0 <= k -> a < d * 2 ^ k -> Age.binary_exponent a d < k \/ (a < d /\ Age.binary_exponent a d <= 0).
Proof.
  intros Hd Ha Hk Hlt. unfold Age.binary_exponent.
  destruct (Z.leb_spec d a).
  - left. assert (0 < a / d) by (apply Z.div_str_pos; lia).
    apply Z.log2_lt_pow2; [lia|]. apply Z.div_lt_upper_bound; lia.
  - right. split; [lia|]. pose proof (Z.log2_up_nonneg ((d + a - 1) / a)). lia.
Qed.

Lemma binary_exponent_le (a d k : Z) :
  0 < d -> 0 <= a -> 0 <= k -> a < d * 2 ^ k -> Age.binary_exponent a d <= k.
Proof.
  intros Hd Ha Hk Hlt.
  destruct (binary_exponent_below a d k Hd Ha Hk Hlt) as [H|[_ H]]; lia.
Qed.

Lemma true_divide_int_mono (a b d : Z) :
  0 < d < 2 ^ 52 -> 0 <= a <= b -> b < d * 2 ^ 51 ->
  Age.true_divide_int a d <= Age.true_divide_int b d.
Proof.
  intros [Hd Hd52] Hab Hb.
  assert (Age.binary_exponent a d <= 51) as Ea by (apply binary_exponent_le; lia).
  assert (Age.binary_exponent b d <= 51) as Eb by (apply binary_exponent_le; lia).
  assert (a / d <= b / d) as Hq by (apply Z.div_le_mono; lia).
  destruct (Z.eq_dec (a / d) (b / d)) as [E|N].
  - destruct (Z.leb_spec d a) as [Hda|Hda].
    + (* same exponent *)
      assert (Age.binary_exponent a d = Age.binary_exponent b d) as Ee.
      { unfold Age.binary_exponent.
        destruct (Z.leb_spec d a); [|lia]. destruct (Z.leb_spec d b); [|lia].
        now rewrite E. }
      rewrite (true_divide_int_parts a d), (true_divide_int_parts b d) by lia.
      rewrite <- Ee, E. set (s := 52 - Age.binary_exponent a d) in *.
      assert (0 < 2 ^ s) as Hp by (apply Z.pow_pos_nonneg; lia).
      apply Z.add_le_mono_l. apply Z.div_le_mono; [lia|].
      apply round_half_even_mono; [lia|].
      assert (a mod d <= b mod d).
      { pose proof (Z.div_mod a d ltac:(lia)). pose proof (Z.div_mod b d ltac:(lia)).
        rewrite E in *. nia. }
      nia.
    + (* both below one second *)
      assert (b < d).
      { rewrite (Z.div_small a d) in E by lia.
        destruct (Z.lt_ge_cases b d); [assumption|].
        assert (0 < b / d) by (apply Z.div_str_pos; lia). lia. }
      assert (forall x, 0 <= x < d -> Age.true_divide_int x d = x / d) as Hsmall.
      { intros x Hx.
        assert (Age.binary_exponent x d <= 0) as Hx0.
        { unfold Age.binary_exponent. destruct (Z.leb_spec d x); [lia|].
          pose proof (Z.log2_up_nonneg ((d + x - 1) / x)). lia. }
        apply true_divide_int_fine; try lia.
        assert (2 ^ 52 <= 2 ^ (52 - Age.binary_exponent x d))
          by (apply Z.pow_le_mono_r; lia).
        lia. }
      rewrite (Hsmall a), (Hsmall b) by lia. lia.
  - pose proof (true_divide_int_near a d Hd ltac:(lia) ltac:(lia)).
    pose proof (true_divide_int_near b d Hd ltac:(lia) ltac:(lia)).
    lia.
Qed.

Lemma Z_quot_abs (x d : Z) : 0 < d -> Z.quot x d = Z.sgn x * (Z.abs x / d).
Proof.
  intros Hd. rewrite (Z.quot_div x d) by lia.
  rewrite (Z.sgn_pos d), (Z.abs_eq d) by lia. ring.
Qed.

(** The bound of a valid time on its distance from the epoch. *)
Lemma valid_distance (t : Age.datetime) :
  valid_datetime t -> Z.abs (t - Age.epoch) < Age.us_per_second * 2 ^ 39.
Proof.
  unfold valid_datetime, Age.datetime_max, Age.epoch, Age.us_per_day, Age.us_per_second.
  intros H. change (2 ^ 39) with 549755813888. lia.
Qed.

Lemma distance_exponent (x k : Z) :
  0 <= k -> Z.abs x < Age.us_per_second * 2 ^ k ->
  Age.binary_exponent (Z.abs x) Age.us_per_second <= k.
Proof.
  intros Hk H. apply binary_exponent_le; solve [lia | reflexivity].
Qed.

Lemma epoch_seconds_exact (t : Age.datetime) :
  Z.abs (t - Age.epoch) < Age.us_per_second * 2 ^ 34
  \/ (valid_datetime t /\ (t - Age.epoch) mod Age.us_per_second = 0) ->
  Age.epoch_seconds t = whole_seconds t.
Proof.
  intros H. unfold Age.epoch_seconds, Age.total_seconds_int, whole_seconds.
  rewrite Z_quot_abs by reflexivity. f_equal.
  destruct H as [H|[Hv Hm]].
  - pose proof (binary_exponent_below (Z.abs (t - Age.epoch)) Age.us_per_second 34
                  ltac:(reflexivity) ltac:(lia) ltac:(lia) H) as He.
    apply true_divide_int_fine; try reflexivity; try lia.
    assert (2 ^ 19 <= 2 ^ (52 - Age.binary_exponent (Z.abs (t - Age.epoch)) Age.us_per_second))
      by (apply Z.pow_le_mono_r; lia).
    change (2 ^ 19) with 524288 in *. unfold Age.us_per_second at 1. lia.
  - pose proof (distance_exponent _ 39 ltac:(lia) (valid_distance t Hv)) as He.
    apply true_divide_int_whole; try reflexivity; try lia.
    destruct (Z.abs_spec (t - Age.epoch)) as [[_ ->]|[_ ->]]; [exact Hm|].
    apply Z.mod_divide in Hm; [|discriminate]. apply Z.mod_divide; [discriminate|].
    now apply Z.divide_opp_r.
Qed.

Lemma epoch_seconds_mono (t1 t2 : Age.datetime) :
  valid_datetime t1 -> valid_datetime t2 -> t1 <= t2 ->
  Age.epoch_seconds t1 <= Age.epoch_seconds t2.
Proof.
  intros H1 H2 Hle.
  pose proof (valid_distance t1 H1) as D1. pose proof (valid_distance t2 H2) as D2.
  assert (forall x, Z.abs x < Age.us_per_second * 2 ^ 39 ->
                    0 <= Age.true_divide_int (Z.abs x) Age.us_per_second) as Hpos.
  { intros x Hx.
    pose proof (distance_exponent _ 39 ltac:(lia) Hx).
    pose proof (true_divide_int_near (Z.abs x) Age.us_per_second
                  ltac:(reflexivity) ltac:(lia) ltac:(lia)).
    assert (0 <= Z.abs x / Age.us_per_second) by (apply Z.div_pos; [lia | reflexivity]).
    lia. }
  assert (forall x y, 0 <= x <= y -> y < Age.us_per_second * 2 ^ 39 ->
                      Age.true_divide_int x Age.us_per_second
                      <= Age.true_divide_int y Age.us_per_second) as Hmono.
  { intros x y Hxy Hy. apply true_divide_int_mono; [split; reflexivity | lia|].
    assert (Age.us_per_second * 2 ^ 39 <= Age.us_per_second * 2 ^ 51) by (vm_compute; discriminate).
    lia. }
  unfold Age.epoch_seconds, Age.total_seconds_int.
  pose proof (Hpos _ D1). pose proof (Hpos _ D2).
  destruct (Z.sgn_spec (t1 - Age.epoch)) as [[S1 ->]|[[S1 ->]|[S1 ->]]];
    destruct (Z.sgn_spec (t2 - Age.epoch)) as [[S2 ->]|[[S2 ->]|[S2 ->]]]; try lia.
  - pose proof (Hmono (Z.abs (t1 - Age.epoch)) (Z.abs (t2 - Age.epoch)) ltac:(lia) D2). lia.
  - pose proof (Hmono (Z.abs (t2 - Age.epoch)) (Z.abs (t1 - Age.epoch)) ltac:(lia) D1). lia.
Qed.

(** The seconds of the code are the whole seconds or one second further
    from the epoch. *)
Lemma epoch_seconds_or (t : Age.datetime) :
  valid_datetime t ->
  Age.epoch_seconds t = whole_seconds t
  \/ Age.epoch_seconds t = whole_seconds t + Z.sgn (t - Age.epoch).
Proof.
  intros Hv. pose proof (valid_distance t Hv) as Hd.
  pose proof (distance_exponent _ 39 ltac:(lia) Hd) as He.
  unfold Age.epoch_seconds, Age.total_seconds_int, whole_seconds.
  rewrite Z_quot_abs by reflexivity.
  pose proof (true_divide_int_near (Z.abs (t - Age.epoch)) Age.us_per_second
                ltac:(reflexivity) ltac:(lia) ltac:(lia)) as Hn.
  set (q := Z.abs (t - Age.epoch) / Age.us_per_second) in *.
  set (v := Age.true_divide_int (Z.abs (t - Age.epoch)) Age.us_per_second) in *.
  clearbody q v.
  assert (v = q \/ v = q + 1) as [->| ->] by lia; [now left | right; ring].
Qed.

End SecondsFacts.

(** C9, as amended.  For a reference time within years 1 to 9999: no age
    or an empty one gives none; an age whose last character is no unit
    and that reads as an integer gives that integer (in particular a run
    of digits gives its decimal value); an integer followed by one of the
    units s, m, h, d, w gives the epoch seconds of the reference time
    less that many seconds, minutes, hours, days or weeks when that time
    also lies within years 1 to 9999, and is refused as an invalid age
    when it does not; and an age whose integer part does not read as an
    integer is refused as an invalid age.  The epoch seconds of a time
    are what [int(total_seconds())] gives: the seconds since the epoch as
    the nearest double, cut toward zero.  They are the whole seconds,
    counted toward zero, when the time is less than [2 ^ 34] seconds from
    the epoch or a whole number of seconds from it, and in every case the
    whole seconds or one second further from the epoch. *)
Theorem age_to_create_time_cases (from_time : Age.datetime)
        (Hvalid : valid_datetime from_time) :
  (Age.age_to_create_time None from_time = Ok None
   /\ Age.age_to_create_time (Some "") from_time = Ok None)
  /\ (forall init last n,
         unit_seconds last = None ->
         Age.int (init ++ String last "") = Ok n ->
         Age.age_to_create_time (Some (init ++ String last "")) from_time
         = Ok (Some n))
  /\ (forall init unit secs n,
         unit_seconds unit = Some secs ->
         Age.int init = Ok n ->
         (valid_datetime (time_before from_time n secs) ->
          Age.age_to_create_time (Some (init ++ String unit "")) from_time
          = Ok (Some (Age.epoch_seconds (time_before from_time n secs))))
         /\ (~ valid_datetime (time_before from_time n secs) ->
             Age.age_to_create_time (Some (init ++ String unit "")) from_time
             = Raise (ValueError (UnableToParseAge (init ++ String unit "")))))
  /\ (forall c digits,
         Str.forallb Str.is_digit (String c digits) = true ->
         Age.age_to_create_time (Some (String c digits)) from_time
         = Ok (Some (decimal_value (String c digits))))
  /\ (forall init last e,
         match unit_seconds last with
         | Some _ => Age.int init = Raise e
         | None => Age.int (init ++ String last "") = Raise e
         end ->
         Age.age_to_create_time (Some (init ++ String last "")) from_time
         = Raise (ValueError (UnableToParseAge (init ++ String last ""))))
  /\ (forall t,
         valid_datetime t ->
         ((Z.abs (t - Age.epoch) < 2 ^ 34 * Age.us_per_second)%Z
          \/ ((t - Age.epoch) mod Age.us_per_second = 0)%Z ->
          Age.epoch_seconds t = whole_seconds t)
         /\ (Age.epoch_seconds t = whole_seconds t
             \/ Age.epoch_seconds t
                = (whole_seconds t + Z.sgn (t - Age.epoch))%Z)).
Proof.
  assert (forall init last n,
             unit_seconds last = None ->
             Age.int (init ++ String last "") = Ok n ->
             Age.age_to_create_time (Some (init ++ String last "")) from_time
             = Ok (Some n)) as Hbare.
  { intros init last n Hu Hint. rewrite age_to_create_time_snoc.
    unfold Age.age_body. rewrite split_last_snoc, unit_us_seconds, Hu.
    cbn [option_map]. now rewrite Hint. }
  split; [split; reflexivity|]. split; [exact Hbare|]. split; [|split; [|split]].
  - intros init unit secs n Hu Hint.
    assert (Age.age_body (init ++ String unit "") from_time
            = (interval <- Age.timedelta_new (n * (secs * Age.us_per_second))%Z ;;
               start <- Age.datetime_sub from_time interval ;;
               Ok (Age.epoch_seconds start))) as Hbody.
    { unfold Age.age_body. rewrite split_last_snoc, unit_us_seconds, Hu.
      cbn [option_map]. now rewrite Hint. }
    rewrite age_to_create_time_snoc, Hbody. unfold time_before.
    rewrite <- Z.mul_assoc. split; intros H.
    + destruct (in_range_interval _ _ Hvalid H) as [-> Hsub]. cbn [bind].
      now rewrite Hsub.
    + now rewrite (out_of_range_interval _ _ H).
  - intros c digits H. pose proof (int_digits _ _ H) as Hint.
    destruct (snoc_decomp c digits) as (init & last & E). rewrite E in *.
    apply Hbare; [|exact Hint].
    apply digit_not_unit. now apply forallb_snoc in H.
  - intros init last e H. rewrite age_to_create_time_snoc.
    unfold Age.age_body. rewrite split_last_snoc, unit_us_seconds.
    destruct (unit_seconds last) as [secs|]; cbn [option_map];
      rewrite H; try cbn [bind]; now rewrite (int_raises_value_error _ _ H).
  - intros t Ht. split; [|now apply epoch_seconds_or].
    intros [H|H]; apply epoch_seconds_exact; [left | right; now split].
    now rewrite Z.mul_comm.
Qed.

Lemma age_to_create_time_cases_witness :
  Age.age_to_create_time (Some "1h") (Age.epoch + 7200 * Age.us_per_second)%Z
  = Ok (Some 3600%Z).
Proof.
  assert (valid_datetime (Age.epoch + 7200 * Age.us_per_second)%Z) as Hvalid.
  { unfold valid_datetime. split; vm_compute; discriminate. }
  apply (proj1 (proj1 (proj2 (proj2 (age_to_create_time_cases _ Hvalid)))
                  "1" "h"%char 3600%Z 1%Z eq_refl eq_refl)).
  unfold valid_datetime. split; vm_compute; discriminate.
Defined.

(** C9 as stated fails: a million days before two hours past the epoch
    is before year 1, so the age, an integer with a unit, is refused
    instead of giving the epoch seconds of that time. *)
Lemma age_before_year_one :
  valid_datetime (Age.epoch + 7200 * Age.us_per_second)%Z
  /\ Age.int "1000000" = Ok 1000000%Z
  /\ unit_seconds "d" = Some 86400%Z
  /\ Age.age_to_create_time (Some "1000000d") (Age.epoch + 7200 * Age.us_per_second)%Z
     = Raise (ValueError (UnableToParseAge "1000000d")).
Proof.
  repeat split; try reflexivity; vm_compute; discriminate.
Qed.

(** The seconds of a time far from the epoch can be one more than its
    whole seconds: 250000 days before one microsecond past noon of
    2026-11-04 is one microsecond short of 19806206400 seconds before the
    epoch, and the nearest double is that whole number. *)
Example age_rounded_seconds :
  Age.age_to_create_time (Some "250000d") 63929390400000001%Z
  = Ok (Some (-19806206400)%Z)
  /\ whole_seconds (time_before 63929390400000001%Z 250000 86400)
     = (-19806206399)%Z.
Proof. split; reflexivity. Qed.

Example age_ten : forall from_time,
    Age.age_to_create_time (Some "10") from_time = Ok (Some 10%Z).
Proof. reflexivity. Qed.

Example age_bogus : forall from_time,
    Age.age_to_create_time (Some "bogus") from_time
    = Raise (ValueError (UnableToParseAge "bogus")).
Proof. reflexivity. Qed.

(** ** URI parts *)

Lemma rstrip_unfold (cs : string) (c : ascii) (r : string) :
  Str.rstrip cs (String c r) =
  match Str.rstrip cs r with
  | EmptyString => if Str.char_in c cs then EmptyString else String c EmptyString
  | r' => String c r'
  end.
Proof. reflexivity. Qed.

(** [rstrip] removes a suffix made of the stripped characters. *)
Lemma rstrip_decomp (cs s : string) :
  exists k, s = Str.rstrip cs s ++ k /\ Str.forallb (fun c => Str.char_in c cs) k = true.
Proof.
  induction s as [|c s (k & Hk & Hall)].
  - now exists "".
  - rewrite rstrip_unfold. destruct (Str.rstrip cs s) as [|x r'] eqn:E.
    + destruct (Str.char_in c cs) eqn:Hc.
      * exists (String c s). split; [reflexivity|]. cbn [Str.forallb].
        rewrite Hc. cbn in Hk. now rewrite Hk.
      * exists s. split; [reflexivity|]. cbn in Hk. now rewrite Hk.
    + exists k. split; [|exact Hall]. cbn [append] in Hk |- *. now f_equal.
Qed.

Lemma rstrip_not_endswith (c : ascii) (s : string) :
  ~ (exists p, Str.rstrip (String c "") s = p ++ String c "").
Proof.
  induction s as [|x s IH]; intros [p Hp].
  - destruct p; discriminate.
  - rewrite rstrip_unfold in Hp. destruct (Str.rstrip (String c "") s) as [|y r'] eqn:E.
    + cbn [Str.char_in] in Hp. rewrite orb_false_r in Hp.
      destruct (Ascii.eqb_spec x c) as [->|Hne].
      * destruct p; discriminate.
      * destruct p as [|z p]; [injection Hp as ->; contradiction|].
        destruct p; discriminate.
    + destruct p as [|z p]; [discriminate|].
      injection Hp as _ Hp. apply IH. now exists p.
Qed.

Lemma rstrip_fixed (c : ascii) (s : string) :
  ~ (exists p, s = p ++ String c "") -> Str.rstrip (String c "") s = s.
Proof.
  induction s as [|x s IH]; intros H; [reflexivity|].
  rewrite rstrip_unfold.
  destruct s as [|y s'].
  - cbn [Str.rstrip Str.char_in]. rewrite orb_false_r.
    destruct (Ascii.eqb_spec x c) as [->|_]; [|reflexivity].
    exfalso. apply H. now exists "".
  - assert (~ (exists p, String y s' = p ++ String c "")) as Hs.
    { intros [p Hp]. apply H. exists (String x p). cbn [append]. now rewrite <- Hp. }
    now rewrite (IH Hs).
Qed.

Lemma rstrip_snoc (c : ascii) (s : string) :
  Str.rstrip (String c "") (s ++ String c "") = Str.rstrip (String c "") s.
Proof.
  induction s as [|x s IH].
  - cbn. now rewrite Ascii.eqb_refl.
  - cbn [append]. rewrite !rstrip_unfold, IH. reflexivity.
Qed.

Lemma directory_fmt_ends_in_slash (directory : string) :
  exists p, directory_fmt directory = p ++ "/".
Proof. now exists (Str.rstrip "/" directory). Qed.

Lemma cut_of_last_slash (d f : string) :
  ~ occurs "/" f -> posixpath.cut (d ++ "/" ++ f) = (d ++ "/", f).
Proof.
  intros Hf. apply not_occurs_char in Hf.
  induction d as [|c d IH].
  - cbn [append posixpath.cut]. rewrite Hf. reflexivity.
  - change (String c d ++ "/" ++ f) with (String c (d ++ "/" ++ f)).
    cbn [posixpath.cut]. rewrite IH.
    replace (Str.char_in "/" (d ++ "/" ++ f)) with true; [reflexivity|].
    symmetry. apply char_in_occurs. now exists d, f.
Qed.

Lemma cut_tail_no_slash (p : string) :
  Str.char_in "/" (snd (posixpath.cut p)) = false.
Proof.
  induction p as [|c p IH]; [reflexivity|].
  cbn [posixpath.cut]. destruct (Str.char_in "/" p) eqn:E.
  - destruct (posixpath.cut p). exact IH.
  - destruct (Ascii.eqb c "/") eqn:Ec; cbn [snd]; [exact E|].
    cbn [Str.char_in]. rewrite Ascii.eqb_sym, Ec. exact E.
Qed.

Lemma all_slashes_snoc (d : string) :
  d <> "" -> ~ (exists p, d = p ++ "/") ->
  Str.forallb (Ascii.eqb "/") (d ++ "/") = false.
Proof.
  induction d as [|c d IH]; intros Hne Hend; [contradiction|].
  cbn [append Str.forallb]. destruct (Ascii.eqb_spec "/"%char c) as [<-|_]; [|reflexivity].
  cbn [andb]. destruct d as [|x d'].
  - exfalso. apply Hend. now exists "".
  - apply IH; [discriminate|]. intros [p Hp]. apply Hend.
    exists (String "/" p). now rewrite Hp.
Qed.

(** Splitting at a single last slash loses nothing. *)
Lemma split_round_trip (u : string) :
  last_slash_single u ->
  directory_fmt (posixpath.dirname u) ++ posixpath.basename u = u.
Proof.
  intros (d & f & -> & Hf & Hd).
  unfold posixpath.dirname, posixpath.basename, posixpath.split.
  rewrite (cut_of_last_slash _ _ Hf). cbn [fst snd].
  unfold posixpath.strip_head, directory_fmt.
  destruct d as [|c d'].
  - reflexivity.
  - assert (String c d' <> "") as Hne by discriminate.
    rewrite (all_slashes_snoc _ Hne Hd).
    change (Str.nonempty (String c d' ++ "/")) with true. cbn [negb andb].
    rewrite rstrip_snoc, !(rstrip_fixed _ _ Hd). now rewrite append_assoc.
Qed.

Lemma startswith_slash_char_in (f : string) :
  Str.char_in "/" f = false -> Str.startswith f "/" = false.
Proof.
  destruct f as [|c f]; [reflexivity|]. cbn [Str.char_in].
  intros H. apply orb_false_iff in H as [H _].
  unfold Str.startswith. cbn [String.prefix].
  destruct (ascii_dec "/" c) as [<-|_]; [discriminate H | reflexivity].
Qed.

Lemma join_directory (a f : string) :
  Str.char_in "/" f = false ->
  posixpath.join (directory_fmt a) f = Str.rstrip "/" a ++ "/" ++ f.
Proof.
  intros Hf. unfold posixpath.join. rewrite (startswith_slash_char_in _ Hf).
  replace (Str.endswith (directory_fmt a) "/") with true.
  - rewrite orb_true_r. unfold directory_fmt. apply append_assoc.
  - symmetry. apply endswith_iff. apply directory_fmt_ends_in_slash.
Qed.

Lemma char_in_not_occurs (c : ascii) (s : string) :
  Str.char_in c s = false -> ~ occurs (String c "") s.
Proof. intros H Ho. apply char_in_occurs in Ho. congruence. Qed.

Lemma local_normalized_single (env : os_env) (raw_uri normalized docker : string) :
  _local_uri_rewriter env raw_uri = Ok (normalized, docker) ->
  last_slash_single normalized.
Proof.
  unfold _local_uri_rewriter, posixpath.split.
  pose proof (cut_tail_no_slash raw_uri) as Hf.
  destruct (posixpath.cut raw_uri) as [head filename]; cbn [snd] in Hf.
  destruct (apply_prefix_replacements (prefix_replacements env)
              (posixpath.strip_head head)) as [normed_path|e];
    cbn [bind]; [|discriminate].
  intros H; injection H as <- _. rewrite (join_directory _ _ Hf).
  eexists _, filename. split; [reflexivity|].
  split; [now apply char_in_not_occurs | apply rstrip_not_endswith].
Qed.

Lemma directory_single (raw_uri : string) :
  last_slash_single (directory_fmt raw_uri).
Proof.
  exists (Str.rstrip "/" raw_uri), "". split; [reflexivity|].
  split; [|apply rstrip_not_endswith].
  apply contains_false_iff. reflexivity.
Qed.

(** For the parts that [parse_uri] returns, the path prefix ends in a
    slash, and the prefix followed by the base name is the normalized URI
    of the rewriter whenever the last slash of that URI is not directly
    preceded by another slash, which is always so for a local URI and for
    a recursive reference. *)
Lemma uri_parts_round_trip (self : FileParamUtil) (env : os_env)
        (raw_uri : string) (rec : bool)
        (docker : string) (parts : UriParts) (prov : provider) :
  parse_uri self env raw_uri rec = Ok (docker, parts, prov) ->
  exists normalized,
    rewrite_uris self env (if rec then directory_fmt raw_uri else raw_uri) prov
    = Ok (normalized, docker)
    /\ (exists p, path parts = p ++ "/")
    /\ (prov = P_LOCAL \/ rec = true \/ last_slash_single normalized ->
        path parts ++ basename parts = normalized).
Proof.
  unfold parse_uri.
  set (raw := if rec then directory_fmt raw_uri else raw_uri).
  destruct (parse_file_provider raw) as [file_provider|e]; cbn [bind]; [|discriminate].
  destruct (_validate_paths_or_fail raw rec) as [[]|e]; cbn [bind]; [|discriminate].
  destruct (rewrite_uris self env raw file_provider) as [[u docker_uri]|e] eqn:E;
    cbn [bind]; [|discriminate].
  intros H; injection H as <- <- <-. exists u.
  split; [exact E|]. split; [apply directory_fmt_ends_in_slash|].
  cbn [path basename UriParts_new]. intros H. apply split_round_trip.
  unfold rewrite_uris in E.
  destruct H as [->|[->|H]]; [| |exact H].
  - destruct (_local_uri_rewriter env raw) as [[n d]|e] eqn:El; cbn [bind] in E;
      [|discriminate].
    injection E as <- _. eapply local_normalized_single; eassumption.
  - destruct file_provider.
    + destruct (_local_uri_rewriter env raw) as [[n d]|e] eqn:El; cbn [bind] in E;
        [|discriminate].
      injection E as <- _. eapply local_normalized_single; eassumption.
    + cbn [bind _gcs_uri_rewriter] in E. injection E as <- _.
      apply directory_single.
Qed.

Example uri_parts_round_trip_local :
  exists normalized,
    rewrite_uris (InputFileParamUtil "input") example_env "~/data/x.bam" P_LOCAL
    = Ok (normalized, "input/file/_home_/data/x.bam")
    /\ (exists p, "/home/u/data/" = p ++ "/")
    /\ (P_LOCAL = P_LOCAL \/ false = true \/ last_slash_single normalized ->
        "/home/u/data/" ++ "x.bam" = normalized).
Proof.
  exact (uri_parts_round_trip (InputFileParamUtil "input") example_env
           "~/data/x.bam" false "input/file/_home_/data/x.bam"
           (mkUriParts "/home/u/data/" "x.bam") P_LOCAL eq_refl).
Defined.

(** C3 fails on the code.  The rewriter leaves a cloud URI as it is, and
    the parts built from one with two slashes before the base name join to
    a different string, which names another object. *)
Theorem uri_parts_double_slash :
  rewrite_uris (InputFileParamUtil "input") example_env "gs://bucket//file.txt" P_GCS
  = Ok ("gs://bucket//file.txt", "input/gs/bucket//file.txt")
  /\ parse_uri (InputFileParamUtil "input") example_env "gs://bucket//file.txt" false
     = Ok ("input/gs/bucket//file.txt", mkUriParts "gs://bucket/" "file.txt", P_GCS)
  /\ uri_str (mkUriParts "gs://bucket/" "file.txt") = "gs://bucket/file.txt"
  /\ "gs://bucket/file.txt" <> "gs://bucket//file.txt".
Proof. repeat split; discriminate. Qed.

(** A bucket without an object loses a slash of its scheme in the same
    way. *)
Example uri_parts_bucket_only :
  parse_uri (InputFileParamUtil "input") example_env "gs://bucket" false
  = Ok ("input/gs/bucket", mkUriParts "gs:/" "bucket", P_GCS).
Proof. reflexivity. Qed.

(** ** Container path of a local URI *)

Lemma occurs_app_r (sub a b : string) : occurs sub b -> occurs sub (a ++ b).
Proof.
  intros (x & y & ->). exists (a ++ x), y. now rewrite append_assoc.
Qed.

Lemma occurs_app_l (sub a b : string) : occurs sub a -> occurs sub (a ++ b).
Proof.
  intros (x & y & ->). exists x, (y ++ b). now rewrite !append_assoc.
Qed.

Lemma drop_decomp (n : nat) (s : string) : exists p, s = p ++ Str.drop n s.
Proof.
  revert s; induction n as [|n IH]; intros s.
  - now exists "".
  - destruct s as [|c s]; [now exists ""|].
    destruct (IH s) as [p Hp]. exists (String c p). cbn. now f_equal.
Qed.

Lemma lstrip_decomp (cs s : string) : exists p, s = p ++ Str.lstrip cs s.
Proof.
  induction s as [|c s [p Hp]]; [now exists ""|].
  cbn [Str.lstrip]. destruct (Str.char_in c cs).
  - exists (String c p). cbn. now f_equal.
  - now exists "".
Qed.

Lemma lstrip_head (cs s : string) (c : ascii) (r : string) :
  Str.lstrip cs s = String c r -> Str.char_in c cs = false.
Proof.
  induction s as [|x s IH]; cbn [Str.lstrip]; [discriminate|].
  destruct (Str.char_in x cs) eqn:E; [exact IH|].
  intros H; injection H as <- _. exact E.
Qed.

Lemma prefix_dotdot (s : string) :
  String.prefix ".." s = true <-> exists r, s = String "." (String "." r).
Proof.
  rewrite prefix_iff. split; intros [r ->]; now exists r.
Qed.

Lemma sub_slash_dotdot_unfold (c : ascii) (r : string) :
  Re.sub_slash_dotdot (String c r)
  = if Ascii.eqb c "/" && String.prefix ".." r
    then "/_dotdot_" ++ Re.sub_slash_dotdot (Str.drop 2 r)
    else String c (Re.sub_slash_dotdot r).
Proof.
  destruct r as [|c1 [|c2 r']].
  - cbn. now rewrite andb_false_r.
  - cbn [Re.sub_slash_dotdot String.prefix].
    destruct (ascii_dec "." c1); now rewrite andb_false_r.
  - cbn [Re.sub_slash_dotdot String.prefix Str.drop].
    destruct (ascii_dec "." c1) as [<-|N1].
    + destruct (ascii_dec "." c2) as [<-|N2].
      * destruct r'; now rewrite !andb_true_r.
      * replace (Ascii.eqb c2 ".") with false; [now rewrite !andb_false_r|].
        symmetry. apply Ascii.eqb_neq. congruence.
    + replace (Ascii.eqb c1 ".") with false; [now rewrite !andb_false_r|].
      symmetry. apply Ascii.eqb_neq. congruence.
Qed.

Lemma sub_slash_dotdot_head (s : string) (c : ascii) (r : string) :
  Re.sub_slash_dotdot s = String c r -> exists r', s = String c r'.
Proof.
  destruct s as [|x s]; [discriminate|]. rewrite sub_slash_dotdot_unfold.
  destruct (Ascii.eqb_spec x "/") as [->|_]; cbn [andb].
  - destruct (String.prefix ".." s); intros H; injection H as <- _; eauto.
  - intros H; injection H as <- _; eauto.
Qed.

Lemma sub_slash_dotdot_prefix (r : string) :
  String.prefix ".." (Re.sub_slash_dotdot r) = true -> String.prefix ".." r = true.
Proof.
  intros H. apply prefix_dotdot in H as [t Ht]. apply prefix_dotdot.
  destruct r as [|c1 r1]; [discriminate|]. rewrite sub_slash_dotdot_unfold in Ht.
  destruct (Ascii.eqb_spec c1 "/") as [->|_]; cbn [andb] in Ht.
  { destruct (String.prefix ".." r1); discriminate. }
  injection Ht as -> Ht. apply sub_slash_dotdot_head in Ht as [r2 ->]. now exists r2.
Qed.

Lemma sub_slash_dotdot_clean_fuel (n : nat) :
  forall s, (String.length s <= n)%nat ->
            Str.contains "/.." (Re.sub_slash_dotdot s) = false.
Proof.
  induction n as [|n IH]; intros s Hn.
  - destruct s; [reflexivity | cbn in Hn; lia].
  - destruct s as [|c r]; [reflexivity|]. cbn [String.length] in Hn.
    rewrite sub_slash_dotdot_unfold.
    destruct (Ascii.eqb_spec c "/") as [->|Hc]; cbn [andb].
    + destruct (String.prefix ".." r) eqn:Hp.
      * apply prefix_dotdot in Hp as [r' ->]. cbn [Str.drop String.length] in *.
        assert (Str.contains "/.." (Re.sub_slash_dotdot r') = false) as H
            by (apply IH; lia).
        cbn. exact H.
      * rewrite contains_unfold. rewrite IH by lia. rewrite orb_false_r.
        cbn [String.prefix]. destruct (ascii_dec "/" "/"); [|reflexivity].
        destruct (String.prefix ".." (Re.sub_slash_dotdot r)) eqn:E; [|reflexivity].
        apply sub_slash_dotdot_prefix in E. congruence.
    + rewrite contains_unfold. rewrite IH by lia. rewrite orb_false_r.
      cbn [String.prefix]. destruct (ascii_dec "/" c); [congruence | reflexivity].
Qed.

Lemma sub_slash_dotdot_clean (s : string) :
  ~ occurs "/.." (Re.sub_slash_dotdot s).
Proof.
  apply contains_false_iff. now apply (sub_slash_dotdot_clean_fuel (String.length s)).
Qed.

Lemma sub_lead_dotdot_clean (s : string) :
  ~ occurs "/.." s -> ~ occurs "/.." (Re.sub_lead_dotdot s).
Proof.
  unfold Re.sub_lead_dotdot, Str.startswith. intros H.
  destruct (String.prefix ".." s) eqn:E; [|exact H].
  apply prefix_dotdot in E as [r ->]. cbn [Str.drop].
  intros Ho. apply H. apply contains_occurs. apply contains_occurs in Ho.
  cbn in Ho. cbn. exact Ho.
Qed.

Lemma sub_lead_home_clean (s : string) :
  ~ occurs "/.." s -> ~ occurs "/.." (Re.sub_lead_home s).
Proof.
  unfold Re.sub_lead_home, Str.startswith. intros H.
  destruct (String.prefix "~/" s) eqn:E; [|exact H].
  apply prefix_iff in E as [r ->]. cbn [append Str.drop].
  intros Ho. apply H. apply contains_occurs. apply contains_occurs in Ho.
  cbn in Ho. cbn. exact Ho.
Qed.

Lemma sub_lead_file_clean (s : string) :
  ~ occurs "/.." s -> ~ occurs "/.." (Re.sub_lead_file s).
Proof.
  unfold Re.sub_lead_file. intros H. destruct (Str.startswith s "file:/"); [|exact H].
  intros Ho. apply H. destruct (drop_decomp 6 s) as [p Hp]. rewrite Hp.
  now apply occurs_app_r.
Qed.

Lemma docker_rewrites_clean (s : string) :
  ~ occurs "/.." (apply_docker_rewrites s).
Proof.
  unfold apply_docker_rewrites, docker_rewrites. cbn [fold_left].
  apply sub_lead_file_clean, sub_lead_home_clean, sub_lead_dotdot_clean,
    sub_slash_dotdot_clean.
Qed.

Lemma split_nonempty (sep : ascii) (s : string) : Str.split sep s <> [].
Proof.
  destruct s as [|c s]; cbn [Str.split]; [discriminate|].
  destruct (Ascii.eqb c sep); [discriminate|].
  destruct (Str.split sep s); discriminate.
Qed.

Lemma split_absent (sep : ascii) (s : string) :
  Str.char_in sep s = false -> Str.split sep s = [s].
Proof.
  induction s as [|c s IH]; cbn [Str.split Str.char_in]; [reflexivity|].
  intros H. apply orb_false_iff in H as [Hc Hs].
  rewrite Ascii.eqb_sym in Hc. now rewrite Hc, (IH Hs).
Qed.

Lemma split_app (sep : ascii) (a b : string) :
  Str.split sep (a ++ String sep b) = (Str.split sep a ++ Str.split sep b)%list.
Proof.
  induction a as [|c a IH]; cbn [append Str.split].
  - now rewrite Ascii.eqb_refl.
  - destruct (Ascii.eqb c sep); rewrite IH; [reflexivity|].
    pose proof (split_nonempty sep a) as Hne.
    destruct (Str.split sep a); [contradiction | reflexivity].
Qed.

(** The first component starts the string; each later one follows a
    separator. *)
Lemma split_components (sep : ascii) (s : string) :
  forall h t, Str.split sep s = h :: t ->
              (exists b, s = h ++ b)
              /\ (forall comp, In comp t -> occurs (String sep comp) s).
Proof.
  induction s as [|c s IH]; intros h t H.
  - injection H as <- <-. split; [now exists "" | intros comp []].
  - cbn [Str.split] in H. destruct (Ascii.eqb_spec c sep) as [->|Hc].
    + injection H as <- <-. split; [now exists (String sep s)|].
      intros comp Hin. destruct (Str.split sep s) as [|h' t'] eqn:E; [destruct Hin|].
      destruct (IH _ _ eq_refl) as [[b Hb] Ht].
      destruct Hin as [<-|Hin].
      * exists "", b. cbn. now f_equal.
      * apply (occurs_app_r _ (String sep "")). cbn. now apply Ht.
    + destruct (Str.split sep s) as [|h' t'] eqn:E.
      * injection H as <- <-. split; [now exists s | intros comp []].
      * injection H as <- <-. destruct (IH _ _ eq_refl) as [[b Hb] Ht].
        split; [exists b; cbn; now f_equal|].
        intros comp Hin. apply (occurs_app_r _ (String c "")). now apply Ht.
Qed.

Lemma validate_filename (uri : string) (recursive : bool) :
  _validate_paths_or_fail uri recursive = Ok tt ->
  snd (posixpath.split uri) <> "..".
Proof.
  unfold _validate_paths_or_fail.
  destruct (posixpath.split uri) as [directory filename]; cbn [snd].
  destruct (Str.contains "[" uri || Str.contains "]" uri); [discriminate|].
  destruct (Str.contains "?" uri); [discriminate|].
  destruct (Str.contains "*" directory); [discriminate|].
  destruct (Str.contains "**" filename); [discriminate|].
  destruct (String.eqb_spec filename ".."); cbn [orb]; [discriminate | auto].
Qed.

(** The directory of the container path: it is [file], kept whole, and
    then the rewritten directory without its final slashes. *)
Lemma docker_directory (x : string) :
  Str.startswith x "/" = false ->
  exists y, Str.rstrip "/" ("file/" ++ x) = "file" ++ y
            /\ exists k, "/" ++ x = y ++ k.
Proof.
  intros Hx. destruct (rstrip_decomp "/" x) as (k & Hk & _).
  cbn [append]. rewrite !rstrip_unfold.
  destruct (Str.rstrip "/" x) as [|c r] eqn:E.
  - exists "". split; [reflexivity|]. now exists ("/" ++ x).
  - exists ("/" ++ String c r). split; [reflexivity|].
    exists k. cbn [append]. cbn [append] in Hk. now rewrite <- Hk.
Qed.

Lemma local_docker_path_shape (raw_path filename : string) :
  Str.char_in "/" filename = false ->
  filename <> ".." ->
  (exists r, local_docker_path raw_path filename = "file/" ++ r)
  /\ ~ In ".." (Str.split "/" (local_docker_path raw_path filename)).
Proof.
  intros Hf Hdd. unfold local_docker_path, directory_fmt.
  set (x := Str.lstrip "./" (apply_docker_rewrites (posixpath.normpath raw_path))).
  assert (~ occurs "/.." x) as Hclean.
  { intros Ho. apply (docker_rewrites_clean (posixpath.normpath raw_path)).
    destruct (lstrip_decomp "./" (apply_docker_rewrites (posixpath.normpath raw_path)))
      as [p Hp].
    rewrite Hp. now apply occurs_app_r. }
  assert (Str.startswith x "/" = false /\ Str.startswith x "." = false) as [Hs Hd].
  { destruct x as [|c r] eqn:E; [split; reflexivity|].
    apply lstrip_head in E. cbn [Str.char_in] in E.
    apply orb_false_iff in E as [E1 E2]. apply orb_false_iff in E2 as [E2 _].
    unfold Str.startswith. cbn [String.prefix].
    split.
    - destruct (ascii_dec "/" c) as [<-|_]; [discriminate E2 | reflexivity].
    - destruct (ascii_dec "." c) as [<-|_]; [discriminate E1 | reflexivity]. }
  destruct (docker_directory x Hs) as (y & Hy & k & Hk). rewrite Hy.
  split.
  - destruct y as [|c y'].
    + now exists filename.
    + destruct k; cbn [append] in Hk; injection Hk as <- _;
        exists (y' ++ "/" ++ filename); cbn [append]; now rewrite append_assoc.
  - change (("file" ++ y) ++ "/") with (("file" ++ y) ++ String "/" "").
    rewrite append_assoc.
    change (String "/" "" ++ filename) with (String "/" filename).
    rewrite split_app, (split_absent _ _ Hf). intros Hin.
    apply in_app_or in Hin as [Hin|[Hin|[]]]; [|congruence].
    destruct (Str.split "/" ("file" ++ y)) as [|h t] eqn:E;
      [now apply split_nonempty in E|].
    destruct (split_components _ _ _ _ E) as [[b Hb] Ht].
    destruct Hin as [->|Hin]; [discriminate Hb|].
    apply Ht in Hin. apply Hclean.
    assert (occurs "/.." ("/" ++ x)) as Ho.
    { rewrite Hk. apply occurs_app_l.
      apply contains_occurs. apply contains_occurs in Hin. cbn in Hin. cbn.
      exact Hin. }
    apply contains_occurs in Ho. apply contains_occurs.
    rewrite contains_unfold in Ho. apply orb_true_iff in Ho as [Ho|Ho]; [|exact Ho].
    exfalso. cbn [append String.prefix] in Ho.
    destruct (ascii_dec "/" "/"); [|discriminate].
    destruct x as [|c r]; [discriminate|].
    unfold Str.startswith in Hd. cbn [String.prefix] in Hd, Ho.
    destruct (ascii_dec "." c); [|discriminate]. destruct r; discriminate.
Qed.

Lemma prefix_dotdot_snoc (z : string) :
  String.prefix ".." z = false -> String.prefix ".." (z ++ "/") = false.
Proof.
  destruct z as [|c1 [|c2 z]]; cbn [append String.prefix]; try reflexivity.
  - destruct (ascii_dec "." c1); [|reflexivity].
    intros _. destruct (ascii_dec "." "/"); [discriminate | reflexivity].
  - destruct (ascii_dec "." c1); [|reflexivity].
    destruct (ascii_dec "." c2); [|reflexivity]. destruct z; discriminate.
Qed.

Lemma slash_dotdot_snoc (z : string) :
  ~ occurs "/.." z -> ~ occurs "/.." (z ++ "/").
Proof.
  rewrite <- !contains_false_iff. induction z as [|c z IH]; [reflexivity|].
  rewrite contains_unfold. intros H. apply orb_false_iff in H as [Hp Hz].
  cbn [append]. rewrite contains_unfold, (IH Hz), orb_false_r.
  cbn [String.prefix] in Hp |- *. destruct (ascii_dec "/" c); [|reflexivity].
  now apply prefix_dotdot_snoc.
Qed.

(** The directory of the container path starts with [file/], ends in a
    slash and has no [/..] in it. *)
Lemma local_docker_directory (raw_path : string) :
  let x := Str.lstrip "./" (apply_docker_rewrites (posixpath.normpath raw_path)) in
  (exists r, directory_fmt ("file/" ++ x) = "file/" ++ r)
  /\ ~ occurs "/.." (directory_fmt ("file/" ++ x)).
Proof.
  intros x. unfold directory_fmt.
  assert (~ occurs "/.." x) as Hclean.
  { intros Ho. apply (docker_rewrites_clean (posixpath.normpath raw_path)).
    destruct (lstrip_decomp "./" (apply_docker_rewrites (posixpath.normpath raw_path)))
      as [p Hp].
    rewrite Hp. now apply occurs_app_r. }
  assert (Str.startswith x "/" = false /\ Str.startswith x "." = false) as [Hs Hd].
  { destruct x as [|c r] eqn:E; [split; reflexivity|].
    apply lstrip_head in E. cbn [Str.char_in] in E.
    apply orb_false_iff in E as [E1 E2]. apply orb_false_iff in E2 as [E2 _].
    unfold Str.startswith. cbn [String.prefix].
    split.
    - destruct (ascii_dec "/" c) as [<-|_]; [discriminate E2 | reflexivity].
    - destruct (ascii_dec "." c) as [<-|_]; [discriminate E1 | reflexivity]. }
  destruct (docker_directory x Hs) as (y & Hy & k & Hk). rewrite Hy.
  split.
  - destruct y as [|c y'].
    + now exists "".
    + destruct k; cbn [append] in Hk; injection Hk as <- _;
        exists (y' ++ "/"); cbn [append]; reflexivity.
  - apply slash_dotdot_snoc.
    assert (~ occurs "/.." ("/" ++ x)) as Hx.
    { apply contains_false_iff. rewrite contains_unfold.
      apply contains_false_iff in Hclean. cbn [append]. rewrite Hclean, orb_false_r.
      cbn [String.prefix]. destruct (ascii_dec "/" "/"); [|reflexivity].
      destruct x as [|c r]; [reflexivity|].
      unfold Str.startswith in Hd. cbn [String.prefix] in Hd |- *.
      destruct (ascii_dec "." c); [destruct r; discriminate Hd | reflexivity]. }
    assert (~ occurs "/.." y) as Hy'.
    { intros Ho. apply Hx. rewrite Hk. now apply occurs_app_l. }
    apply contains_false_iff. apply contains_false_iff in Hy'.
    cbn. exact Hy'.
Qed.

(** C2, as amended.  For a local URI that passes the path policy check,
    the container path of the rewriter (before the mount prefix is joined)
    starts with [file/] and none of its path components is [..].  It is
    a directory, which starts with [file/], ends in a slash and nowhere
    has [/..] in it, followed by the file name of the URI as it was
    written. *)
Theorem local_container_path (env : os_env) (uri : string) (rec : bool)
        (normalized docker : string) :
  _validate_paths_or_fail uri rec = Ok tt ->
  _local_uri_rewriter env uri = Ok (normalized, docker) ->
  (exists r, docker = "file/" ++ r)
  /\ ~ In ".." (Str.split "/" docker)
  /\ exists directory,
      docker = directory ++ snd (posixpath.split uri)
      /\ (exists r, directory = "file/" ++ r)
      /\ (exists p, directory = p ++ "/")
      /\ ~ occurs "/.." directory.
Proof.
  intros Hv Hr. apply validate_filename in Hv.
  unfold _local_uri_rewriter in Hr. unfold posixpath.split in Hv, Hr |- *.
  pose proof (cut_tail_no_slash uri) as Hf.
  destruct (posixpath.cut uri) as [head filename]; cbn [snd] in Hv, Hf |- *.
  destruct (apply_prefix_replacements (prefix_replacements env)
              (posixpath.strip_head head)) as [normed_path|e];
    cbn [bind] in Hr; [|discriminate].
  injection Hr as _ <-.
  destruct (local_docker_path_shape (posixpath.strip_head head) filename Hf Hv)
    as [Hstart Hcomp].
  split; [exact Hstart|]. split; [exact Hcomp|].
  destruct (local_docker_directory (posixpath.strip_head head)) as [Hd Hclean].
  eexists. split; [reflexivity|]. split; [exact Hd|]. split; [|exact Hclean].
  apply directory_fmt_ends_in_slash.
Qed.

(** With [HOME] set the rewriter always returns. *)
Lemma local_uri_rewriter_total (home cwd uri : string) :
  exists normalized docker,
    _local_uri_rewriter (mkEnv (Some home) cwd) uri = Ok (normalized, docker).
Proof.
  unfold _local_uri_rewriter. destruct (posixpath.split uri) as [raw_path filename].
  assert (forall l p, Forall (fun pr => snd pr <> None) l ->
                      exists q, apply_prefix_replacements l p = Ok q) as Htotal.
  { induction l as [|[prefix [replacement|]] l IH]; intros p Hl.
    - now exists p.
    - inversion Hl; subst. cbn [apply_prefix_replacements].
      destruct (Str.startswith p prefix); [|now apply IH].
      unfold posixpath.join_opt.
      destruct (Str.startswith (Str.drop (String.length prefix) p) "/");
        [|destruct (String.eqb replacement "" || Str.endswith replacement "/")];
        cbn [bind]; now apply IH.
    - inversion Hl; subst. cbn in *. contradiction. }
  destruct (Htotal (prefix_replacements (mkEnv (Some home) cwd)) raw_path) as [q ->].
  { unfold prefix_replacements. cbn [HOME]. repeat constructor; discriminate. }
  cbn [bind]. eauto.
Qed.

Lemma local_container_path_witness :
  (exists r, "file/_dotdot_/upper_dir/x.txt" = "file/" ++ r)
  /\ ~ In ".." (Str.split "/" "file/_dotdot_/upper_dir/x.txt")
  /\ exists directory,
      "file/_dotdot_/upper_dir/x.txt"
      = directory ++ snd (posixpath.split "./../upper_dir/x.txt")
      /\ (exists r, directory = "file/" ++ r)
      /\ (exists p, directory = p ++ "/")
      /\ ~ occurs "/.." directory.
Proof.
  exact (local_container_path example_env "./../upper_dir/x.txt" false
           "/upper_dir/x.txt" "file/_dotdot_/upper_dir/x.txt" eq_refl eq_refl).
Defined.

(** C2 as stated fails: two dots inside a file name pass the policy check
    and reach the container path as they are. *)
Lemma container_path_keeps_dots_in_names :
  parse_file_provider "/tmp/a..b" = Ok P_LOCAL
  /\ _validate_paths_or_fail "/tmp/a..b" false = Ok tt
  /\ _local_uri_rewriter example_env "/tmp/a..b" = Ok ("/tmp/a..b", "file/tmp/a..b")
  /\ Str.contains ".." "file/tmp/a..b" = true.
Proof. repeat split. Qed.

(** Two dots at the start of a directory name are rewritten as the
    parent directory is, although the name is another one. *)
Example container_path_rewrites_leading_dots :
  _validate_paths_or_fail "/a/..b/x" false = Ok tt
  /\ _local_uri_rewriter example_env "/a/..b/x"
     = Ok ("/a/..b/x", "file/a/_dotdot_b/x").
Proof. split; reflexivity. Qed.

(** ** The examples of the docstrings *)

Example local_rewriter_indirect :
  _local_uri_rewriter example_env "/tmp/a_path/../B_PATH/file.txt"
  = Ok ("/tmp/B_PATH/file.txt", "file/tmp/B_PATH/file.txt").
Proof. reflexivity. Qed.

Example local_rewriter_directory :
  _local_uri_rewriter example_env "/myhome/./mydir/"
  = Ok ("/myhome/mydir/", "file/myhome/mydir/").
Proof. reflexivity. Qed.

Example local_rewriter_dotdot :
  _local_uri_rewriter example_env "./../upper_dir/"
  = Ok ("/upper_dir/", "file/_dotdot_/upper_dir/").
Proof. reflexivity. Qed.

Example local_rewriter_home :
  _local_uri_rewriter example_env "~/localdata/*.bam"
  = Ok ("/home/u/localdata/*.bam", "file/_home_/localdata/*.bam").
Proof. reflexivity. Qed.

Example rewrite_uris_gcs :
  rewrite_uris (OutputFileParamUtil "output") example_env "gs://mybucket/myfile.txt" P_GCS
  = Ok ("gs://mybucket/myfile.txt", "output/gs/mybucket/myfile.txt").
Proof. reflexivity. Qed.

Example rewrite_uris_local :
  rewrite_uris (OutputFileParamUtil "output") example_env "./data/myfolder/" P_LOCAL
  = Ok ("/work/data/myfolder/", "output/file/data/myfolder/").
Proof. reflexivity. Qed.

Example rewrite_uris_file_scheme :
  rewrite_uris (InputFileParamUtil "input") example_env "file:///tmp/data/*.bam" P_LOCAL
  = Ok ("/tmp/data/*.bam", "input/file/tmp/data/*.bam").
Proof. reflexivity. Qed.

Example directory_fmt_folder :
  directory_fmt (posixpath.dirname "gs://bucket/folder/file.txt") = "gs://bucket/folder/".
Proof. reflexivity. Qed.

Example directory_fmt_root : directory_fmt (posixpath.dirname "/newfile") = "/".
Proof. reflexivity. Qed.

Example table_of_the_specification :
  fst (tasks_file_to_job_data example_env (mkTasks "tasks.tsv" None None)
         [mkRecord ["--env SAMPLE"; "--input"; "--output OUT"] 0;
          mkRecord ["s1"; "gs://b/in.txt"; "gs://b/out.txt"] 0] initial_state)
  = Ok [mkTask (Some 1%Z) [] [mkEnvParam "SAMPLE" (Some "s1")]
          [mkFileParam InputFileParamClass "INPUT_0" (Some "gs://b/in.txt")
             (Some "input/gs/b/in.txt") (Some (mkUriParts "gs://b/" "in.txt"))
             false (Some P_GCS)]
          [mkFileParam OutputFileParamClass "OUT" (Some "gs://b/out.txt")
             (Some "output/gs/b/out.txt") (Some (mkUriParts "gs://b/" "out.txt"))
             false (Some P_GCS)]].
Proof. reflexivity. Qed.

Example header_only_table :
  fst (tasks_file_to_job_data example_env (mkTasks "tasks.tsv" None None)
         [mkRecord ["--env SAMPLE"] 0] initial_state)
  = Raise (ValueError NoTasksAdded).
Proof. reflexivity. Qed.

Example split_file : posixpath.split "gs://bucket/folder/file.txt" = ("gs://bucket/folder", "file.txt").
Proof. reflexivity. Qed.
Example split_root : posixpath.split "/newfile" = ("/", "newfile").
Proof. reflexivity. Qed.
Example split_dir : posixpath.split "/tmp/tempdir1/" = ("/tmp/tempdir1", "").
Proof. reflexivity. Qed.
Example normpath_dots : posixpath.normpath "/data/./dir_a/../myfile.txt" = "/data/myfile.txt".
Proof. reflexivity. Qed.
Example normpath_up : posixpath.normpath "./../upper_dir" = "../upper_dir".
Proof. reflexivity. Qed.
Example normpath_two : posixpath.normpath "//tmp//x/" = "//tmp/x".
Proof. reflexivity. Qed.
Example normpath_three : posixpath.normpath "///tmp/.." = "/".
Proof. reflexivity. Qed.
Example rstrip_ex : Str.rstrip "/" "a//b//" = "a//b".
Proof. reflexivity. Qed.
Example split1_ex : Str.split1 "=" "a=b=c" = ("a", Some "b=c").
Proof. reflexivity. Qed.
(** * Further properties *)

(** ** Directories, pairs and names *)

(** X1. [directory_fmt] gives a string that ends in exactly one slash,
    and applying it again changes nothing. *)
Theorem directory_fmt_idempotent (directory : string) :
  directory_fmt (directory_fmt directory) = directory_fmt directory
  /\ exists p, directory_fmt directory = p ++ "/" /\ ~ (exists q, p = q ++ "/").
Proof.
  unfold directory_fmt. split.
  - rewrite rstrip_snoc.
    now rewrite (rstrip_fixed _ _ (rstrip_not_endswith "/" directory)).
  - exists (Str.rstrip "/" directory). split; [reflexivity|].
    apply rstrip_not_endswith.
Qed.

Lemma drop_app_length (a b : string) : Str.drop (String.length a) (a ++ b) = b.
Proof. induction a as [|c a IH]; [reflexivity | exact IH]. Qed.

Lemma not_occurs_empty (sep : string) : sep <> "" -> ~ occurs sep "".
Proof.
  intros Hs (a & b & H). destruct a; [|discriminate H].
  destruct sep; [now apply Hs | discriminate H].
Qed.

(** [split1] cuts at the first occurrence of a separator that is not
    empty: no occurrence starts earlier. *)
Lemma split1_spec (sep s : string) :
  sep <> "" ->
  forall h t, Str.split1 sep s = (h, t) ->
              match t with
              | Some r =>
                  s = h ++ sep ++ r
                  /\ forall h' r', s = h' ++ sep ++ r' ->
                                   (String.length h <= String.length h')%nat
              | None => s = h /\ ~ occurs sep s
              end.
Proof.
  intros Hsep. induction s as [|c s IH]; intros h t H.
  - cbn [Str.split1] in H. destruct (String.prefix sep "") eqn:E.
    + apply prefix_iff in E as [r E]. destruct sep; [now destruct Hsep | discriminate E].
    + injection H as <- <-. split; [reflexivity | now apply not_occurs_empty].
  - cbn [Str.split1] in H. destruct (String.prefix sep (String c s)) eqn:E.
    + injection H as <- <-. apply prefix_iff in E as [r E]. rewrite E at 1 2.
      rewrite drop_app_length. split; [reflexivity|]. intros; cbn; lia.
    + destruct (Str.split1 sep s) as [h0 t0] eqn:E0. injection H as <- <-.
      assert (forall r', String c s <> sep ++ r') as Hhead.
      { intros r' Hr. assert (String.prefix sep (String c s) = true) as Hp
            by (apply prefix_iff; now exists r').
        congruence. }
      specialize (IH _ _ eq_refl). destruct t0 as [r|].
      * destruct IH as [-> Hmin]. split; [reflexivity|].
        intros [|c' h'] r' Hr; [now apply Hhead in Hr|].
        cbn [append] in Hr. injection Hr as _ Hr. apply Hmin in Hr. cbn. lia.
      * destruct IH as [<- Hno]. split; [reflexivity|].
        intros ([|c' a] & b & Ho); [now apply Hhead in Ho|].
        cbn [append] in Ho. injection Ho as _ Ho. apply Hno. now exists a, b.
Qed.

(** X2. [split_pair] loses nothing.  Two parts are the text before and
    after the first occurrence of the separator; one part is the whole
    string, which has no separator, put on the side that [nullable_idx]
    leaves.  It raises a value error exactly for the empty separator,
    and otherwise only an index error, when there is no separator and
    [nullable_idx] is neither 0 nor 1. *)
Theorem split_pair_round_trip (pair_string separator : string)
        (nullable_idx : Z) :
  (separator = "" <->
   split_pair pair_string separator nullable_idx = Raise (ValueError EmptySeparator))
  /\ match split_pair pair_string separator nullable_idx with
     | Ok (Some a, Some b) =>
         pair_string = a ++ separator ++ b
         /\ forall a' b', pair_string = a' ++ separator ++ b' ->
                          (String.length a <= String.length a')%nat
     | Ok (Some a, None) =>
         pair_string = a /\ nullable_idx = 1%Z /\ ~ occurs separator a
     | Ok (None, Some b) =>
         pair_string = b /\ nullable_idx = 0%Z /\ ~ occurs separator b
     | Ok (None, None) => False
     | Raise e =>
         separator = ""
         \/ (e = IndexError /\ ~ occurs separator pair_string
             /\ nullable_idx <> 0%Z /\ nullable_idx <> 1%Z)
     end.
Proof.
  unfold split_pair. destruct separator as [|c sep]; [now split; [split|left]|].
  assert (String c sep <> "") as Hsep by discriminate.
  destruct (Str.split1 (String c sep) pair_string) as [h t] eqn:E.
  pose proof (split1_spec _ _ Hsep _ _ E) as Hs.
  destruct t as [r|].
  - split; [split; discriminate | exact Hs].
  - destruct Hs as [<- Hno].
    destruct (Z.eqb_spec nullable_idx 0) as [->|H0];
      [split; [split; discriminate | now repeat split]|].
    destruct (Z.eqb_spec nullable_idx 1) as [->|H1];
      [split; [split; discriminate | now repeat split]|].
    split; [split; discriminate | right; now repeat split].
Qed.

Lemma name_char_not_newline (s : string) :
  Str.forallb Re.name_char s = true -> Re.chomp s = s.
Proof.
  induction s as [|c s IH]; [reflexivity|]. cbn [Str.forallb Re.chomp].
  intros H. apply andb_true_iff in H as [Hc Hs].
  destruct (Ascii.eqb_spec c Re.newline) as [->|_]; [discriminate Hc|].
  cbn [andb]. now rewrite (IH Hs).
Qed.

Lemma chomp_newline (p : ascii -> bool) (s : string) :
  p Re.newline = false ->
  Str.forallb p s = true -> Re.chomp (s ++ String Re.newline "") = s.
Proof.
  intros Hp. induction s as [|c s IH]; [reflexivity|]. cbn [Str.forallb append Re.chomp].
  intros H. apply andb_true_iff in H as [Hc Hs].
  destruct (Ascii.eqb_spec c Re.newline) as [->|_]; [congruence|].
  cbn [andb]. now rewrite (IH Hs).
Qed.

Lemma chomp_fixed (p : ascii -> bool) (s : string) :
  p Re.newline = false -> Str.forallb p s = true -> Re.chomp s = s.
Proof.
  intros Hp. induction s as [|c s IH]; [reflexivity|]. cbn [Str.forallb Re.chomp].
  intros H. apply andb_true_iff in H as [Hc Hs].
  destruct (Ascii.eqb_spec c Re.newline) as [->|_]; [congruence|].
  cbn [andb]. now rewrite (IH Hs).
Qed.

Lemma chomp_spec (s : string) : with_optional_newline (Re.chomp s) s.
Proof.
  unfold with_optional_newline.
  induction s as [|c s IH]; [now left|]. cbn [Re.chomp].
  destruct (Ascii.eqb_spec c Re.newline) as [->|Hc]; cbn [andb].
  - destruct (String.eqb_spec s "") as [->|Hs].
    + now right.
    + destruct IH as [IH|IH]; [left | right]; cbn [append]; now f_equal.
  - destruct IH as [IH|IH]; [left | right]; cbn [append]; now f_equal.
Qed.

Lemma with_newline_chomp (p : ascii -> bool) (body s : string) :
  p Re.newline = false ->
  Str.forallb p body = true ->
  with_optional_newline body s -> Re.chomp s = body.
Proof.
  intros Hp Hb [->| ->]; [now apply (chomp_fixed p) | now apply (chomp_newline p)].
Qed.

Lemma match_param_name_iff (n : string) :
  Re.match_param_name n = true
  <-> exists body, posix_name body /\ with_optional_newline body n.
Proof.
  unfold Re.match_param_name. split.
  - intros H. exists (Re.chomp n). split; [|apply chomp_spec].
    destruct (Re.chomp n) as [|c r]; [discriminate|].
    apply andb_true_iff in H. exact H.
  - intros (body & Hb & Hn). destruct body as [|c r]; [contradiction|].
    destruct Hb as [Hc Hr].
    assert (Str.forallb Re.name_char (String c r) = true) as Hall.
    { cbn [Str.forallb]. rewrite Hr, andb_true_r. unfold Re.name_start in Hc.
      unfold Re.name_char. apply orb_true_iff in Hc as [Hc|Hc]; rewrite Hc;
        [reflexivity | apply orb_true_r]. }
    rewrite (with_newline_chomp Re.name_char _ _ eq_refl Hall Hn).
    now rewrite Hc, Hr.
Qed.

(** X3. [validate_param_name] accepts exactly the names made of a letter
    or underscore followed by letters, digits and underscores, with or
    without one line break at the end; a missing name is a type error and
    any other name a value error that carries it. *)
Theorem validate_param_name_accepts (name : option string) (param_type : string) :
  match name with
  | None => validate_param_name name param_type = Raise TypeError
  | Some n =>
      (validate_param_name name param_type = Ok tt
       <-> exists body, posix_name body /\ with_optional_newline body n)
      /\ (validate_param_name name param_type = Ok tt
          \/ validate_param_name name param_type
             = Raise (ValueError (InvalidParamName param_type n)))
  end.
Proof.
  destruct name as [n|]; [|reflexivity].
  unfold validate_param_name. rewrite <- match_param_name_iff.
  destruct (Re.match_param_name n); split; auto; split; congruence.
Qed.

Lemma match_label_iff (v : string) :
  Re.match_label v = true
  <-> exists body, label_text body /\ with_optional_newline body v.
Proof.
  unfold Re.match_label. split.
  - intros H. exists (Re.chomp v). split; [|apply chomp_spec].
    destruct (Re.chomp v) as [|c r]; [discriminate|].
    apply andb_true_iff in H. exact H.
  - intros (body & Hb & Hn). destruct body as [|c r]; [contradiction|].
    destruct Hb as [Hc Hr].
    assert (Str.forallb Re.label_char (String c r) = true) as Hall.
    { cbn [Str.forallb]. rewrite Hr, andb_true_r. unfold Re.label_char.
      rewrite Hc. now rewrite !orb_true_r. }
    rewrite (with_newline_chomp Re.label_char _ _ eq_refl Hall Hn).
    now rewrite Hc, Hr.
Qed.

Lemma check_label_rule_ok (v : option string) (param_type : string) :
  _check_label_rule v param_type = Ok tt ->
  exists s, v = Some s
            /\ (1 <= String.length s <= 63)%nat
            /\ exists body, label_text body /\ with_optional_newline body s.
Proof.
  unfold _check_label_rule. destruct v as [s|]; [|discriminate].
  destruct (Nat.ltb_spec (String.length s) 1); [discriminate|].
  destruct (Nat.ltb_spec 63 (String.length s)); [discriminate|]. cbn [orb].
  destruct (Re.match_label s) eqn:E; [|discriminate]. intros _.
  exists s. split; [reflexivity|]. split; [lia|]. now apply match_label_iff.
Qed.

(** X4. A [LabelParam] that is built has a name of 1 to 63 characters
    that is label text (with or without one final line break) and is none
    of the reserved keys; its value is absent, empty, or label text under
    the same rule. *)
Theorem LabelParam_new_checked (name value : option string) (p : LabelParam) :
  LabelParam_new name value = Ok p ->
  name = Some (label_name p) /\ label_value p = value
  /\ (1 <= String.length (label_name p) <= 63)%nat
  /\ (exists body, label_text body /\ with_optional_newline body (label_name p))
  /\ ~ In (label_name p) RESERVED_LABELS
  /\ (value = None \/ value = Some ""
      \/ exists v, value = Some v /\ (1 <= String.length v <= 63)%nat
                   /\ exists body, label_text body /\ with_optional_newline body v).
Proof.
  unfold LabelParam_new, validate_label.
  destruct (_check_label_rule name "name") as [[]|e] eqn:En; cbn [bind]; [|discriminate].
  apply check_label_rule_ok in En as (n & -> & Hlen & Hbody).
  destruct (if truthy value then _check_label_rule value "value" else Ok tt)
    as [[]|e] eqn:Ev; cbn [bind]; [|discriminate].
  destruct (negb false && existsb (String.eqb n) RESERVED_LABELS) eqn:Er;
    cbn [bind]; [discriminate|].
  intros H; injection H as <-. cbn [label_name label_value].
  repeat split; try lia; try assumption.
  - intros Hin. cbn [negb andb] in Er.
    assert (existsb (String.eqb n) RESERVED_LABELS = true) as Hex.
    { apply existsb_exists. exists n. split; [exact Hin | apply String.eqb_refl]. }
    congruence.
  - destruct value as [[|c r]|]; [now right; left | | now left].
    right; right. cbn [truthy Str.nonempty] in Ev.
    apply check_label_rule_ok in Ev as (v & Hv & Hl & Hb).
    injection Hv as <-. exists (String c r). now repeat split.
Qed.

Lemma LabelParam_new_checked_witness :
  (1 <= String.length "sample-1" <= 63)%nat /\ ~ In "sample-1" RESERVED_LABELS.
Proof.
  pose proof (LabelParam_new_checked (Some "sample-1") (Some "")
                (mkLabelParam "sample-1" (Some "")) eq_refl) as H.
  split; [exact (proj1 (proj2 (proj2 H)))
         | exact (proj1 (proj2 (proj2 (proj2 (proj2 H)))))].
Defined.

(** ** Generated names *)

Lemma of_nat_inj (n m : nat) : Str.of_nat n = Str.of_nat m -> n = m.
Proof.
  unfold Str.of_nat. intros H.
  assert (forall k, Nat.to_uint k <> Decimal.Nil) as Hnil.
  { intros k Hk. pose proof (DecimalNat.Unsigned.of_to k) as E. rewrite Hk in E.
    cbn in E. subst k. discriminate Hk. }
  apply DecimalNat.Unsigned.to_uint_inj.
  assert (Some (Nat.to_uint n) = Some (Nat.to_uint m)) as E; [|now injection E].
  rewrite <- (NilZero.usu _ (Hnil n)), <- (NilZero.usu _ (Hnil m)). now rewrite H.
Qed.

Lemma append_inj_l (p a b : string) : p ++ a = p ++ b -> a = b.
Proof. induction p as [|c p IH]; cbn; intros H; [exact H | injection H; auto]. Qed.

Lemma anonymous_names_spec (k : nat) :
  forall u,
    fst (anonymous_names k u)
    = map (fun i => _auto_prefix u ++ Str.of_nat (_auto_index u + i)) (seq 0 k)
    /\ snd (anonymous_names k u)
       = mkUtil (param_class u) (_auto_prefix u) (_auto_index u + k) (_relative_path u).
Proof.
  induction k as [|k IH]; intros u.
  - cbn. rewrite Nat.add_0_r. now destruct u.
  - cbn [anonymous_names get_variable_name].
    destruct (anonymous_names k _) as [ns u''] eqn:E.
    specialize (IH (mkUtil (param_class u) (_auto_prefix u) (S (_auto_index u))
                      (_relative_path u))).
    rewrite E in IH. cbn [fst snd param_class _auto_prefix _auto_index _relative_path] in IH.
    destruct IH as [-> ->]. cbn [fst snd]. split.
    + cbn [seq map]. rewrite Nat.add_0_r. f_equal.
      rewrite <- seq_shift, map_map. apply map_ext. intros i.
      now rewrite Nat.add_succ_r.
    + f_equal. lia.
Qed.

Lemma NoDup_map_injective {A B : Type} (f : A -> B) (l : list A) :
  (forall x y, f x = f y -> x = y) -> NoDup l -> NoDup (map f l).
Proof.
  intros Hf. induction 1 as [|x l Hx _ IH]; cbn [map]; constructor; [|exact IH].
  intros Hin. apply in_map_iff in Hin as (y & Hy & Hin).
  apply Hf in Hy. now subst y.
Qed.

(** X5. A name that is given (not empty) is returned as it is and leaves
    the counter alone; names asked for without one are the prefix followed
    by the successive counter values, so that no two of them are equal, and
    the counter has advanced by their number. *)
Theorem generated_names_distinct (u : FileParamUtil) (k : nat) :
  (forall c r, get_variable_name u (Some (String c r)) = (String c r, u))
  /\ NoDup (fst (anonymous_names k u))
  /\ List.length (fst (anonymous_names k u)) = k
  /\ _auto_index (snd (anonymous_names k u)) = (_auto_index u + k)%nat.
Proof.
  destruct (anonymous_names_spec k u) as [Hn Hu]. rewrite Hn, Hu.
  split; [reflexivity|]. split; [|split; [now rewrite length_map, length_seq | reflexivity]].
  apply NoDup_map_injective; [|apply seq_NoDup].
  intros i j H. apply append_inj_l, of_nat_inj in H. lia.
Qed.

(** ** Rewritten URIs *)

Lemma replace_first_spec (old new s : string) :
  (~ occurs old s /\ Str.replace_first old new s = s)
  \/ exists pre post, s = pre ++ old ++ post
                      /\ Str.replace_first old new s = pre ++ new ++ post.
Proof.
  assert (forall n t, Str.drop (String.length n) (n ++ t) = t) as Hdrop.
  { induction n as [|c n IH]; intros t; [reflexivity | cbn; apply IH]. }
  induction s as [|c s IH].
  - cbn [Str.replace_first]. destruct (String.prefix old "") eqn:E.
    + right. apply prefix_iff in E as [b E]. exists "", b. split; [exact E|].
      cbn [append]. rewrite E at 1. now rewrite Hdrop.
    + left. split; [|reflexivity]. intros (a & b & H).
      destruct a; [|discriminate]. cbn in H.
      assert (String.prefix old "" = true) by (apply prefix_iff; now exists b).
      congruence.
  - cbn [Str.replace_first]. destruct (String.prefix old (String c s)) eqn:E.
    + right. apply prefix_iff in E as [b E]. exists "", b. split; [exact E|].
      cbn [append]. rewrite E at 1. now rewrite Hdrop.
    + destruct IH as [[Hno Hid]|(pre & post & -> & Hr)].
      * left. split; [|now rewrite Hid]. intros Ho.
        apply contains_occurs in Ho. rewrite contains_unfold, E in Ho.
        cbn [orb] in Ho. apply contains_occurs in Ho. contradiction.
      * right. exists (String c pre), post. split; [reflexivity|].
        cbn [append]. now rewrite Hr.
Qed.

Lemma replace_first_here (old new rest : string) :
  Str.replace_first old new (old ++ rest) = new ++ rest.
Proof.
  assert (forall n t, Str.drop (String.length n) (n ++ t) = t) as Hdrop.
  { induction n as [|c n IH]; intros t; [reflexivity | cbn; apply IH]. }
  destruct (old ++ rest) as [|c s] eqn:E; cbn [Str.replace_first];
    rewrite <- E, prefix_app; now rewrite Hdrop.
Qed.

(** X6. For cloud storage the rewriter returns the URI as it was given;
    the container path, under the mount prefix, is the URI with its leading
    [gs://] turned into [gs/], and a URI in which [gs://] does not occur
    (a scheme written in capitals, for one) is put under the mount prefix
    as it is. *)
Theorem gcs_container_path (self : FileParamUtil) (env : os_env) :
  (forall rest,
      rewrite_uris self env ("gs://" ++ rest) P_GCS
      = Ok ("gs://" ++ rest, posixpath.join (_relative_path self) ("gs/" ++ rest)))
  /\ (forall raw_uri,
         ~ occurs "gs://" raw_uri ->
         rewrite_uris self env raw_uri P_GCS
         = Ok (raw_uri, posixpath.join (_relative_path self) raw_uri)).
Proof.
  split.
  - intros rest. unfold rewrite_uris, _gcs_uri_rewriter. cbn [bind].
    now rewrite replace_first_here.
  - intros raw_uri H. unfold rewrite_uris, _gcs_uri_rewriter. cbn [bind].
    destruct (replace_first_spec "gs://" "gs/" raw_uri) as [[_ ->]|(pre & post & E & _)];
      [reflexivity|].
    exfalso. apply H. now exists pre, post.
Qed.

Lemma gcs_container_path_witness :
  rewrite_uris (InputFileParamUtil "input") example_env "GS://bucket/x" P_GCS
  = Ok ("GS://bucket/x", "input/GS://bucket/x").
Proof.
  apply (proj2 (gcs_container_path (InputFileParamUtil "input") example_env)).
  apply contains_false_iff. reflexivity.
Defined.

Lemma ends_in_slash_app (a b : string) :
  (exists p, b = p ++ "/") -> exists p, a ++ b = p ++ "/".
Proof. intros [p ->]. exists (a ++ p). now rewrite append_assoc. Qed.

Lemma join_ends_in_slash (a b : string) :
  (exists p, b = p ++ "/") -> exists p, posixpath.join a b = p ++ "/".
Proof.
  intros H. unfold posixpath.join.
  destruct (Str.startswith b "/"); [exact H|].
  destruct (String.eqb a "" || Str.endswith a "/"); now repeat apply ends_in_slash_app.
Qed.

Lemma snoc_inj (a b : string) (c : ascii) :
  a ++ String c "" = b ++ String c "" -> a = b.
Proof.
  revert b; induction a as [|x a IH]; intros [|y b] H; cbn in H.
  - reflexivity.
  - injection H as _ H. destruct b; discriminate.
  - injection H as _ H. destruct a; discriminate.
  - injection H as -> H. f_equal. now apply IH.
Qed.

Lemma app_ends (a b : string) (c : ascii) :
  b <> "" -> (exists p, a ++ b = p ++ String c "") -> exists q, b = q ++ String c "".
Proof.
  intros Hb [p Hp]. revert p Hp. induction a as [|x a IH]; intros p Hp.
  - now exists p.
  - destruct p as [|y p].
    + cbn in Hp. injection Hp as _ Hp. destruct a; [contradiction | discriminate].
    + cbn in Hp. injection Hp as _ Hp. now apply (IH p).
Qed.

Lemma replace_gs_ends_in_slash (raw_uri : string) :
  exists p, Str.replace_first "gs://" "gs/" (directory_fmt raw_uri) = p ++ "/".
Proof.
  destruct (replace_first_spec "gs://" "gs/" (directory_fmt raw_uri))
    as [[_ ->]|(pre & post & E & ->)].
  - apply directory_fmt_ends_in_slash.
  - apply ends_in_slash_app, ends_in_slash_app.
    destruct post as [|c post].
    + exfalso. unfold directory_fmt in E.
      change (pre ++ "gs://" ++ "") with (pre ++ ("gs:/" ++ String "/" "")) in E.
      rewrite <- append_assoc in E. apply snoc_inj in E.
      apply (rstrip_not_endswith "/" raw_uri). exists (pre ++ "gs:").
      rewrite E. now rewrite append_assoc.
    + apply (app_ends (pre ++ "gs://")); [discriminate|].
      exists (Str.rstrip "/" raw_uri). rewrite append_assoc. symmetry. exact E.
Qed.

Lemma cut_directory (d : string) : posixpath.cut (d ++ "/") = (d ++ "/", "").
Proof.
  change (d ++ "/") with (d ++ "/" ++ ""). apply cut_of_last_slash.
  apply contains_false_iff. reflexivity.
Qed.

Lemma parse_uri_recursive_parts (self : FileParamUtil) (env : os_env)
        (raw_uri docker : string) (parts : UriParts) (prov : provider) :
  parse_uri self env raw_uri true = Ok (docker, parts, prov) ->
  basename parts = ""
  /\ (exists p, uri_str parts = p ++ "/")
  /\ (exists p, docker = p ++ "/").
Proof.
  unfold parse_uri.
  destruct (parse_file_provider (directory_fmt raw_uri)) as [file_provider|e];
    cbn [bind]; [|discriminate].
  destruct (_validate_paths_or_fail (directory_fmt raw_uri) true) as [[]|e];
    cbn [bind]; [|discriminate].
  unfold rewrite_uris.
  assert (forall u, (exists p, u = p ++ "/") -> posixpath.basename u = "") as Hbase.
  { intros u [p ->]. unfold posixpath.basename. now rewrite cut_directory. }
  destruct file_provider.
  - unfold _local_uri_rewriter, posixpath.split, directory_fmt at 1.
    rewrite cut_directory.
    destruct (apply_prefix_replacements _ _) as [normed_path|e]; cbn [bind];
      [|discriminate].
    intros H; injection H as <- <- <-. cbn [basename]. unfold uri_str; cbn [path basename].
    assert (exists p, posixpath.join
                        (directory_fmt (posixpath.abspath (cwd env) normed_path)) ""
                      = p ++ "/") as Hn.
    { rewrite join_directory by reflexivity.
      exists (Str.rstrip "/" (posixpath.abspath (cwd env) normed_path)).
      reflexivity. }
    rewrite (Hbase _ Hn). split; [reflexivity|]. split.
    + rewrite append_nil_r. apply directory_fmt_ends_in_slash.
    + apply join_ends_in_slash. unfold local_docker_path. rewrite append_nil_r.
      apply directory_fmt_ends_in_slash.
  - cbn [_gcs_uri_rewriter bind]. intros H; injection H as <- <- <-.
    cbn [basename]. unfold uri_str; cbn [path basename].
    rewrite (Hbase _ (directory_fmt_ends_in_slash raw_uri)).
    split; [reflexivity|]. split.
    + rewrite append_nil_r. apply directory_fmt_ends_in_slash.
    + apply join_ends_in_slash, replace_gs_ends_in_slash.
Qed.

(** X7. A recursive reference is resolved as a directory: its base name
    is empty, and its URI and its container path end in a slash. *)
Theorem recursive_uri_is_directory (self : FileParamUtil) (env : os_env)
        (raw_uri docker : string) (parts : UriParts) (prov : provider) :
  parse_uri self env raw_uri true = Ok (docker, parts, prov) ->
  basename parts = ""
  /\ (exists p, uri_str parts = p ++ "/")
  /\ (exists p, docker = p ++ "/").
Proof. apply parse_uri_recursive_parts. Qed.

Lemma recursive_uri_is_directory_witness :
  basename (mkUriParts "gs://bucket/dir/" "") = ""
  /\ (exists p, uri_str (mkUriParts "gs://bucket/dir/" "") = p ++ "/")
  /\ (exists p, "output/gs/bucket/dir/" = p ++ "/").
Proof.
  exact (recursive_uri_is_directory (OutputFileParamUtil "output") example_env
           "gs://bucket/dir" "output/gs/bucket/dir/"
           (mkUriParts "gs://bucket/dir/" "") P_GCS eq_refl).
Defined.

(** ** Normalized local URIs *)

Lemma split_no_sep (sep : ascii) (s : string) :
  Forall (fun c => Str.char_in sep c = false) (Str.split sep s).
Proof.
  induction s as [|c s IH]; cbn [Str.split].
  - now constructor.
  - destruct (Ascii.eqb_spec c sep) as [->|Hc].
    + now constructor.
    + assert (Ascii.eqb sep c = false) as Hn by (apply Ascii.eqb_neq; congruence).
      destruct (Str.split sep s) as [|h t].
      * constructor; [|constructor]. cbn [Str.char_in]. now rewrite Hn.
      * inversion IH; subst. constructor; [|assumption].
        cbn [Str.char_in]. now rewrite Hn.
Qed.

Lemma split_concat (sep : ascii) (comps : list string) :
  comps <> [] ->
  Forall (fun c => Str.char_in sep c = false) comps ->
  Str.split sep (String.concat (String sep "") comps) = comps.
Proof.
  induction comps as [|c comps IH]; intros Hne Hall; [contradiction|].
  inversion Hall as [|? ? Hc Hrest]; subst.
  destruct comps as [|c' comps'].
  - cbn [String.concat]. now apply split_absent.
  - change (String.concat (String sep "") (c :: c' :: comps'))
      with (c ++ String sep "" ++ String.concat (String sep "") (c' :: comps')).
    change (String sep "" ++ ?x) with (String sep x).
    rewrite split_app, (split_absent _ _ Hc), IH; [reflexivity | discriminate | assumption].
Qed.

Lemma norm_comps_plain (k : nat) (comps : list string) :
  k <> 0%nat ->
  forall rev_new,
    Forall plain_component rev_new ->
    Forall plain_component (posixpath.norm_comps k comps rev_new)
    /\ forall c, In c (posixpath.norm_comps k comps rev_new) ->
                 In c comps \/ In c rev_new.
Proof.
  intros Hk. induction comps as [|comp rest IH]; intros rev_new Hinv.
  - cbn [posixpath.norm_comps]. split.
    + apply Forall_rev. exact Hinv.
    + intros c Hc. right. now apply in_rev.
  - cbn [posixpath.norm_comps].
    destruct (String.eqb_spec comp "") as [->|He]; cbn [orb].
    { destruct (IH rev_new Hinv) as [H1 H2]. split; [exact H1|].
      intros c Hc. destruct (H2 c Hc); [left; now right | now right]. }
    destruct (String.eqb_spec comp ".") as [->|Hd].
    { destruct (IH rev_new Hinv) as [H1 H2]. split; [exact H1|].
      intros c Hc. destruct (H2 c Hc); [left; now right | now right]. }
    replace (Nat.eqb k 0) with false by (symmetry; now apply Nat.eqb_neq).
    cbn [andb orb].
    assert (match rev_new with last :: _ => String.eqb last ".." | [] => false end = false)
      as Hlast.
    { destruct rev_new as [|l r]; [reflexivity|]. inversion Hinv as [|? ? Hl _]; subst.
      apply String.eqb_neq. apply Hl. }
    rewrite Hlast, orb_false_r.
    destruct (String.eqb_spec comp "..") as [->|Hdd]; cbn [negb].
    + destruct rev_new as [|l popped].
      * destruct (IH [] Hinv) as [H1 H2]. split; [exact H1|].
        intros c Hc. destruct (H2 c Hc); [left; now right | now right].
      * inversion Hinv as [|? ? _ Hpop]; subst.
        destruct (IH popped Hpop) as [H1 H2].
        split; [exact H1|]. intros c Hc.
        destruct (H2 c Hc); [left; now right | right; now right].
    + destruct (IH (comp :: rev_new)) as [H1 H2].
      { constructor; [now repeat split | exact Hinv]. }
      split; [exact H1|]. intros c Hc.
      destruct (H2 c Hc) as [H|[<-|H]]; [left; now right | left; now left | now right].
Qed.

Lemma prefix_slash (s : string) :
  Str.startswith s "/" = true -> exists r, s = String "/" r.
Proof.
  unfold Str.startswith. intros H. apply prefix_iff in H as [r ->]. now exists r.
Qed.

(** The normal form of an absolute path: one or two slashes and then
    plain components joined by slashes. *)
Lemma normpath_absolute (p : string) :
  Str.startswith p "/" = true ->
  exists lead comps,
    (lead = "/" \/ lead = "//")
    /\ posixpath.normpath p = lead ++ String.concat "/" comps
    /\ Forall plain_component comps
    /\ Forall (fun c => Str.char_in "/" c = false) comps.
Proof.
  intros Hp. unfold posixpath.normpath.
  destruct (prefix_slash _ Hp) as [r ->]. cbn [String.eqb].
  replace (if Ascii.eqb "/" "/" then false else false) with false by reflexivity.
  rewrite Hp.
  set (k := if Str.startswith (String "/" r) "//"
                 && negb (Str.startswith (String "/" r) "///") then 2%nat else 1%nat).
  assert (k <> 0%nat) as Hk by (unfold k; destruct (_ && _); discriminate).
  destruct (norm_comps_plain k (Str.split "/" (String "/" r)) Hk [] (Forall_nil _))
    as [Hplain Hsub].
  set (comps := posixpath.norm_comps k (Str.split "/" (String "/" r)) []) in *.
  exists (posixpath.slashes k), comps. unfold Str.join.
  split; [unfold k; destruct (_ && _); cbn; auto|].
  split.
  - assert (exists t, posixpath.slashes k = String "/" t) as [t Ht]
      by (unfold k; destruct (_ && _); cbn; eauto).
    rewrite Ht. reflexivity.
  - split; [exact Hplain|]. apply Forall_forall. intros c Hc.
    destruct (Hsub c Hc) as [H|[]].
    pose proof (split_no_sep "/" (String "/" r)) as Hall.
    rewrite Forall_forall in Hall. now apply Hall.
Qed.

Lemma abspath_absolute (cwd p : string) :
  Str.startswith cwd "/" = true ->
  exists q, Str.startswith q "/" = true /\ posixpath.abspath cwd p = posixpath.normpath q.
Proof.
  intros Hc. unfold posixpath.abspath, posixpath.isabs.
  destruct (Str.startswith p "/") eqn:Hp; [now exists p|].
  exists (posixpath.join cwd p). split; [|reflexivity].
  unfold posixpath.join. rewrite Hp. destruct (prefix_slash _ Hc) as [r ->].
  unfold Str.startswith. destruct (_ || _); apply prefix_iff; eexists; reflexivity.
Qed.

Lemma concat_last (sep : string) (comps : list string) :
  comps <> [] ->
  exists a l, In l comps /\ String.concat sep comps = a ++ l.
Proof.
  induction comps as [|c comps IH]; intros Hne; [contradiction|].
  destruct comps as [|c' comps'].
  - exists "", c. split; [now left | reflexivity].
  - destruct IH as (a & l & Hin & Hl); [discriminate|].
    exists (c ++ sep ++ a), l. split; [now right|].
    change (String.concat sep (c :: c' :: comps'))
      with (c ++ sep ++ String.concat sep (c' :: comps')).
    rewrite Hl. now rewrite !append_assoc.
Qed.

Lemma validate_filename_dot (uri : string) (recursive : bool) :
  _validate_paths_or_fail uri recursive = Ok tt ->
  snd (posixpath.split uri) <> ".".
Proof.
  unfold _validate_paths_or_fail.
  destruct (posixpath.split uri) as [directory filename]; cbn [snd].
  destruct (Str.contains "[" uri || Str.contains "]" uri); [discriminate|].
  destruct (Str.contains "?" uri); [discriminate|].
  destruct (Str.contains "*" directory); [discriminate|].
  destruct (Str.contains "**" filename); [discriminate|].
  destruct (String.eqb_spec filename ".."); cbn [orb]; [discriminate|].
  destruct (String.eqb_spec filename "."); [discriminate | auto].
Qed.

(** The components of a normalized directory with a file name. *)
Lemma normalized_components (lead : string) (comps : list string) (filename : string) :
  lead = "/" \/ lead = "//" ->
  Forall plain_component comps ->
  Forall (fun c => Str.char_in "/" c = false) comps ->
  Str.char_in "/" filename = false ->
  forall c,
    In c (Str.split "/" (Str.rstrip "/" (lead ++ String.concat "/" comps)
                         ++ "/" ++ filename)) ->
    c = "" \/ In c comps \/ c = filename.
Proof.
  intros Hlead Hplain Hnosep Hf c.
  change (?x ++ "/" ++ filename) with (x ++ String "/" filename).
  rewrite split_app, (split_absent _ _ Hf). intros Hin.
  apply in_app_or in Hin as [Hin|[<-|[]]]; [|now right; right].
  destruct comps as [|c0 comps'].
  - left. destruct Hlead as [-> | ->]; cbn in Hin; destruct Hin as [<-|[]]; reflexivity.
  - assert (~ (exists p, lead ++ String.concat "/" (c0 :: comps') = p ++ "/")) as Hend.
    { destruct (concat_last "/" (c0 :: comps')) as (a & l & Hl & E); [discriminate|].
      rewrite E, <- append_assoc. intros Hp.
      rewrite Forall_forall in Hplain, Hnosep.
      apply app_ends in Hp as [q Hq]; [|apply (Hplain l Hl)].
      specialize (Hnosep l Hl). rewrite Hq in Hnosep.
      assert (Str.char_in "/" (q ++ "/") = true) as Ht
          by (apply char_in_occurs; now exists q, "").
      congruence. }
    rewrite (rstrip_fixed _ _ Hend) in Hin.
    assert (Str.split "/" (String.concat "/" (c0 :: comps')) = c0 :: comps') as Hs
        by (apply split_concat; [discriminate | assumption]).
    destruct Hlead as [-> | ->].
    + change ("/" ++ ?x) with (String "/" x) in Hin. cbn [Str.split] in Hin.
      rewrite Ascii.eqb_refl, Hs in Hin. destruct Hin as [<-|Hin]; [now left | now right; left].
    + change ("//" ++ ?x) with (String "/" (String "/" x)) in Hin. cbn [Str.split] in Hin.
      rewrite Ascii.eqb_refl, Hs in Hin.
      destruct Hin as [<-|[<-|Hin]]; [now left | now left | now right; left].
Qed.

(** X8. When the current directory is absolute, the normalized form of a
    local URI that passes the path policy check is an absolute path in
    which no component is a dot or two dots. *)
Theorem local_uri_normalized (env : os_env) (uri : string) (rec : bool)
        (normalized docker : string) :
  Str.startswith (cwd env) "/" = true ->
  _validate_paths_or_fail uri rec = Ok tt ->
  _local_uri_rewriter env uri = Ok (normalized, docker) ->
  (exists r, normalized = "/" ++ r)
  /\ ~ In "." (Str.split "/" normalized)
  /\ ~ In ".." (Str.split "/" normalized).
Proof.
  intros Hcwd Hv Hr.
  pose proof (validate_filename _ _ Hv) as Hdd.
  pose proof (validate_filename_dot _ _ Hv) as Hd.
  unfold _local_uri_rewriter in Hr. unfold posixpath.split in Hdd, Hd, Hr.
  pose proof (cut_tail_no_slash uri) as Hf.
  destruct (posixpath.cut uri) as [head filename]; cbn [snd] in Hdd, Hd, Hf.
  destruct (apply_prefix_replacements (prefix_replacements env)
              (posixpath.strip_head head)) as [normed_path|e];
    cbn [bind] in Hr; [|discriminate].
  injection Hr as <- _. rewrite (join_directory _ _ Hf).
  destruct (abspath_absolute (cwd env) normed_path Hcwd) as (q & Hq & ->).
  destruct (normpath_absolute q Hq) as (lead & comps & Hlead & -> & Hplain & Hnosep).
  split.
  - destruct (rstrip_decomp "/" (lead ++ String.concat "/" comps)) as (k & Hk & _).
    destruct (Str.rstrip "/" (lead ++ String.concat "/" comps)) as [|c r] eqn:E.
    + now exists filename.
    + exists (r ++ "/" ++ filename).
      destruct Hlead as [-> | ->]; cbn [append] in Hk; injection Hk as <- _; reflexivity.
  - rewrite Forall_forall in Hplain.
    split; intros Hin;
      apply (normalized_components lead comps filename Hlead) in Hin;
      try assumption; try (now apply Forall_forall);
      destruct Hin as [H|[H|H]]; try discriminate H; try congruence;
      destruct (Hplain _ H) as (_ & H1 & H2); congruence.
Qed.

Lemma local_uri_normalized_witness :
  (exists r, "/tmp/B_PATH/file.txt" = "/" ++ r)
  /\ ~ In "." (Str.split "/" "/tmp/B_PATH/file.txt")
  /\ ~ In ".." (Str.split "/" "/tmp/B_PATH/file.txt").
Proof.
  exact (local_uri_normalized example_env "/tmp/a_path/.././B_PATH/file.txt" false
           "/tmp/B_PATH/file.txt" "file/tmp/B_PATH/file.txt" eq_refl eq_refl eq_refl).
Defined.

(** ** Submission validator *)

Lemma provider_in_iff (p : option provider) (whitelist : list provider) :
  provider_in p whitelist = true <-> whitelisted whitelist p.
Proof.
  unfold whitelisted. destruct p as [[]|]; cbn [provider_in].
  - rewrite existsb_exists. split.
    + intros ([] & Hin & H); [|discriminate]. now exists P_LOCAL.
    + intros (q & [= <-] & Hin). now exists P_LOCAL.
  - rewrite existsb_exists. split.
    + intros ([] & Hin & H); [discriminate|]. now exists P_GCS.
    + intros (q & [= <-] & Hin). now exists P_GCS.
  - split; [discriminate | intros (q & H & _); discriminate].
Qed.

Lemma check_file_params_accepts (argtype : string) (whitelist : list provider)
      (provider_name : string) (params : list FileParam) :
  check_file_params argtype whitelist provider_name params = Accepted
  <-> Forall (fun p => whitelisted whitelist (file_provider p)) params.
Proof.
  induction params as [|p params IH]; cbn [check_file_params].
  - split; [constructor | reflexivity].
  - destruct (provider_in (file_provider p) whitelist) eqn:E; cbn [negb].
    + rewrite IH. apply provider_in_iff in E. split.
      * now constructor.
      * intros H. now inversion H.
    + split; [discriminate|]. intros H. inversion H as [|? ? Hp _]; subst.
      apply provider_in_iff in Hp. congruence.
Qed.

Lemma check_file_params_refused (argtype : string) (whitelist : list provider)
      (provider_name : string) (params : list FileParam) (e : submit_error) :
  check_file_params argtype whitelist provider_name params = Refused e ->
  argname e = Str.rstrip "s" argtype /\ provider_named e = provider_name
  /\ exists p, In p params /\ error_path e = uri p
               /\ ~ whitelisted whitelist (file_provider p).
Proof.
  induction params as [|p params IH]; cbn [check_file_params]; [discriminate|].
  destruct (provider_in (file_provider p) whitelist) eqn:E; cbn [negb].
  - intros H. destruct (IH H) as (Ha & Hn & q & Hq & Hu & Hw).
    repeat split; try assumption. exists q. repeat split; try assumption. now right.
  - intros H; injection H as <-. cbn. repeat split. exists p.
    repeat split; [now left|]. intros Hw. apply provider_in_iff in Hw. congruence.
Qed.

Lemma check_tasks_accepts (all_task_data : list task) (provider_name : string)
      (input_providers output_providers : list provider) :
  check_tasks all_task_data provider_name input_providers output_providers = Accepted
  <-> Forall (task_whitelisted input_providers output_providers) all_task_data.
Proof.
  induction all_task_data as [|t rest IH]; cbn [check_tasks].
  - split; [constructor | reflexivity].
  - destruct (check_file_params "inputs" _ _ (inputs t)) eqn:Ei.
    + destruct (check_file_params "outputs" _ _ (outputs t)) eqn:Eo.
      * rewrite IH. apply check_file_params_accepts in Ei, Eo. split.
        -- intros H. constructor; [now split | exact H].
        -- intros H. now inversion H.
      * split; [discriminate|]. intros H. inversion H as [|? ? [_ Ho] _]; subst.
        rewrite (proj2 (check_file_params_accepts "outputs" _ provider_name _) Ho) in Eo.
        discriminate.
    + split; [discriminate|]. intros H. inversion H as [|? ? [Hi _] _]; subst.
      rewrite (proj2 (check_file_params_accepts "inputs" _ provider_name _) Hi) in Ei.
      discriminate.
Qed.

Lemma check_tasks_refused (all_task_data : list task) (provider_name : string)
      (input_providers output_providers : list provider) (e : submit_error) :
  check_tasks all_task_data provider_name input_providers output_providers = Refused e ->
  provider_named e = provider_name
  /\ exists t p, In t all_task_data /\ error_path e = uri p
      /\ ((argname e = "input" /\ In p (inputs t)
           /\ ~ whitelisted input_providers (file_provider p))
          \/ (argname e = "output" /\ In p (outputs t)
              /\ ~ whitelisted output_providers (file_provider p))).
Proof.
  induction all_task_data as [|t rest IH]; cbn [check_tasks]; [discriminate|].
  destruct (check_file_params "inputs" _ _ (inputs t)) eqn:Ei.
  - destruct (check_file_params "outputs" _ _ (outputs t)) eqn:Eo.
    + intros H. destruct (IH H) as (Hn & t' & p & Ht & Hrest).
      split; [exact Hn|]. exists t', p. split; [now right | exact Hrest].
    + intros H; injection H as <-.
      apply check_file_params_refused in Eo as (Ha & Hn & p & Hp & Hu & Hw).
      split; [exact Hn|]. exists t, p. split; [now left|]. split; [exact Hu|].
      right. now repeat split.
  - intros H; injection H as <-.
    apply check_file_params_refused in Ei as (Ha & Hn & p & Hp & Hu & Hw).
    split; [exact Hn|]. exists t, p. split; [now left|]. split; [exact Hu|].
    left. now repeat split.
Qed.

(** X9. The submission is accepted exactly when the logging provider and
    the provider of every input and output of every task are in their
    whitelists.  A refusal names the backend and the URI of a parameter
    whose provider is not whitelisted; a logging provider outside its
    whitelist is refused first, whatever the tasks are, and so is a logging
    parameter built without a URI, which has no provider. *)
Theorem validate_submit_accepts_iff (logging : LoggingParam)
        (all_task_data : list task) (provider_name : string)
        (input_providers output_providers logging_providers : list provider) :
  (validate_submit_args_or_fail logging all_task_data provider_name
     input_providers output_providers logging_providers = Accepted
   <-> whitelisted logging_providers (log_file_provider logging)
       /\ Forall (task_whitelisted input_providers output_providers) all_task_data)
  /\ (~ whitelisted logging_providers (log_file_provider logging) ->
      validate_submit_args_or_fail logging all_task_data provider_name
        input_providers output_providers logging_providers
      = Refused (mkSubmitError "logging" (log_uri logging) provider_name))
  /\ (forall e,
         validate_submit_args_or_fail logging all_task_data provider_name
           input_providers output_providers logging_providers = Refused e ->
         whitelisted logging_providers (log_file_provider logging) ->
         provider_named e = provider_name
         /\ exists t p, In t all_task_data /\ error_path e = uri p
             /\ ((argname e = "input" /\ In p (inputs t)
                  /\ ~ whitelisted input_providers (file_provider p))
                 \/ (argname e = "output" /\ In p (outputs t)
                     /\ ~ whitelisted output_providers (file_provider p))))
  /\ (forall env util_class lp,
         build_logging_param env None util_class = Ok lp ->
         validate_submit_args_or_fail lp all_task_data provider_name
           input_providers output_providers logging_providers
         = Refused (mkSubmitError "logging" None provider_name)).
Proof.
  unfold validate_submit_args_or_fail.
  split; [|split; [|split]].
  - destruct (provider_in (log_file_provider logging) logging_providers) eqn:E;
      cbn [negb].
    + rewrite check_tasks_accepts. apply provider_in_iff in E. tauto.
    + split; [discriminate|]. intros [H _]. apply provider_in_iff in H. congruence.
  - intros H. destruct (provider_in (log_file_provider logging) logging_providers) eqn:E;
      [|reflexivity].
    apply provider_in_iff in E. contradiction.
  - intros e H Hw. apply provider_in_iff in Hw. rewrite Hw in H. cbn [negb] in H.
    now apply check_tasks_refused.
  - intros env util_class lp H. cbn in H. injection H as <-. reflexivity.
Qed.

Lemma validate_submit_accepts_iff_witness :
  validate_submit_args_or_fail (mkLoggingParam None None) [] "MYPROVIDER"
    [P_GCS] [P_GCS] [P_GCS]
  = Refused (mkSubmitError "logging" None "MYPROVIDER").
Proof.
  apply (proj1 (proj2 (validate_submit_accepts_iff (mkLoggingParam None None) []
                         "MYPROVIDER" [P_GCS] [P_GCS] [P_GCS]))).
  intros (q & H & _). discriminate H.
Defined.

(** ** Task table: header and rows *)

Lemma parse_column_bareword (col : string) (st : state) :
  Str.startswith col "-" = false ->
  parse_column ("--env " ++ col) st = parse_column col st.
Proof.
  intros H. unfold parse_column. rewrite H.
  change (Str.startswith ("--env " ++ col) "-") with true. cbv iota.
  unfold split_pair.
  change ("--env " ++ col) with ("--env" ++ String " " col).
  rewrite split1_first by reflexivity. reflexivity.
Qed.

(** X10. A bareword header is the same as [--env] with that word: a
    header whose columns do not start with a dash parses, from any state,
    to what the header with [--env ] put before each column parses to. *)
Theorem bareword_header_is_env (header : list string) (st : state) :
  Forall (fun col => Str.startswith col "-" = false) header ->
  parse_tasks_file_header (map (fun col => "--env " ++ col) header) st
  = parse_tasks_file_header header st.
Proof.
  intros H. revert st. induction H as [|col rest Hc _ IH]; intros st; [reflexivity|].
  cbn [map parse_tasks_file_header]. unfold bindM at 1 3.
  rewrite (parse_column_bareword col st Hc).
  destruct (parse_column col st) as [[p|e] st1]; [|reflexivity].
  unfold bindM. now rewrite IH.
Qed.

Lemma bareword_header_is_env_witness :
  parse_tasks_file_header ["--env SAMPLE"; "--env RUN"] initial_state
  = parse_tasks_file_header ["SAMPLE"; "RUN"] initial_state.
Proof.
  apply (bareword_header_is_env ["SAMPLE"; "RUN"] initial_state).
  repeat constructor.
Defined.

Lemma compile_rows_all_skipped (env : os_env) (job_params : list Param)
      (task_min task_max : option Z) (rows : list (Z * list string)) :
  (forall r, In r rows ->
             below_min task_min (task_number r) = true
             \/ above_max task_max (task_number r) = true) ->
  forall job_data st,
    compile_rows env job_params task_min task_max rows job_data st = (Ok job_data, st).
Proof.
  induction rows as [|[line_num row] rows IH]; intros H job_data st; [reflexivity|].
  cbn [compile_rows].
  assert (IH' := IH (fun r Hr => H r (or_intror Hr))).
  destruct (H (line_num, row) (or_introl eq_refl)) as [Hs|Hs];
    unfold task_number in Hs; cbn [fst] in Hs.
  - rewrite Hs. apply IH'.
  - rewrite Hs. destruct (below_min task_min (line_num - 1)); apply IH'.
Qed.

(** X11. When the file has only its header, or the task filter leaves out
    every data row, the run fails: with the error of the header if the
    header has one, and otherwise with the error that no tasks were added,
    whatever the cells of the rows hold. *)
Theorem no_rows_no_tasks (env : os_env) (tasks : tasks_arg)
        (header : csv_record) (data : list csv_record) (st : state) :
  (forall r, In r (read_records (1 + Z.of_nat (extra_lines header)) data) ->
             below_min (tasks_min tasks) (task_number r) = true
             \/ above_max (tasks_max tasks) (task_number r) = true) ->
  tasks_file_to_job_data env tasks (header :: data) st
  = (_ <~ parse_tasks_file_header (fields header) ;;
     raise (ValueError NoTasksAdded)) st.
Proof.
  intros H. unfold tasks_file_to_job_data, bindM.
  destruct (parse_tasks_file_header (fields header) st) as [[job_params|e] st1];
    [|reflexivity].
  now rewrite (compile_rows_all_skipped _ _ _ _ _ H).
Qed.

Lemma no_rows_no_tasks_witness :
  tasks_file_to_job_data example_env (mkTasks "tasks.tsv" (Some 3%Z) None)
    [mkRecord ["--input IN"] 0; mkRecord ["not?valid"] 0; mkRecord [] 0] initial_state
  = (Raise (ValueError NoTasksAdded), initial_state).
Proof.
  rewrite (no_rows_no_tasks example_env (mkTasks "tasks.tsv" (Some 3%Z) None)
             (mkRecord ["--input IN"] 0)
             [mkRecord ["not?valid"] 0; mkRecord [] 0] initial_state).
  - reflexivity.
  - intros r [<-|[<-|[]]]; left; reflexivity.
Defined.

(** Compiling the cells of a row reads the factories and changes
    nothing. *)
Lemma row_params_state (env : os_env) (job_params : list Param) (row : list string) :
  forall i t st, snd (row_params env job_params row i t st) = st.
Proof.
  induction job_params as [|param rest IH]; intros i t st; [reflexivity|].
  cbn [row_params]. unfold bindM at 1.
  match goal with
  | |- snd (let (_, _) := ?m st in _) = _ => destruct (m st) as [[t1|e] st1] eqn:E
  end.
  - rewrite IH.
    destruct param as [p|p|f]; [| |destruct (fp_class f)];
      unfold bindM, lift, ret, input_make_param, output_make_param in E;
      repeat match type of E with
      | context [match ?x with _ => _ end] => destruct x; try discriminate
      end; now injection E.
  - cbn [snd].
    destruct param as [p|p|f]; [| |destruct (fp_class f)];
      unfold bindM, lift, ret, input_make_param, output_make_param in E;
      repeat match type of E with
      | context [match ?x with _ => _ end] => destruct x; try discriminate
      end; now injection E.
Qed.

Lemma bindM_fst_agree {A B : Type} (m : M A) (k : A -> M B) (st st2 : state) :
  fst (m st2) = fst (m st) -> snd (m st2) = st2 -> snd (m st) = st ->
  (forall a, fst (k a st2) = fst (k a st)) ->
  fst (bindM m k st2) = fst (bindM m k st).
Proof.
  unfold bindM. destruct (m st2) as [r2 s2], (m st) as [r1 s1]. cbn [fst snd].
  intros -> -> -> Hk. destruct r1; [apply Hk | reflexivity].
Qed.

(** The result depends on the factories only, not on the error stream. *)
Lemma row_params_stderr (env : os_env) (job_params : list Param) (row : list string) :
  forall i t st msgs,
    fst (row_params env job_params row i t
           (mkState (input_file_param_util st) (output_file_param_util st) msgs))
    = fst (row_params env job_params row i t st).
Proof.
  induction job_params as [|param rest IH]; intros i t st msgs; [reflexivity|].
  cbn [row_params]. apply bindM_fst_agree; [| | |intros a; apply IH];
    destruct param as [p|p|f]; try destruct (fp_class f);
      unfold bindM, lift, ret, input_make_param, output_make_param;
      cbn [fst snd input_file_param_util output_file_param_util];
      repeat match goal with
      | |- context [match ?x with _ => _ end] => destruct x; cbn [fst snd]
      end; auto.
Qed.

Lemma bindM_ext {A B : Type} (m : M A) (k1 k2 : A -> M B) (st : state) :
  (forall a st', k1 a st' = k2 a st') -> bindM m k1 st = bindM m k2 st.
Proof.
  intros H. unfold bindM. destruct (m st) as [[a|e] st']; [apply H | reflexivity].
Qed.

Lemma row_params_extra (env : os_env) (job_params : list Param)
      (row extra : list string) :
  forall i t st,
    (i + List.length job_params <= List.length row)%nat ->
    row_params env job_params (row ++ extra) i t st
    = row_params env job_params row i t st.
Proof.
  induction job_params as [|param rest IH]; intros i t st Hlen; [reflexivity|].
  cbn [List.length] in Hlen. cbn [row_params].
  assert (row_get (row ++ extra) i = row_get row i) as Hget.
  { unfold row_get. rewrite nth_error_app1 by lia. reflexivity. }
  rewrite Hget. apply bindM_ext. intros a st'. apply IH. lia.
Qed.

(** X12. A row with more cells than the header has columns is compiled
    from its leading cells alone: the result is that of the row cut to the
    width of the header, and the only effect is the line that reports the
    width on the error stream. *)
Theorem long_row_ignores_extra_cells (env : os_env) (job_params : list Param)
        (line_num : Z) (row extra : list string) (st : state) :
  List.length row = List.length job_params ->
  extra <> [] ->
  compile_row env job_params line_num (row ++ extra) st
  = (fst (compile_row env job_params line_num row st),
     with_message st
       (field_count_message (List.length row + List.length extra)
                            (List.length job_params) line_num)).
Proof.
  intros Hlen Hextra. unfold compile_row.
  rewrite length_app, Hlen, Nat.eqb_refl. cbn [negb].
  assert ((List.length job_params + List.length extra =? List.length job_params)%nat
          = false) as Hne.
  { apply Nat.eqb_neq. destruct extra; [contradiction | cbn [List.length]; lia]. }
  rewrite Hne. cbn [negb]. unfold bindM, print_error, ret.
  rewrite row_params_extra by lia.
  fold (with_message st (field_count_message
                           (List.length job_params + List.length extra)
                           (List.length job_params) line_num)).
  set (msg := field_count_message _ _ _).
  pose proof (row_params_state env job_params row 0
                (mkTask (Some (line_num - 1)%Z) [] [] [] []) (with_message st msg)) as Hs.
  pose proof (row_params_stderr env job_params row 0
                (mkTask (Some (line_num - 1)%Z) [] [] [] []) st (stderr st ++ [msg])) as Hf.
  fold (with_message st msg) in Hf.
  destruct (row_params env job_params row 0 _ (with_message st msg)) as [r s].
  cbn [fst snd] in Hs, Hf. subst s. now rewrite Hf.
Qed.

Lemma long_row_ignores_extra_cells_witness :
  compile_row example_env [PEnv (mkEnvParam "A" None)] 2 (["x"] ++ ["y"; "z"]) initial_state
  = (Ok (mkTask (Some 1%Z) [] [mkEnvParam "A" (Some "x")] [] []),
     with_message initial_state "Unexpected number of fields 3 vs 1: line 2").
Proof.
  apply (long_row_ignores_extra_cells example_env [PEnv (mkEnvParam "A" None)] 2
           ["x"] ["y"; "z"] initial_state eq_refl).
  discriminate.
Defined.

(** ** Task table: a table of environment values *)

Lemma posix_name_valid (n : string) :
  posix_name n ->
  Str.startswith n "-" = false /\ forall v, EnvParam_new (Some n) v = Ok (mkEnvParam n v).
Proof.
  intros H. split.
  - destruct n as [|c r]; [contradiction|]. destruct H as [Hc _].
    unfold Str.startswith. cbn [String.prefix].
    destruct (ascii_dec "-" c) as [<-|_]; [discriminate Hc | reflexivity].
  - intros v. unfold EnvParam_new, validate_param_name.
    replace (Re.match_param_name n) with true; [reflexivity|].
    symmetry. apply match_param_name_iff. exists n. split; [exact H | now left].
Qed.

Lemma parse_header_env (names : list string) (st : state) :
  Forall posix_name names ->
  parse_tasks_file_header names st = (Ok (map env_column names), st).
Proof.
  induction 1 as [|n names Hn _ IH]; [reflexivity|].
  cbn [parse_tasks_file_header map]. unfold bindM at 1.
  destruct (posix_name_valid n Hn) as [Hd Hv].
  unfold parse_column at 1. rewrite Hd. unfold bindM at 1, lift at 1.
  change (opt_eqb (Some "--env") "--env") with true. cbv iota.
  unfold bindM at 1, lift at 1. rewrite Hv. unfold ret at 1.
  unfold bindM. now rewrite IH.
Qed.

Lemma row_params_env (env : os_env) (names : list string) :
  Forall posix_name names ->
  forall before cells t st,
    List.length cells = List.length names ->
    row_params env (map env_column names) (before ++ cells) (List.length before) t st
    = (Ok (mkTask (task_id t) (labels t)
             (envs t ++ map (fun nv => mkEnvParam (fst nv) (Some (snd nv)))
                            (combine names cells))
             (inputs t) (outputs t)), st).
Proof.
  induction 1 as [|n names Hn _ IH]; intros before cells t st Hlen.
  - cbn. rewrite app_nil_r. now destruct t.
  - destruct cells as [|cell cells]; [discriminate|]. cbn [List.length] in Hlen.
    cbn [map row_params env_column param_name env_name].
    unfold bindM at 1 2, lift at 1, row_get.
    rewrite nth_error_app2 by lia. rewrite Nat.sub_diag. cbn [nth_error].
    unfold bindM at 1, lift at 1.
    rewrite (proj2 (posix_name_valid n Hn)). unfold ret at 1.
    replace (S (List.length before)) with (List.length (before ++ [cell]))
      by (rewrite length_app; cbn; lia).
    replace (before ++ cell :: cells)%list with ((before ++ [cell]) ++ cells)%list
      by (now rewrite <- app_assoc).
    rewrite IH by lia. cbn [task_id labels envs inputs outputs combine map fst snd].
    now rewrite <- app_assoc.
Qed.

Lemma compile_rows_env (env : os_env) (names : list string) :
  Forall posix_name names ->
  forall rows line_num job_data st,
    Forall (fun row => List.length row = List.length names) rows ->
    compile_rows env (map env_column names) None None
      (read_records line_num (one_line_records rows)) job_data st
    = (Ok (job_data ++ env_tasks names line_num rows)%list, st).
Proof.
  intros Hn. induction rows as [|row rows IH]; intros line_num job_data st Hrows.
  - cbn. now rewrite app_nil_r.
  - inversion Hrows as [|? ? Hrow Hrest]; subst.
    cbn [one_line_records map read_records fields extra_lines compile_rows
         below_min above_max].
    unfold compile_row, bindM.
    rewrite length_map, Hrow, Nat.eqb_refl. cbn [negb]. unfold ret at 1.
    pose proof (row_params_env env names Hn [] row
                  (mkTask (Some (line_num + 1 + Z.of_nat 0 - 1)%Z) [] [] [] []) st Hrow) as E.
    cbn [app List.length task_id labels envs inputs outputs] in E. rewrite E.
    fold (one_line_records rows). rewrite IH by assumption.
    cbn [env_tasks]. unfold env_task.
    replace (line_num + 1 + Z.of_nat 0 - 1)%Z with line_num by (cbn; lia).
    replace (line_num + 1 + Z.of_nat 0)%Z with (line_num + 1)%Z by (cbn; lia).
    now rewrite <- app_assoc.
Qed.

(** X13. A table whose header is made of plain names and whose rows all
    have the width of the header compiles, without a filter, to one task
    per row, numbered from 1, whose environment pairs each name with the
    cell under it, whatever the cells hold; nothing is written to the
    error stream and the factories stay as they were. *)
Theorem env_table_positional (env : os_env) (tasks_path : string)
        (names : list string) (rows : list (list string)) (st : state) :
  Forall posix_name names ->
  Forall (fun row => List.length row = List.length names) rows ->
  rows <> [] ->
  tasks_file_to_job_data env (mkTasks tasks_path None None)
    (mkRecord names 0 :: one_line_records rows) st
  = (Ok (env_tasks names 1 rows), st).
Proof.
  intros Hn Hrows Hne. unfold tasks_file_to_job_data.
  cbn [fields extra_lines tasks_min tasks_max]. unfold bindM.
  rewrite (parse_header_env names st Hn).
  change (1 + Z.of_nat 0)%Z with 1%Z.
  rewrite (compile_rows_env env names Hn rows 1 [] st Hrows). cbn [app].
  destruct rows as [|row rows']; [contradiction | reflexivity].
Qed.

Lemma env_table_positional_witness :
  tasks_file_to_job_data example_env (mkTasks "tasks.tsv" None None)
    (mkRecord ["SAMPLE"; "RUN"] 0 :: one_line_records [["s1"; "r 1"]; ["s2"; ""]])
    initial_state
  = (Ok [mkTask (Some 1%Z) []
           [mkEnvParam "SAMPLE" (Some "s1"); mkEnvParam "RUN" (Some "r 1")] [] [];
         mkTask (Some 2%Z) []
           [mkEnvParam "SAMPLE" (Some "s2"); mkEnvParam "RUN" (Some "")] [] []],
     initial_state).
Proof.
  apply (env_table_positional example_env "tasks.tsv" ["SAMPLE"; "RUN"]
           [["s1"; "r 1"]; ["s2"; ""]] initial_state).
  - repeat constructor.
  - repeat constructor.
  - discriminate.
Defined.

(** ** Task table: what the rows leave alone *)

Lemma compile_row_state (env : os_env) (job_params : list Param)
      (line_num : Z) (row : list string) (st : state) :
  snd (compile_row env job_params line_num row st) = st
  \/ exists msg, snd (compile_row env job_params line_num row st) = with_message st msg.
Proof.
  unfold compile_row, bindM.
  destruct (negb (List.length row =? List.length job_params)%nat).
  - right. eexists. unfold print_error, with_message. cbv beta iota.
    apply row_params_state.
  - left. unfold ret. cbv beta iota. apply row_params_state.
Qed.

(** X14. Compiling the data rows never touches the two factories, so the
    counters of the generated names move in the header only; and it adds
    at most one line per row to the error stream, after what was there. *)
Theorem rows_leave_factories (env : os_env) (job_params : list Param)
        (task_min task_max : option Z) (rows : list (Z * list string))
        (job_data : list task) (st : state) :
  input_file_param_util
    (snd (compile_rows env job_params task_min task_max rows job_data st))
  = input_file_param_util st
  /\ output_file_param_util
       (snd (compile_rows env job_params task_min task_max rows job_data st))
     = output_file_param_util st
  /\ exists msgs,
      stderr (snd (compile_rows env job_params task_min task_max rows job_data st))
      = (stderr st ++ msgs)%list
      /\ (List.length msgs <= List.length rows)%nat.
Proof.
  revert job_data st. induction rows as [|[line_num row] rows IH]; intros job_data st.
  - cbn. repeat split. exists []. now rewrite app_nil_r.
  - cbn [compile_rows].
    assert (forall jd,
               input_file_param_util
                 (snd (compile_rows env job_params task_min task_max rows jd st))
               = input_file_param_util st
               /\ output_file_param_util
                    (snd (compile_rows env job_params task_min task_max rows jd st))
                  = output_file_param_util st
               /\ exists msgs,
                   stderr (snd (compile_rows env job_params task_min task_max rows jd st))
                   = (stderr st ++ msgs)%list
                   /\ (List.length msgs <= List.length ((line_num, row) :: rows))%nat)
      as Hskip.
    { intros jd. destruct (IH jd st) as (H1 & H2 & msgs & H3 & H4).
      repeat split; try assumption. exists msgs. split; [assumption | cbn; lia]. }
    destruct (below_min task_min (line_num - 1)); [apply Hskip|].
    destruct (above_max task_max (line_num - 1)); [apply Hskip|].
    unfold bindM.
    pose proof (compile_row_state env job_params line_num row st) as Hs.
    destruct (compile_row env job_params line_num row st) as [[t|e] st1];
      cbn [snd] in Hs.
    + destruct (IH (job_data ++ [t])%list st1) as (H1 & H2 & msgs & H3 & H4).
      destruct Hs as [->|[msg ->]].
      * repeat split; try assumption. exists msgs. split; [assumption | cbn; lia].
      * cbn [with_message input_file_param_util output_file_param_util stderr] in *.
        repeat split; try assumption. exists (msg :: msgs).
        split; [rewrite H3; now rewrite <- app_assoc | cbn; lia].
    + cbn [snd]. destruct Hs as [->|[msg ->]].
      * repeat split. exists []. split; [now rewrite app_nil_r | cbn; lia].
      * cbn [with_message input_file_param_util output_file_param_util stderr].
        repeat split. exists [msg]. split; [reflexivity | cbn; lia].
Qed.

(** ** Command line: the single task *)

Lemma parse_pair_args_length {A : Type} (args : list string)
      (argclass : option string -> option string -> result A) :
  forall out, parse_pair_args args argclass = Ok out ->
              List.length out = List.length args.
Proof.
  induction args as [|arg rest IH]; intros out H.
  - injection H as <-. reflexivity.
  - cbn [parse_pair_args] in H.
    destruct (split_pair arg "=" 1) as [[name value]|e]; cbn [bind] in H; [|discriminate].
    destruct (argclass name value) as [a|e]; cbn [bind] in H; [|discriminate].
    destruct (parse_pair_args rest argclass) as [others|e]; cbn [bind] in H;
      [|discriminate].
    injection H as <-. cbn [List.length]. now rewrite (IH _ eq_refl).
Qed.

Lemma split_pair_value (token : string) :
  exists name, split_pair token "=" 0 = Ok (name, Some (token_value token)).
Proof.
  unfold split_pair, token_value.
  destruct (Str.split1 "=" token) as [a [b|]]; cbn [Z.eqb]; eauto.
Qed.

Lemma make_param_fields (self : FileParamUtil) (env : os_env)
      (name raw_uri : string) (rec : bool) (p : FileParam) :
  make_param self env name raw_uri rec = Ok p ->
  recursive p = rec /\ fp_value p = Some raw_uri /\ fp_name p = name
  /\ fp_class p = param_class self.
Proof.
  unfold make_param.
  destruct (parse_uri self env raw_uri rec) as [[[d parts] prov]|e]; cbn [bind];
    [|discriminate].
  unfold FileParam_new.
  destruct (match param_class self with
            | FileParamClass => Ok tt
            | InputFileParamClass => validate_param_name (Some name) "Input parameter"
            | OutputFileParamClass => validate_param_name (Some name) "Output parameter"
            end) as [[]|e]; cbn [bind]; [|discriminate].
  intros H; injection H as <-. now repeat split.
Qed.

Lemma file_args_recorded (get_name : option string -> M string)
      (make : string -> string -> bool -> M FileParam) (rec : bool) :
  (forall name value st p st',
      make name value rec st = (Ok p, st') ->
      recursive p = rec /\ fp_value p = Some value) ->
  forall args data st out st',
    file_args get_name make rec args data st = (Ok out, st') ->
    exists new,
      out = (data ++ new)%list
      /\ map recursive new = repeat rec (List.length args)
      /\ map fp_value new = map (fun token => Some (token_value token)) args.
Proof.
  intros Hmake. induction args as [|arg rest IH]; intros data st out st' H.
  - injection H as <- _. exists []. now rewrite app_nil_r.
  - cbn [file_args] in H. unfold bindM at 1, lift in H.
    destruct (split_pair_value arg) as [name Hs]. rewrite Hs in H.
    unfold bindM at 1 in H.
    destruct (get_name name st) as [[n|e] st1]; [|discriminate].
    unfold bindM at 1 in H.
    destruct (make n (token_value arg) rec st1) as [[p|e] st2] eqn:Em; [|discriminate].
    destruct (Hmake _ _ _ _ _ Em) as [Hr Hv].
    apply IH in H as (new & -> & Hrec & Hval).
    exists (p :: new). rewrite <- app_assoc. split; [reflexivity|].
    cbn [map List.length repeat]. now rewrite Hr, Hv, Hrec, Hval.
Qed.

(** X15. A command line that compiles gives exactly one task, without a
    task number: it has one environment variable and one label per token,
    its inputs are those of the plain tokens followed by those of the
    recursive ones, marked so, each recording as its value the text after
    the first [=] of its token (the whole token when there is none), and
    its outputs likewise. *)
Theorem args_single_task (env : os_env)
        (env_args label_args input_args input_recursive_args
         output_args output_recursive_args : list string)
        (st st' : state) (tasks : list task) :
  args_to_job_data env env_args label_args input_args input_recursive_args
    output_args output_recursive_args st = (Ok tasks, st') ->
  exists t,
    tasks = [t] /\ task_id t = None
    /\ List.length (envs t) = List.length env_args
    /\ List.length (labels t) = List.length label_args
    /\ map recursive (inputs t)
       = (repeat false (List.length input_args)
          ++ repeat true (List.length input_recursive_args))%list
    /\ map fp_value (inputs t)
       = map (fun token => Some (token_value token))
             (input_args ++ input_recursive_args)
    /\ map recursive (outputs t)
       = (repeat false (List.length output_args)
          ++ repeat true (List.length output_recursive_args))%list
    /\ map fp_value (outputs t)
       = map (fun token => Some (token_value token))
             (output_args ++ output_recursive_args).
Proof.
  assert (forall rec name value st0 p st1,
             input_make_param env name value rec st0 = (Ok p, st1) ->
             recursive p = rec /\ fp_value p = Some value) as Hin.
  { unfold input_make_param. intros rec name value st0 p st1 H. injection H as H _.
    apply make_param_fields in H. tauto. }
  assert (forall rec name value st0 p st1,
             output_make_param env name value rec st0 = (Ok p, st1) ->
             recursive p = rec /\ fp_value p = Some value) as Hout.
  { unfold output_make_param. intros rec name value st0 p st1 H. injection H as H _.
    apply make_param_fields in H. tauto. }
  unfold args_to_job_data. intros H.
  unfold bindM at 1, lift at 1 in H.
  destruct (parse_pair_args env_args EnvParam_new) as [env_data|e] eqn:Ee; [|discriminate].
  unfold bindM at 1, lift at 1 in H.
  destruct (parse_pair_args label_args LabelParam_new) as [label_data|e] eqn:El;
    [|discriminate].
  unfold bindM at 1 in H.
  destruct (file_args _ _ false input_args [] st) as [[i1|e] s1] eqn:E1; [|discriminate].
  unfold bindM at 1 in H.
  destruct (file_args _ _ true input_recursive_args i1 s1) as [[i2|e] s2] eqn:E2;
    [|discriminate].
  unfold bindM at 1 in H.
  destruct (file_args _ _ false output_args [] s2) as [[o1|e] s3] eqn:E3; [|discriminate].
  unfold bindM at 1 in H.
  destruct (file_args _ _ true output_recursive_args o1 s3) as [[o2|e] s4] eqn:E4;
    [|discriminate].
  injection H as <- _.
  apply (file_args_recorded _ _ false (Hin false)) in E1 as (n1 & -> & R1 & V1).
  apply (file_args_recorded _ _ true (Hin true)) in E2 as (n2 & -> & R2 & V2).
  apply (file_args_recorded _ _ false (Hout false)) in E3 as (m1 & -> & R3 & V3).
  apply (file_args_recorded _ _ true (Hout true)) in E4 as (m2 & -> & R4 & V4).
  eexists. split; [reflexivity|]. cbn [task_id envs labels inputs outputs app].
  rewrite !map_app, R1, R2, R3, R4, V1, V2, V3, V4.
  rewrite (parse_pair_args_length _ _ _ Ee), (parse_pair_args_length _ _ _ El).
  now repeat split.
Qed.

Lemma args_single_task_witness :
  exists t,
    one_input
      (mkFileParam InputFileParamClass "IN" (Some "gs://b/x=y")
         (Some "input/gs/b/x=y") (Some (mkUriParts "gs://b/" "x=y"))
         false (Some P_GCS)) = [t]
    /\ task_id t = None
    /\ List.length (envs t) = 0%nat
    /\ List.length (labels t) = 0%nat
    /\ map recursive (inputs t) = [false]
    /\ map fp_value (inputs t) = [Some "gs://b/x=y"]
    /\ map recursive (outputs t) = []
    /\ map fp_value (outputs t) = [].
Proof.
  exact (args_single_task example_env [] [] ["IN=gs://b/x=y"] [] [] []
           initial_state initial_state _ eq_refl).
Defined.

(** ** Ages: the length of the interval decides *)

Lemma age_body_interval (init : string) (unit : ascii) (secs n : Z)
      (from_time : Age.datetime) :
  unit_seconds unit = Some secs ->
  Age.int init = Ok n ->
  Age.age_body (init ++ String unit "") from_time
  = (interval <- Age.timedelta_new (n * secs * Age.us_per_second)%Z ;;
     start <- Age.datetime_sub from_time interval ;;
     Ok (Age.epoch_seconds start)).
Proof.
  intros Hu Hint. unfold Age.age_body.
  rewrite split_last_snoc, unit_us_seconds, Hu. cbn [option_map].
  rewrite Hint. cbn [bind]. now rewrite Z.mul_assoc.
Qed.

Lemma timedelta_new_ok (us : Z) (td : Age.timedelta) :
  Age.timedelta_new us = Ok td -> td = us.
Proof.
  unfold Age.timedelta_new.
  destruct (_ || _); [discriminate | now intros [= <-]].
Qed.

Lemma datetime_sub_ok (t : Age.datetime) (interval : Age.timedelta) (r : Age.datetime) :
  Age.datetime_sub t interval = Ok r -> r = (t - interval)%Z /\ valid_datetime r.
Proof.
  unfold Age.datetime_sub, valid_datetime.
  destruct (Z.ltb_spec (t - interval) 0); [discriminate|].
  destruct (Z.ltb_spec Age.datetime_max (t - interval)); [discriminate|].
  cbn [orb]. intros [= <-]. split; [reflexivity | lia].
Qed.

Lemma age_ok_iff (init : string) (unit : ascii) (from_time : Age.datetime) (v : option Z) :
  Age.age_to_create_time (Some (init ++ String unit "")) from_time = Ok v
  <-> exists w, v = Some w
                /\ Age.age_body (init ++ String unit "") from_time = Ok w.
Proof.
  rewrite age_to_create_time_snoc.
  destruct (Age.age_body (init ++ String unit "") from_time) as [w|[]]; split;
    try discriminate; try (intros (w' & _ & H); discriminate).
  - intros H; injection H as <-. now exists w.
  - intros (w' & -> & H). now injection H as ->.
Qed.

(** X16. For ages made of an integer and a unit, only the length of the
    interval counts: two ages of the same length (7 days and 1 week, 60
    seconds and 1 minute) give the same time or are both refused, and of
    two ages that both give a time the longer one gives the earlier or
    the same time. *)
Theorem age_depends_on_interval (from_time : Age.datetime)
        (init1 init2 : string) (unit1 unit2 : ascii) (secs1 secs2 n1 n2 : Z) :
  unit_seconds unit1 = Some secs1 ->
  unit_seconds unit2 = Some secs2 ->
  Age.int init1 = Ok n1 ->
  Age.int init2 = Ok n2 ->
  ((n1 * secs1 = n2 * secs2)%Z ->
   forall v,
     Age.age_to_create_time (Some (init1 ++ String unit1 "")) from_time = Ok v
     <-> Age.age_to_create_time (Some (init2 ++ String unit2 "")) from_time = Ok v)
  /\ ((n1 * secs1 <= n2 * secs2)%Z ->
      forall v1 v2,
        Age.age_to_create_time (Some (init1 ++ String unit1 "")) from_time
        = Ok (Some v1) ->
        Age.age_to_create_time (Some (init2 ++ String unit2 "")) from_time
        = Ok (Some v2) ->
        (v2 <= v1)%Z).
Proof.
  intros Hu1 Hu2 Hi1 Hi2. split.
  - intros E v. rewrite !age_ok_iff.
    rewrite (age_body_interval _ _ _ _ _ Hu1 Hi1), (age_body_interval _ _ _ _ _ Hu2 Hi2).
    now rewrite E.
  - intros Hle v1 v2 H1 H2.
    apply age_ok_iff in H1 as (w1 & [= <-] & H1). apply age_ok_iff in H2 as (w2 & [= <-] & H2).
    rewrite (age_body_interval _ _ _ _ _ Hu1 Hi1) in H1.
    rewrite (age_body_interval _ _ _ _ _ Hu2 Hi2) in H2.
    destruct (Age.timedelta_new (n1 * secs1 * Age.us_per_second)) as [i1|] eqn:T1;
      cbn [bind] in H1; [|discriminate].
    destruct (Age.timedelta_new (n2 * secs2 * Age.us_per_second)) as [i2|] eqn:T2;
      cbn [bind] in H2; [|discriminate].
    apply timedelta_new_ok in T1 as ->. apply timedelta_new_ok in T2 as ->.
    destruct (Age.datetime_sub from_time _) as [s1|] eqn:D1 in H1;
      cbn [bind] in H1; [|discriminate].
    destruct (Age.datetime_sub from_time _) as [s2|] eqn:D2 in H2;
      cbn [bind] in H2; [|discriminate].
    apply datetime_sub_ok in D1 as [-> V1]. apply datetime_sub_ok in D2 as [-> V2].
    injection H1 as <-. injection H2 as <-.
    apply epoch_seconds_mono; [exact V2 | exact V1|].
    assert (0 < Age.us_per_second)%Z by reflexivity. nia.
Qed.

Lemma age_depends_on_interval_witness :
  Age.age_to_create_time (Some "7d") (Age.epoch + 7200 * Age.us_per_second)%Z
  = Ok (Some (-597600)%Z)
  <-> Age.age_to_create_time (Some "1w") (Age.epoch + 7200 * Age.us_per_second)%Z
      = Ok (Some (-597600)%Z).
Proof.
  exact (proj1 (age_depends_on_interval (Age.epoch + 7200 * Age.us_per_second)%Z
                  "7" "1" "d"%char "w"%char 86400%Z 604800%Z 7%Z 1%Z
                  eq_refl eq_refl eq_refl eq_refl) eq_refl (Some (-597600)%Z)).
Defined.

(** ** Generated names are valid names *)

Lemma string_of_uint_digits (d : Decimal.uint) :
  Str.forallb Str.is_digit (NilEmpty.string_of_uint d) = true.
Proof. induction d; cbn [NilEmpty.string_of_uint Str.forallb]; now rewrite ?IHd. Qed.

Lemma of_nat_digits (n : nat) : Str.forallb Str.is_digit (Str.of_nat n) = true.
Proof.
  unfold Str.of_nat, NilZero.string_of_uint.
  destruct (Nat.to_uint n) eqn:E; try (rewrite <- E; apply string_of_uint_digits).
  reflexivity.
Qed.

Lemma forallb_app (p : ascii -> bool) (a b : string) :
  Str.forallb p (a ++ b) = Str.forallb p a && Str.forallb p b.
Proof.
  induction a as [|c a IH]; [reflexivity|]. cbn [append Str.forallb].
  now rewrite IH, andb_assoc.
Qed.

Lemma forallb_impl (p q : ascii -> bool) (s : string) :
  (forall c, p c = true -> q c = true) ->
  Str.forallb p s = true -> Str.forallb q s = true.
Proof.
  intros H. induction s as [|c s IH]; [reflexivity|]. cbn [Str.forallb].
  intros E. apply andb_true_iff in E as [E1 E2]. now rewrite (H _ E1), (IH E2).
Qed.

(** X17. When the prefix of a factory is a plain name, as [INPUT_] and
    [OUTPUT_] are, every name the factory generates is a plain name, so
    that it passes the validation of parameter names. *)
Theorem generated_name_valid (u : FileParamUtil) (param_type : string) :
  posix_name (_auto_prefix u) ->
  posix_name (fst (get_variable_name u None))
  /\ posix_name (fst (get_variable_name u (Some "")))
  /\ validate_param_name (Some (fst (get_variable_name u None))) param_type = Ok tt.
Proof.
  intros Hp.
  assert (posix_name (_auto_prefix u ++ Str.of_nat (_auto_index u))) as Hn.
  { destruct (_auto_prefix u) as [|c r]; [contradiction|]. destruct Hp as [Hc Hr].
    cbn [append posix_name]. split; [exact Hc|].
    rewrite forallb_app, Hr. cbn [andb].
    apply (forallb_impl Str.is_digit); [|apply of_nat_digits].
    intros x Hx. unfold Re.name_char. rewrite Hx. now rewrite orb_true_r. }
  cbn [get_variable_name fst]. repeat split; try exact Hn.
  unfold validate_param_name.
  rewrite (proj2 (match_param_name_iff _)); [reflexivity|].
  eexists. split; [exact Hn | now left].
Qed.

Lemma generated_name_valid_witness :
  posix_name "INPUT_0" /\ posix_name "INPUT_0"
  /\ validate_param_name (Some "INPUT_0") "Input parameter" = Ok tt.
Proof.
  apply (generated_name_valid (InputFileParamUtil "input") "Input parameter").
  cbn. split; reflexivity.
Defined.

(** ** The file name of a reference *)

Lemma cut_no_slash (g : string) :
  Str.char_in "/" g = false -> posixpath.cut g = ("", g).
Proof.
  destruct g as [|c g]; [reflexivity|]. cbn [Str.char_in posixpath.cut].
  intros H. apply orb_false_iff in H as [Hc Hg]. rewrite Hg.
  rewrite Ascii.eqb_sym, Hc. reflexivity.
Qed.

Lemma basename_after_slash (x g : string) :
  posixpath.basename (x ++ String "/" g) = posixpath.basename g.
Proof.
  unfold posixpath.basename.
  assert (snd (posixpath.cut (String "/" g)) = snd (posixpath.cut g)) as Hbase.
  { cbn [posixpath.cut]. destruct (Str.char_in "/" g) eqn:E.
    - now destruct (posixpath.cut g).
    - rewrite Ascii.eqb_refl. now rewrite (cut_no_slash _ E). }
  induction x as [|c x IH]; [exact Hbase|].
  cbn [append posixpath.cut].
  replace (Str.char_in "/" (x ++ String "/" g)) with true.
  - destruct (posixpath.cut (x ++ String "/" g)). exact IH.
  - symmetry. apply char_in_occurs. now exists x, g.
Qed.

Lemma cut_parts (p : string) :
  p = fst (posixpath.cut p) ++ snd (posixpath.cut p).
Proof.
  induction p as [|c p IH]; [reflexivity|]. cbn [posixpath.cut].
  destruct (Str.char_in "/" p).
  - destruct (posixpath.cut p) as [h t]. cbn [fst snd] in *. cbn [append]. now f_equal.
  - destruct (Ascii.eqb_spec c "/") as [->|_]; reflexivity.
Qed.

Lemma ends_with_basename (p : string) : exists q, p = q ++ posixpath.basename p.
Proof. exists (fst (posixpath.cut p)). apply cut_parts. Qed.

Lemma join_ends_with (a b f : string) :
  (exists q, b = q ++ f) -> exists q, posixpath.join a b = q ++ f.
Proof.
  intros [q ->]. unfold posixpath.join.
  destruct (Str.startswith (q ++ f) "/"); [now exists q|].
  destruct (String.eqb a "" || Str.endswith a "/").
  - exists (a ++ q). now rewrite append_assoc.
  - exists (a ++ "/" ++ q). now rewrite !append_assoc.
Qed.

Lemma replace_gs_keeps_basename (raw_uri : string) :
  exists q, Str.replace_first "gs://" "gs/" raw_uri = q ++ posixpath.basename raw_uri.
Proof.
  destruct (replace_first_spec "gs://" "gs/" raw_uri)
    as [[_ ->]|(pre & post & E & ->)].
  - apply ends_with_basename.
  - assert (posixpath.basename raw_uri = posixpath.basename post) as ->.
    { rewrite E. change (pre ++ "gs://" ++ post) with (pre ++ ("gs:/" ++ String "/" post)).
      rewrite <- append_assoc. apply basename_after_slash. }
    destruct (ends_with_basename post) as [q Hq].
    exists (pre ++ "gs/" ++ q). rewrite Hq at 1. now rewrite !append_assoc.
Qed.

Lemma parse_uri_file_parts (self : FileParamUtil) (env : os_env)
        (raw_uri docker : string) (parts : UriParts) (prov : provider) :
  parse_uri self env raw_uri false = Ok (docker, parts, prov) ->
  basename parts = posixpath.basename raw_uri
  /\ exists q, docker = q ++ posixpath.basename raw_uri.
Proof.
  unfold parse_uri.
  destruct (parse_file_provider raw_uri) as [file_provider|e]; cbn [bind]; [|discriminate].
  destruct (_validate_paths_or_fail raw_uri false) as [[]|e]; cbn [bind]; [|discriminate].
  unfold rewrite_uris. destruct file_provider.
  - unfold _local_uri_rewriter, posixpath.split, posixpath.basename.
    pose proof (cut_tail_no_slash raw_uri) as Hf.
    destruct (posixpath.cut raw_uri) as [head filename]; cbn [snd] in *.
    destruct (apply_prefix_replacements _ _) as [normed_path|e]; cbn [bind];
      [|discriminate].
    intros H; injection H as <- <- <-. cbn [basename]. split.
    + rewrite (join_directory _ _ Hf).
      change (?x ++ "/" ++ filename) with (x ++ String "/" filename).
      fold (posixpath.basename (Str.rstrip "/" (posixpath.abspath (cwd env) normed_path)
                                ++ String "/" filename)).
      rewrite basename_after_slash. unfold posixpath.basename.
      now rewrite (cut_no_slash _ Hf).
    + apply join_ends_with. unfold local_docker_path. eexists. reflexivity.
  - cbn [_gcs_uri_rewriter bind]. intros H; injection H as <- <- <-. cbn [basename].
    split; [reflexivity|]. apply join_ends_with, replace_gs_keeps_basename.
Qed.

(** X18. A reference that is not recursive keeps its file name, wildcard
    included: the base name of the resolved URI is the part of the raw URI
    after its last slash, and the container path ends with it. *)
Theorem file_name_is_kept (self : FileParamUtil) (env : os_env)
        (raw_uri docker : string) (parts : UriParts) (prov : provider) :
  parse_uri self env raw_uri false = Ok (docker, parts, prov) ->
  basename parts = posixpath.basename raw_uri
  /\ exists q, docker = q ++ posixpath.basename raw_uri.
Proof. apply parse_uri_file_parts. Qed.

Lemma file_name_is_kept_witness :
  basename (mkUriParts "/home/u/localdata/" "*.bam") = posixpath.basename "~/localdata/*.bam"
  /\ exists q, "input/file/_home_/localdata/*.bam" = q ++ posixpath.basename "~/localdata/*.bam".
Proof.
  exact (file_name_is_kept (InputFileParamUtil "input") example_env "~/localdata/*.bam"
           "input/file/_home_/localdata/*.bam"
           (mkUriParts "/home/u/localdata/" "*.bam") P_LOCAL eq_refl).
Defined.

(** ** Header columns *)

Lemma parse_column_unrecognized (col : string) (st : state) :
  Str.startswith col "-" = true ->
  ~ In (fst (Str.split1 " " col)) column_types ->
  parse_column col st = (Raise (ValueError (UnrecognizedColumnHeader col)), st).
Proof.
  intros Hd Hty. unfold parse_column. rewrite Hd. unfold split_pair.
  destruct (Str.split1 " " col) as [ty rest] eqn:E. cbn [fst] in Hty.
  assert (forall k, In k column_types -> String.eqb ty k = false) as Hk.
  { intros k Hin. apply String.eqb_neq. intros ->. contradiction. }
  unfold column_types in Hk.
  destruct rest as [r|]; cbn [Z.eqb Pos.eqb]; unfold bindM at 1, lift at 1;
    cbn [opt_eqb]; rewrite !Hk by (cbn; tauto); reflexivity.
Qed.

(** X19. A header that parses gives one job parameter per column, each
    an environment variable, a label, an input or an output; and a column
    that starts with a dash and whose first word is none of the six kinds
    is refused as unrecognized, with the state as it was. *)
Theorem header_columns (header : list string) (st : state) :
  (forall job_params st',
      parse_tasks_file_header header st = (Ok job_params, st') ->
      List.length job_params = List.length header /\ Forall reads_cell job_params)
  /\ (forall col,
         Str.startswith col "-" = true ->
         ~ In (fst (Str.split1 " " col)) column_types ->
         parse_column col st = (Raise (ValueError (UnrecognizedColumnHeader col)), st)).
Proof.
  split.
  - intros job_params st'. apply parse_header_shape.
  - intros col. apply parse_column_unrecognized.
Qed.

Lemma header_columns_witness :
  parse_column "--inputs X" initial_state
  = (Raise (ValueError (UnrecognizedColumnHeader "--inputs X")), initial_state).
Proof.
  apply (proj2 (header_columns [] initial_state) "--inputs X" eq_refl).
  cbn. intros H. repeat (destruct H as [H|H]; [discriminate H|]). exact H.
Defined.

(** ** The home directory *)

Lemma join_opt_some (a b : string) : exists q, posixpath.join_opt (Some a) b = Ok q.
Proof.
  unfold posixpath.join_opt. destruct (Str.startswith b "/"); [eauto|].
  destruct (String.eqb a "" || Str.endswith a "/"); eauto.
Qed.

Lemma join_root (b : string) :
  exists r, posixpath.join_opt (Some "/") b = Ok (String "/" r).
Proof.
  unfold posixpath.join_opt. destruct (Str.startswith b "/") eqn:E.
  - apply prefix_slash in E as [r ->]. eauto.
  - cbn. eauto.
Qed.

Lemma apply_prefix_replacements_total (l : list (string * option string)) :
  Forall (fun pr => snd pr <> None) l ->
  forall p, exists q, apply_prefix_replacements l p = Ok q.
Proof.
  induction 1 as [|[prefix [replacement|]] l Hr _ IH]; intros p.
  - now exists p.
  - cbn [apply_prefix_replacements]. destruct (Str.startswith p prefix); [|apply IH].
    destruct (join_opt_some replacement (Str.drop (String.length prefix) p)) as [q ->].
    cbn [bind]. apply IH.
  - cbn in Hr. contradiction.
Qed.

(** X20. The rewriter of local URIs reads [HOME] in one case only.  With
    [HOME] unset it raises an attribute error exactly for a URI whose
    directory starts with [~/] followed by a relative path, and rewrites
    every other URI; with [HOME] set it rewrites every URI. *)
Theorem local_rewriter_needs_home (cwd uri : string) :
  (forall home, exists normalized docker,
        _local_uri_rewriter (mkEnv (Some home) cwd) uri = Ok (normalized, docker))
  /\ (needs_home uri = true ->
      _local_uri_rewriter (mkEnv None cwd) uri = Raise AttributeError)
  /\ (needs_home uri = false ->
      exists normalized docker,
        _local_uri_rewriter (mkEnv None cwd) uri = Ok (normalized, docker)).
Proof.
  split; [intros home; apply local_uri_rewriter_total|].
  unfold needs_home, _local_uri_rewriter.
  destruct (posixpath.split uri) as [raw_path filename]. cbn [fst].
  unfold prefix_replacements. cbn [HOME].
  remember [("./", Some ""); ("file:/", Some "/")] as tail eqn:Etail.
  assert (forall p, exists q, apply_prefix_replacements tail p = Ok q) as Hrest.
  { subst tail. apply apply_prefix_replacements_total.
    repeat constructor; discriminate. }
  cbn [apply_prefix_replacements String.length].
  destruct (Str.startswith raw_path "file:///") eqn:E1.
  - assert (Str.startswith raw_path "~/" = false) as E2.
    { apply prefix_iff in E1 as [b ->]. reflexivity. }
    rewrite E2. cbn [andb].
    split; [discriminate|]. intros _.
    destruct (join_root (Str.drop 8 raw_path)) as [r ->]. cbn [bind].
    change (Str.startswith (String "/" r) "~/") with false. cbv iota.
    destruct (Hrest (String "/" r)) as [q ->]. cbn [bind]. eauto.
  - destruct (Str.startswith raw_path "~/") eqn:E2; cbn [andb].
    + unfold posixpath.join_opt.
      destruct (Str.startswith (Str.drop 2 raw_path) "/"); cbn [negb bind].
      * split; [discriminate|]. intros _.
        destruct (Hrest (Str.drop 2 raw_path)) as [q ->]. cbn [bind]. eauto.
      * split; [reflexivity | discriminate].
    + split; [discriminate|]. intros _.
      destruct (Hrest raw_path) as [q ->]. cbn [bind]. eauto.
Qed.

Lemma local_rewriter_needs_home_witness :
  _local_uri_rewriter (mkEnv None "/work") "~/data/x.bam" = Raise AttributeError.
Proof.
  apply (proj1 (proj2 (local_rewriter_needs_home "/work" "~/data/x.bam"))).
  reflexivity.
Defined.

(** ** The logging destination *)

Lemma basename_keeps_suffix (p t : string) :
  Str.char_in "/" t = false -> exists q, posixpath.basename (p ++ t) = q ++ t.
Proof.
  intros Ht. unfold posixpath.basename. induction p as [|c p IH].
  - exists "". cbn [append]. now rewrite (cut_no_slash _ Ht).
  - cbn [append posixpath.cut]. destruct (Str.char_in "/" (p ++ t)).
    + destruct (posixpath.cut (p ++ t)). exact IH.
    + destruct (Ascii.eqb c "/"); cbn [snd]; [now exists p | now exists (String c p)].
Qed.

(** X21. A logging parameter built from a URI is a file whose name ends
    in [.log], when the URI does, and a directory otherwise, with an empty
    base name; in both cases its base name has no asterisk. *)
Theorem logging_destination (env : os_env) (util_class : string -> FileParamUtil)
        (c : ascii) (r : string) (lp : LoggingParam) :
  build_logging_param env (Some (String c r)) util_class = Ok lp ->
  exists parts prov,
    lp = mkLoggingParam (Some parts) (Some prov)
    /\ ~ occurs "*" (basename parts)
    /\ (((exists p, String c r = p ++ ".log") /\ exists q, basename parts = q ++ ".log")
        \/ (~ (exists p, String c r = p ++ ".log") /\ basename parts = "")).
Proof.
  unfold build_logging_param.
  destruct (parse_uri (util_class "") env (String c r)
              (negb (Str.endswith (String c r) ".log"))) as [[[d parts] prov]|e] eqn:E;
    cbn [bind]; [|discriminate].
  destruct (Str.contains "*" (basename parts)) eqn:Ew; [discriminate|].
  intros H; injection H as <-. exists parts, prov.
  split; [reflexivity|]. split; [now apply contains_false_iff|].
  destruct (Str.endswith (String c r) ".log") eqn:El; cbn [negb] in E.
  - left. apply endswith_iff in El. split; [exact El|].
    destruct El as [p Hp]. apply parse_uri_file_parts in E as [-> _]. rewrite Hp.
    now apply basename_keeps_suffix.
  - right. split.
    + intros Hp. apply endswith_iff in Hp. congruence.
    + now apply parse_uri_recursive_parts in E as [-> _].
Qed.

Lemma logging_destination_witness :
  exists parts prov,
    mkLoggingParam (Some (mkUriParts "gs://b/logs/" "")) (Some P_GCS)
    = mkLoggingParam (Some parts) (Some prov)
    /\ ~ occurs "*" (basename parts)
    /\ (((exists p, "gs://b/logs" = p ++ ".log") /\ exists q, basename parts = q ++ ".log")
        \/ (~ (exists p, "gs://b/logs" = p ++ ".log") /\ basename parts = "")).
Proof.
  exact (logging_destination example_env OutputFileParamUtil "g" "s://b/logs"
           (mkLoggingParam (Some (mkUriParts "gs://b/logs/" "")) (Some P_GCS)) eq_refl).
Defined.
